(** * Storage controller of the installer server: guided partitioning and
      the block probe life cycle

    A shallow embedding of [subiquity/server/controllers/filesystem.py]
    (class [FilesystemController]).  Python integers are [Z], strings are
    [string], the [_errors] dictionary keyed by the [restricted] flag is a
    [gmap bool _], and methods that mutate [self] or raise are computations
    in a state-and-exception monad over the controller record. *)

From Stdlib Require Import ZArith List Sorted Permutation Lia Ascii String FinFun.
From stdpp Require Import gmap strings list fin_maps pretty.

Local Open Scope Z_scope.

(** ** Python exceptions raised or handled by the controller *)

Inductive PyExc : Type :=
| CancelledError
| TimeoutError
| AttributeError (msg : string)
| KeyError (key : string)
| TypeError (msg : string)
| ValueError (msg : string)
| NameConflict (name : string)
| Exception_ (msg : string).

(** ** Sizes *)

Module sizes.

(** [1 << 30] *)
Definition GiB : Z := Z.shiftl 1 30.

(** Modelled from the spec: [align_up] of [subiquity.models.filesystem] is
    imported by the controller but not part of the sources at hand; the
    size is rounded up to the next multiple of the alignment. *)
Definition align_up (size block_size : Z) : Z :=
  (size + block_size - 1) / block_size * block_size.

(** Modelled from the spec: [align_down] of [subiquity.models.filesystem];
    the size is rounded down to a multiple of the block size. *)
Definition align_down (size block_size : Z) : Z :=
  size / block_size * block_size.

(** The tier selection inlined in [guided_lvm] (the [if]/[elif] chain on
    [vg.size]), before the final [align_down]. *)
Definition lv_size_tier (vg_size : Z) : Z :=
  if vg_size <? 10 * Z.shiftl 1 30 then vg_size
  else if vg_size <? 20 * Z.shiftl 1 30 then 10 * Z.shiftl 1 30
  else if vg_size <? 200 * Z.shiftl 1 30 then vg_size / 2
  else 100 * Z.shiftl 1 30.

(** [lv_size = align_down(lv_size, LVM_CHUNK_SIZE)]; the constant
    [LVM_CHUNK_SIZE] is imported from the model and taken as a
    parameter. *)
Definition lv_size_policy (LVM_CHUNK_SIZE vg_size : Z) : Z :=
  align_down (lv_size_tier vg_size) LVM_CHUNK_SIZE.

End sizes.

(** ** Data model *)

Module Partition.
Record t : Type := mk {
  number : Z;
  offset : Z;
  size : Z;
  resize : bool;
  estimated_min_size : Z;
}.
Definition set_size (new_size : Z) (p : t) : t :=
  mk (number p) (offset p) new_size (resize p) (estimated_min_size p).
Definition set_resize (b : bool) (p : t) : t :=
  mk (number p) (offset p) (size p) b (estimated_min_size p).
End Partition.

Module Gap.
(** [device] is the identity of the device the gap lies on. *)
Record t : Type := mk {
  device : string;
  offset : Z;
  size : Z;
}.
End Gap.

Inductive DeviceType : Type := type_disk | type_raid.

(** What [disk.constructed_device()] answers: nothing, a [Raid] (with the
    identities of its [_subvolumes]), or some other device. *)
Inductive ConstructedDevice : Type :=
| CDRaid (_subvolumes : list string)
| CDOther.

Module Device.
(** A [Disk] or [Raid] object of the model; [part_align] is
    [alignment_data().part_align]. *)
Record t : Type := mk {
  id : string;
  type : DeviceType;
  size : Z;
  partitions : list Partition.t;
  part_align : Z;
  constructed_device : option ConstructedDevice;
}.
Definition set_partitions (ps : list Partition.t) (d : t) : t :=
  mk (id d) (type d) (size d) ps (part_align d) (constructed_device d).
End Device.

Module VolGroup.
Record t : Type := mk {
  name : string;
  devices : list Partition.t;
  size : Z;
  password : option string;
}.
End VolGroup.

(** The result of [sizes.calculate_guided_resize]. *)
Module ResizeVals.
Record t : Type := mk {
  install_max : Z;
  minimum : Z;
  recommended : Z;
  maximum : Z;
}.
End ResizeVals.

Inductive GuidedStorageTarget : Type :=
| GuidedStorageTargetReformat (disk_id : string)
| GuidedStorageTargetUseGap (disk_id : string) (gap : Gap.t)
| GuidedStorageTargetResize (disk_id : string) (partition_number new_size : Z)
    (minimum recommended maximum : Z).

Definition target_disk_id (target : GuidedStorageTarget) : string :=
  match target with
  | GuidedStorageTargetReformat d => d
  | GuidedStorageTargetUseGap d _ => d
  | GuidedStorageTargetResize d _ _ _ _ _ => d
  end.

(** Modelled from the spec: [GuidedStorageTargetResize.from_recommendations]
    belongs to [subiquity.common.types]; it names the partition's disk and
    number and asks for the recommended size. *)
Definition from_recommendations (disk_id : string) (p : Partition.t)
    (vals : ResizeVals.t) : GuidedStorageTarget :=
  GuidedStorageTargetResize disk_id (Partition.number p)
    (ResizeVals.recommended vals) (ResizeVals.minimum vals)
    (ResizeVals.recommended vals) (ResizeVals.maximum vals).

Module GuidedChoiceV2.
Record t : Type := mk {
  target : GuidedStorageTarget;
  use_lvm : bool;
  password : option string;
}.
End GuidedChoiceV2.

Inductive DeviceAction : Type :=
| EDIT | REFORMAT | PARTITION | FORMAT | REMOVE | DELETE | TOGGLE_BOOT.

Global Instance DeviceAction_eq_dec : EqDecision DeviceAction.
Proof. solve_decision. Defined.

Inductive ErrorReportKind : Type :=
| BLOCK_PROBE_FAIL
| DISK_PROBE_FAIL.

(** An apport report and the reference [report.ref()] handed to clients. *)
Module ErrorReport.
Record t : Type := mk { kind : ErrorReportKind; base : string }.
Record ErrorReportRef : Type := mk_ref { ref_kind : ErrorReportKind; ref_base : string }.
Definition ref (r : t) : ErrorReportRef := mk_ref (kind r) (base r).
End ErrorReport.

(** The raw probe payload, a dictionary: the controller looks only at which
    keys it has; the values are opaque to it (their JSON text). *)
Definition Storage : Type := gmap string string.

(** The storage model as far as the controller reads and writes it. *)
Module Model.
Record t : Type := mk {
  devices : list Device.t;
  volgroups : list VolGroup.t;
  guided_configuration : option GuidedChoiceV2.t;
  _partition_alignment_data : list (string * Z);
  _probe_data : option Storage;
  grub : option string;
  swap : option string;
}.
Definition set_devices (ds : list Device.t) (m : t) : t :=
  mk ds (volgroups m) (guided_configuration m) (_partition_alignment_data m)
     (_probe_data m) (grub m) (swap m).
Definition set_volgroups (vgs : list VolGroup.t) (m : t) : t :=
  mk (devices m) vgs (guided_configuration m) (_partition_alignment_data m)
     (_probe_data m) (grub m) (swap m).
Definition set_guided_configuration (c : option GuidedChoiceV2.t) (m : t) : t :=
  mk (devices m) (volgroups m) c (_partition_alignment_data m)
     (_probe_data m) (grub m) (swap m).
Definition set_grub (g : option string) (m : t) : t :=
  mk (devices m) (volgroups m) (guided_configuration m)
     (_partition_alignment_data m) (_probe_data m) g (swap m).
Definition set_swap (s : option string) (m : t) : t :=
  mk (devices m) (volgroups m) (guided_configuration m)
     (_partition_alignment_data m) (_probe_data m) (grub m) s.

(** [_all(type=...)] over the devices. *)
Definition _all (ty : DeviceType) (m : t) : list Device.t :=
  List.filter (fun d => match Device.type d, ty with
                        | type_disk, type_disk | type_raid, type_raid => true
                        | _, _ => false
                        end) (devices m).

(** [_one(id=...)]: the first object with that identity, or [None]. *)
Definition _one_id (i : string) (m : t) : option Device.t :=
  List.find (fun d => bool_decide (Device.id d = i)) (devices m).

(** [_one(type='lvm_volgroup', name=...)]. *)
Definition _one_volgroup (n : string) (m : t) : option VolGroup.t :=
  List.find (fun vg => bool_decide (VolGroup.name vg = n)) (volgroups m).

(** The object found by [_one(id=...)] is shared with the model: writing
    to it is writing to the first device of that identity. *)
Fixpoint replace_device (d' : Device.t) (ds : list Device.t) : list Device.t :=
  match ds with
  | [] => []
  | d :: rest =>
      if bool_decide (Device.id d = Device.id d') then d' :: rest
      else d :: replace_device d' rest
  end.
End Model.

(** ** The unattended intent document [ai_data]

    A dictionary with the keys the controller looks at; [None] is an absent
    key. *)

Module Layout.
Record t : Type := mk {
  name : option string;
  mode : option string;
  match_ : option string;
}.
End Layout.

Module AiData.
Record t : Type := mk {
  layout : option Layout.t;
  config : option (list string);
  grub : option string;
  swap : option string;
}.
End AiData.

(** ** Calls to collaborators and log records, kept as a trace *)

Inductive Call : Type :=
| CallSuperConfigured
| CallProbeOnce (restricted : bool)
| CallReformat (disk_id : string)
| CallReformatNone
| CallAddBootDisk (disk_id : string)
| CallAddBootDiskNone
| CallCreatePartition (disk_id : string) (gap : option Gap.t) (fstype mount : option string)
| CallCreateVolgroup (name : string)
| CallCreateLogicalVolume (vg_name : string) (size : Z)
| CallApplyAutoinstallConfig (config : list string).

Inductive LogLevel : Type := DEBUG | INFO | WARNING | ERROR.

(** ** The controller object *)

Module Controller.
Record t : Type := mk {
  _configured : bool;
  _errors : gmap bool (PyExc * ErrorReport.t);
  probe_task_done : bool;
  model : Model.t;
  ai_data : AiData.t;
  block_log : list (string * Storage);
  apport_files : list (string * string);
  log : list (LogLevel * string);
  listening_udev : bool;
  calls : list Call;
}.
Definition set__configured (b : bool) (c : t) : t :=
  mk b (_errors c) (probe_task_done c) (model c) (ai_data c) (block_log c)
     (apport_files c) (log c) (listening_udev c) (calls c).
Definition set__errors (e : gmap bool (PyExc * ErrorReport.t)) (c : t) : t :=
  mk (_configured c) e (probe_task_done c) (model c) (ai_data c) (block_log c)
     (apport_files c) (log c) (listening_udev c) (calls c).
Definition set_model (m : Model.t) (c : t) : t :=
  mk (_configured c) (_errors c) (probe_task_done c) m (ai_data c) (block_log c)
     (apport_files c) (log c) (listening_udev c) (calls c).
Definition set_ai_data (a : AiData.t) (c : t) : t :=
  mk (_configured c) (_errors c) (probe_task_done c) (model c) a (block_log c)
     (apport_files c) (log c) (listening_udev c) (calls c).
Definition set_block_log (f : list (string * Storage)) (c : t) : t :=
  mk (_configured c) (_errors c) (probe_task_done c) (model c) (ai_data c) f
     (apport_files c) (log c) (listening_udev c) (calls c).
Definition set_apport_files (f : list (string * string)) (c : t) : t :=
  mk (_configured c) (_errors c) (probe_task_done c) (model c) (ai_data c)
     (block_log c) f (log c) (listening_udev c) (calls c).
Definition set_log (l : list (LogLevel * string)) (c : t) : t :=
  mk (_configured c) (_errors c) (probe_task_done c) (model c) (ai_data c)
     (block_log c) (apport_files c) l (listening_udev c) (calls c).
Definition set_listening_udev (b : bool) (c : t) : t :=
  mk (_configured c) (_errors c) (probe_task_done c) (model c) (ai_data c)
     (block_log c) (apport_files c) (log c) b (calls c).
Definition set_calls (l : list Call) (c : t) : t :=
  mk (_configured c) (_errors c) (probe_task_done c) (model c) (ai_data c)
     (block_log c) (apport_files c) (log c) (listening_udev c) l.
End Controller.

(** ** State and exceptions

    A method is a function from the controller before the call to its
    outcome (an exception or a value) and the controller after it: writes
    made before a [raise] stay. *)

Definition M (A : Type) : Type := Controller.t -> (PyExc + A) * Controller.t.

Definition ret {A} (a : A) : M A := fun c => (inr a, c).
Definition raise {A} (e : PyExc) : M A := fun c => (inl e, c).
Definition bind {A B} (m : M A) (k : A -> M B) : M B :=
  fun c => match m c with
           | (inl e, c') => (inl e, c')
           | (inr a, c') => k a c'
           end.
Definition gets {A} (f : Controller.t -> A) : M A := fun c => (inr (f c), c).
Definition modify (f : Controller.t -> Controller.t) : M unit := fun c => (inr tt, f c).

Declare Scope py_scope.
Delimit Scope py_scope with py.
Notation "x <- m ;; k" := (bind m (fun x => k))
  (at level 100, m at next level, right associativity) : py_scope.
Notation "m ;; k" := (bind m (fun _ => k))
  (at level 100, right associativity) : py_scope.
Local Open Scope py_scope.

Definition record_call (x : Call) : M unit :=
  modify (fun c => Controller.set_calls (Controller.calls c ++ [x]) c).
Definition log_record (lvl : LogLevel) (msg : string) : M unit :=
  modify (fun c => Controller.set_log (Controller.log c ++ [(lvl, msg)]) c).
Definition modify_model (f : Model.t -> Model.t) : M unit :=
  modify (fun c => Controller.set_model (f (Controller.model c)) c).

(** A collaborator that works on the model: it may raise, and what it wrote
    to the model before raising stays. *)
Definition on_model {A} (f : Model.t -> (PyExc + A) * Model.t) : M A :=
  fun c => let '(r, m') := f (Controller.model c) in (r, Controller.set_model m' c).

(** ** Collaborators

    What the controller imports from the rest of the installer
    ([boot], [gaps], [sizes], the manipulator it inherits from, the model's
    loader, the prober, the error reporter, the event loop).  Their code is
    outside the controller; each is a parameter here. *)

Inductive AwaitOutcome : Type :=
| Completes    (* the awaited task ran to its end within the timeout *)
| TimesOut     (* [asyncio.wait_for] gave up: [TimeoutError] *)
| Cancelled.   (* the awaiting task was cancelled: [CancelledError] *)

(** What [_done_response] reads off the model besides the status. *)
Definition DonePayload : Type := string.

Class Collaborators : Type := {
  (* boot *)
  can_be_boot_device : Model.t -> string -> option Partition.t -> bool -> bool;
  is_boot_device : Model.t -> string -> bool;
  supported : Model.t -> string -> list DeviceAction;
  (* gaps *)
  largest_gap : Model.t -> list string -> option Gap.t;
  gaps_at_offset : Model.t -> string -> Z -> option Gap.t;
  gap_within : Model.t -> Gap.t -> option Gap.t;
  gap_split : Gap.t -> Z -> PyExc + (Gap.t * option Gap.t);
  parts_and_gaps_repr : Model.t -> string -> string;
  (* sizes *)
  get_bootfs_size : Z -> Z;
  calculate_guided_resize : Z -> Z -> Z -> Z -> option ResizeVals.t;
  sizes_calculate_suggested_install_min : Z -> Z -> Z;
  LVM_CHUNK_SIZE : Z;
  (* the model and the manipulator *)
  volgroup_size : list Partition.t -> Z;
  all_disks : Model.t -> list Device.t;
  disk_for_match : Model.t -> list Device.t -> option string -> PyExc + Device.t;
  render_done : Model.t -> DonePayload;
  reformat : string -> Model.t -> (PyExc + unit) * Model.t;
  add_boot_disk : string -> Model.t -> (PyExc + unit) * Model.t;
  create_partition :
    string -> option Gap.t -> option string -> option string ->
    Model.t -> (PyExc + Partition.t) * Model.t;
  create_logical_volume : VolGroup.t -> Z -> Model.t -> (PyExc + unit) * Model.t;
  apply_autoinstall_config : list string -> Model.t -> (PyExc + unit) * Model.t;
  load_probe_data : Storage -> Model.t -> (PyExc + unit) * Model.t;
  (* the same, handed [None] for a disk that [_one] did not find: whether
     they raise is theirs to say *)
  reformat_none : Model.t -> (PyExc + unit) * Model.t;
  largest_gap_none : Model.t -> PyExc + option Gap.t;
  gaps_at_offset_none : Model.t -> Z -> PyExc + option Gap.t;
  supported_none : Model.t -> PyExc + list DeviceAction;
  add_boot_disk_none : Model.t -> (PyExc + unit) * Model.t;
  (* [str(target)], as the classes of [subiquity.common.types] print *)
  target_str : GuidedStorageTarget -> string;
  (* the application, the prober and the event loop *)
  source_current_size : Z;
  use_os_prober : bool;
  block_log_dir : string;
  machine : string;
  get_storage : gset string -> PyExc + Storage;
  wait_for : bool -> Z -> AwaitOutcome;
  make_apport_report : ErrorReportKind -> string -> option ErrorReport.t;
  await_probe_task : Controller.t -> Controller.t;
}.

(** ** The gap behind a partition *)

(** The start of the partition that follows [offset] in offset order, or
    the end of the disk. *)
Definition next_partition_start (d : Device.t) (offset : Z) : Z :=
  List.fold_right
    (fun p stop =>
       if (offset <? Partition.offset p) && (Partition.offset p <? stop)
       then Partition.offset p else stop)
    (Device.size d) (Device.partitions d).

(** Modelled from the spec: [gaps.after] belongs to
    [subiquity.common.filesystem.gaps], which the controller imports and
    which is not part of the sources at hand.  By the spec, gaps are derived
    from the partitions of a disk in offset order: between the end of one
    partition, rounded up to the alignment, and the start of the next (or the
    end of the disk) lies a gap if that span is not negative; the resize
    takes the gap immediately following the partition that starts at the
    given offset, and there may be none. *)
Definition gaps_after (m : Model.t) (disk_id : string) (offset : Z)
    : option Gap.t :=
  match Model._one_id disk_id m with
  | None => None
  | Some d =>
      match List.find (fun p => Partition.offset p =? offset) (Device.partitions d) with
      | None => None
      | Some p =>
          let start := sizes.align_up (Partition.offset p + Partition.size p)
                         (Device.part_align d) in
          let stop := next_partition_start d offset in
          if start <=? stop then Some (Gap.mk disk_id start (stop - start)) else None
      end
  end.

(** ** [list.sort(reverse=True, key=...)]

    CPython reverses the list, sorts it with a stable ascending sort and
    reverses the result. *)

Section ListSort.
Context {A : Type} (key : A -> Z).

Fixpoint insert_by (x : A) (l : list A) : list A :=
  match l with
  | [] => [x]
  | y :: l' => if key x <=? key y then x :: y :: l' else y :: insert_by x l'
  end.

Definition sort_by (l : list A) : list A := List.fold_right insert_by [] l.

Definition list_sort_reverse (l : list A) : list A := rev (sort_by (rev l)).
End ListSort.

(** ** Volume group names *)

(** ['ubuntu-vg'], then ['ubuntu-vg-{}'.format(i)]. *)
Definition vg_name_at (i : nat) : string :=
  match i with
  | O => "ubuntu-vg"
  | S _ => "ubuntu-vg-" +:+ pretty i
  end.

(** The [while] loop of [guided_lvm]; [i] and [vg_name] are its variables.
    [None] is a run that outlives its fuel. *)
Fixpoint vg_name_loop (fuel : nat) (m : Model.t) (i : nat) (vg_name : string)
    : option string :=
  match fuel with
  | O => None
  | S fuel' =>
      match Model._one_volgroup vg_name m with
      | Some _ => vg_name_loop fuel' m (S i) ("ubuntu-vg-" +:+ pretty (S i))
      | None => Some vg_name
      end
  end.

(** The fuel [default_vg_name] gives the loop: one more round than there are
    volume groups. *)
Definition default_vg_name (m : Model.t) : option string :=
  vg_name_loop (S (length (Model.volgroups m))) m 0%nat "ubuntu-vg".

(** ** The controller's methods *)

Inductive ProbeStatus : Type := PROBING | FAILED | DONE.

(** [StorageResponse]: the status, the error report reference and, when
    done, what was rendered from the model. *)
Module StorageResponse.
Record t : Type := mk {
  status : ProbeStatus;
  error_report : option ErrorReport.ErrorReportRef;
  rendered : option DonePayload;
}.
End StorageResponse.

Module GuidedStorageResponseV2.
Record t : Type := mk {
  status : ProbeStatus;
  error_report : option ErrorReport.ErrorReportRef;
  configured : option GuidedChoiceV2.t;
  possible : list GuidedStorageTarget;
}.
End GuidedStorageResponseV2.

(** The dictionary built by [build_lvm_options]. *)
Module LvmOptions.
Record t : Type := mk { encrypt : bool; luks_options_password : string }.
End LvmOptions.

(** [os.path.join] of a directory and a relative file name. *)
Fixpoint ends_with_slash (s : string) : bool :=
  match s with
  | EmptyString => false
  | String c EmptyString => bool_decide (c = "/"%char)
  | String _ rest => ends_with_slash rest
  end.

Definition path_join (dir fname : string) : string :=
  match dir with
  | EmptyString => fname
  | _ => if ends_with_slash dir then dir +:+ fname else dir +:+ "/" +:+ fname
  end.

(** [max] over a generator: [ValueError] on an empty one. *)
Definition py_max (l : list Z) : PyExc + Z :=
  match l with
  | [] => inl (ValueError "max() arg is an empty sequence")
  | x :: rest => inr (List.fold_left Z.max rest x)
  end.

Section Methods.
Context `{Collaborators}.

Definition lift {A} (r : PyExc + A) : M A := fun c => (r, c).

Definition stop_listening_udev : M unit :=
  modify (Controller.set_listening_udev false).

Definition configured : M unit :=
  modify (Controller.set__configured true);;
  record_call CallSuperConfigured;;
  stop_listening_udev.

(** *** The manipulator's methods, with the call noted *)

Definition self_reformat (disk_id : string) : M unit :=
  record_call (CallReformat disk_id);;
  on_model (reformat disk_id).

Definition self_add_boot_disk (disk_id : string) : M unit :=
  record_call (CallAddBootDisk disk_id);;
  on_model (add_boot_disk disk_id).

Definition self_reformat_none : M unit :=
  record_call CallReformatNone;;
  on_model reformat_none.

Definition self_add_boot_disk_none : M unit :=
  record_call CallAddBootDiskNone;;
  on_model add_boot_disk_none.

Definition self_create_partition (device : string) (gap : option Gap.t)
    (fstype mount : option string) : M Partition.t :=
  record_call (CallCreatePartition device gap fstype mount);;
  on_model (create_partition device gap fstype mount).

Definition self_create_logical_volume (vg : VolGroup.t) (size : Z) : M unit :=
  record_call (CallCreateLogicalVolume (VolGroup.name vg) size);;
  on_model (create_logical_volume vg size).

(** Modelled from the spec: [create_volgroup] is inherited from the
    manipulator; it adds a group of the given name to the model and
    fails with [NameConflict] if a group of that name exists. *)
Definition self_create_volgroup (name : string) (devices : list Partition.t)
    (password : option string) : M VolGroup.t :=
  record_call (CallCreateVolgroup name);;
  m <- gets Controller.model;;
  match Model._one_volgroup name m with
  | Some _ => raise (NameConflict name)
  | None =>
      let vg := VolGroup.mk name devices (volgroup_size devices) password in
      modify_model (Model.set_volgroups (Model.volgroups m ++ [vg]));;
      ret vg
  end.

(** *** Guided partitioning *)

Definition guided_direct (gap : Gap.t) : M unit :=
  _ <- self_create_partition (Gap.device gap) (Some gap) (Some "ext4") (Some "/");;
  ret tt.

(** Lines 160 to 168 of [guided_lvm]: choose the name, create the group. *)
Definition create_default_volgroup (part : Partition.t)
    (lvm_options : option LvmOptions.t) : M VolGroup.t :=
  m <- gets Controller.model;;
  match default_vg_name m with
  | None => raise (Exception_ "volume group name search did not finish")
  | Some vg_name =>
      let password :=
        match lvm_options with
        | Some o => if LvmOptions.encrypt o
                    then Some (LvmOptions.luks_options_password o) else None
        | None => None
        end in
      self_create_volgroup vg_name [part] password
  end.

Definition guided_lvm (gap : Gap.t) (lvm_options : option LvmOptions.t) : M unit :=
  halves <- lift (gap_split gap (get_bootfs_size (Gap.size gap)));;
  let '(gap_boot, gap_rest) := halves in
  let device := Gap.device gap in
  _ <- self_create_partition device (Some gap_boot) (Some "ext4") (Some "/boot");;
  part <- self_create_partition device gap_rest None None;;
  vg <- create_default_volgroup part lvm_options;;
  let lv_size := sizes.lv_size_policy LVM_CHUNK_SIZE (VolGroup.size vg) in
  self_create_logical_volume vg lv_size.

Definition get_partition (disk : Device.t) (number : Z) : PyExc + Partition.t :=
  match List.find (fun p => Partition.number p =? number) (Device.partitions disk) with
  | Some p => inr p
  | None => inl (ValueError ("Partition " +:+ pretty number +:+ " on "
                             +:+ Device.id disk +:+ " not found"))
  end.

(** Writing an attribute of the partition [get_partition] found: the
    object is the one in the disk's partition list. *)
Fixpoint write_partition (number : Z) (f : Partition.t -> Partition.t)
    (ps : list Partition.t) : list Partition.t :=
  match ps with
  | [] => []
  | p :: rest =>
      if Partition.number p =? number then f p :: rest
      else p :: write_partition number f rest
  end.

Definition set_partition_attr (disk_id : string) (number : Z)
    (f : Partition.t -> Partition.t) : M unit :=
  modify_model (fun m =>
    match Model._one_id disk_id m with
    | Some d =>
        let d' := Device.set_partitions
                    (write_partition number f (Device.partitions d)) d in
        Model.set_devices (Model.replace_device d' (Model.devices m)) m
    | None => m
    end).

Definition start_guided_reformat (disk : Device.t) : M (option Gap.t) :=
  self_reformat (Device.id disk);;
  m <- gets Controller.model;;
  ret (largest_gap m [Device.id disk]).

Definition start_guided_use_gap (gap : Gap.t) (disk : Device.t) : M (option Gap.t) :=
  m <- gets Controller.model;;
  ret (gaps_at_offset m (Device.id disk) (Gap.offset gap)).

Definition start_guided_resize (partition_number target_new_size : Z)
    (disk : Device.t) : M (option Gap.t) :=
  partition <- lift (get_partition disk partition_number);;
  let part_align := Device.part_align disk in
  let new_size := sizes.align_up target_new_size part_align in
  if new_size >? Partition.size partition then
    raise (Exception_ ("Aligned requested size " +:+ pretty new_size +:+ " too large"))
  else
    set_partition_attr (Device.id disk) partition_number (Partition.set_size new_size);;
    set_partition_attr (Device.id disk) partition_number (Partition.set_resize true);;
    m <- gets Controller.model;;
    match gaps_after m (Device.id disk) (Partition.offset partition) with
    | None =>
        raise (Exception_ ("gap not found after resize, pgs="
                           +:+ parts_and_gaps_repr m (Device.id disk)))
    | Some gap => ret (Some gap)
    end.

(** The single dispatch on the target's class. *)
Definition start_guided (target : GuidedStorageTarget) (disk : Device.t)
    : M (option Gap.t) :=
  match target with
  | GuidedStorageTargetReformat _ => start_guided_reformat disk
  | GuidedStorageTargetUseGap _ gap => start_guided_use_gap gap disk
  | GuidedStorageTargetResize _ partition_number new_size _ _ _ =>
      start_guided_resize partition_number new_size disk
  end.

(** [start_guided(target, None)], when [_one] found no disk: the same
    dispatch with [None] handed on; [get_partition] reads
    [disk.partitions()] itself. *)
Definition start_guided_none (target : GuidedStorageTarget) : M (option Gap.t) :=
  match target with
  | GuidedStorageTargetReformat _ =>
      self_reformat_none;;
      m <- gets Controller.model;;
      lift (largest_gap_none m)
  | GuidedStorageTargetUseGap _ gap =>
      m <- gets Controller.model;;
      lift (gaps_at_offset_none m (Gap.offset gap))
  | GuidedStorageTargetResize _ _ _ _ _ _ =>
      raise (AttributeError "'NoneType' object has no attribute 'partitions'")
  end.

Definition build_lvm_options (password : option string) : option LvmOptions.t :=
  match password with
  | None => None
  | Some p => Some (LvmOptions.mk true p)
  end.

Definition guided (choice : GuidedChoiceV2.t) : M unit :=
  modify_model (Model.set_guided_configuration (Some choice));;
  m <- gets Controller.model;;
  match Model._one_id (target_disk_id (GuidedChoiceV2.target choice)) m with
  | None =>
      gap <- start_guided_none (GuidedChoiceV2.target choice);;
      m <- gets Controller.model;;
      actions <- lift (supported_none m);;
      (if bool_decide (TOGGLE_BOOT ∈ actions)
       then self_add_boot_disk_none else ret tt);;
      match gap with
      | None => raise (AttributeError "'NoneType' object has no attribute 'within'")
      | Some gap =>
          m <- gets Controller.model;;
          match gap_within m gap with
          | None => raise (Exception_ "failed to locate gap after adding boot")
          | Some gap =>
              if GuidedChoiceV2.use_lvm choice then
                guided_lvm gap (build_lvm_options (GuidedChoiceV2.password choice))
              else guided_direct gap
          end
      end
  | Some disk =>
      gap <- start_guided (GuidedChoiceV2.target choice) disk;;
      m <- gets Controller.model;;
      (if bool_decide (TOGGLE_BOOT ∈ supported m (Device.id disk))
       then self_add_boot_disk (Device.id disk) else ret tt);;
      match gap with
      | None => raise (AttributeError "'NoneType' object has no attribute 'within'")
      | Some gap =>
          m <- gets Controller.model;;
          match gap_within m gap with
          | None => raise (Exception_ "failed to locate gap after adding boot")
          | Some gap =>
              if GuidedChoiceV2.use_lvm choice then
                guided_lvm gap (build_lvm_options (GuidedChoiceV2.password choice))
              else guided_direct gap
          end
      end
  end.

(** *** Answers to status queries *)

(** [_probe_response]: [None] means the caller goes on to build its own
    answer.  Awaiting the start task and [_probe_task.wait()] is the event
    loop's [await_probe_task]. *)
Definition _probe_response (wait : bool)
    : M (option (ProbeStatus * option ErrorReport.ErrorReportRef)) :=
  task_done <- gets Controller.probe_task_done;;
  if negb task_done && negb wait then ret (Some (PROBING, None))
  else
    (if negb task_done then modify await_probe_task else ret tt);;
    errors <- gets Controller._errors;;
    match errors !! true with
    | Some (_, report) => ret (Some (FAILED, Some (ErrorReport.ref report)))
    | None => ret None
    end.

Definition full_probe_error : M (option ErrorReport.ErrorReportRef) :=
  errors <- gets Controller._errors;;
  match errors !! false with
  | Some (_, report) => ret (Some (ErrorReport.ref report))
  | None => ret None
  end.

(** The arguments of [StorageResponse(...)] are evaluated in turn:
    [self.model._probe_data['blockdev']] raises [TypeError] while no probe
    data is loaded, and [KeyError] if the data has no such entry. *)
Definition _done_response : M StorageResponse.t :=
  error_report <- full_probe_error;;
  m <- gets Controller.model;;
  let config := render_done m in
  match Model._probe_data m with
  | None => raise (TypeError "'NoneType' object is not subscriptable")
  | Some _probe_data =>
      match _probe_data !! "blockdev" with
      | None => raise (KeyError "blockdev")
      | Some _ => ret (StorageResponse.mk DONE error_report (Some config))
      end
  end.

Definition GET (wait : bool) : M StorageResponse.t :=
  probe_resp <- _probe_response wait;;
  match probe_resp with
  | Some (status, error_report) => ret (StorageResponse.mk status error_report None)
  | None => _done_response
  end.

(** *** Scenario enumeration *)

Definition get_guided_disks (check_boot with_reformatting : bool) (m : Model.t)
    : list Device.t :=
  List.filter
    (fun raid =>
       negb (check_boot
             && negb (can_be_boot_device m (Device.id raid) None with_reformatting)))
    (Model._all type_raid m)
  ++
  List.filter
    (fun disk =>
       if check_boot
          && negb (can_be_boot_device m (Device.id disk) None with_reformatting)
       then false
       else
         match Device.constructed_device disk with
         | Some (CDRaid _subvolumes) =>
             negb (existsb
                     (fun v => check_boot
                               && can_be_boot_device m v None with_reformatting)
                     _subvolumes)
         | _ => true
         end)
    (Model._all type_disk m).

Definition calculate_suggested_install_min : M Z :=
  let source_min := source_current_size in
  m <- gets Controller.model;;
  align <- lift (py_max (List.map snd (Model._partition_alignment_data m)));;
  ret (sizes_calculate_suggested_install_min source_min align).

(** The three loops of [v2_guided_GET], each appending to [scenarios]. *)
Definition reformat_scenarios (install_min : Z) (m : Model.t)
    : list (Z * GuidedStorageTarget) :=
  flat_map
    (fun disk =>
       if Device.size disk >=? install_min
       then [(Device.size disk, GuidedStorageTargetReformat (Device.id disk))]
       else [])
    (get_guided_disks true true m).

Definition use_gap_scenarios (install_min : Z) (m : Model.t)
    : list (Z * GuidedStorageTarget) :=
  flat_map
    (fun disk =>
       if (length (Device.partitions disk) <? 1)%nat then []
       else
         match largest_gap m [Device.id disk] with
         | Some gap =>
             if Gap.size gap >=? install_min
             then [(Gap.size gap, GuidedStorageTargetUseGap (Device.id disk) gap)]
             else []
         | None => []
         end)
    (get_guided_disks true false m).

Definition resize_scenarios (install_min : Z) (m : Model.t)
    : list (Z * GuidedStorageTarget) :=
  flat_map
    (fun disk =>
       let part_align := Device.part_align disk in
       flat_map
         (fun partition =>
            match calculate_guided_resize
                    (Partition.estimated_min_size partition)
                    (Partition.size partition) install_min part_align with
            | None => []
            | Some vals =>
                if negb (can_be_boot_device m (Device.id disk) (Some partition) false)
                then []
                else [(ResizeVals.install_max vals,
                       from_recommendations (Device.id disk) partition vals)]
            end)
         (Device.partitions disk))
    (get_guided_disks false false m).

(** [scenarios] as it stands before the sort. *)
Definition candidate_scenarios (install_min : Z) (m : Model.t)
    : list (Z * GuidedStorageTarget) :=
  reformat_scenarios install_min m
  ++ use_gap_scenarios install_min m
  ++ resize_scenarios install_min m.

Definition sorted_scenarios (install_min : Z) (m : Model.t)
    : list (Z * GuidedStorageTarget) :=
  list_sort_reverse fst (candidate_scenarios install_min m).

Definition v2_guided_GET (wait : bool) : M GuidedStorageResponseV2.t :=
  probe_resp <- _probe_response wait;;
  match probe_resp with
  | Some (status, error_report) =>
      ret (GuidedStorageResponseV2.mk status error_report None [])
  | None =>
      install_min <- calculate_suggested_install_min;;
      m <- gets Controller.model;;
      let scenarios := sorted_scenarios install_min m in
      ret (GuidedStorageResponseV2.mk DONE None
             (Model.guided_configuration m) (List.map snd scenarios))
  end.

(** *** The probe *)

(** [_probe_once] from the point where [get_storage] has answered: the
    controller it runs on is the one of that moment. *)
Definition _probe_once_resume (fname key : string) (storage : Storage) : M unit :=
  is_configured <- gets Controller._configured;;
  if is_configured then ret tt
  else
    let fpath := path_join block_log_dir fname in
    modify (fun c => Controller.set_block_log
                       ((fpath, storage) :: Controller.block_log c) c);;
    modify (fun c => Controller.set_apport_files
                       (Controller.apport_files c ++ [(key, fpath)]) c);;
    on_model (load_probe_data storage).

Definition probe_types (restricted : bool) : gset string :=
  if restricted then {[ "blockdev" ]}
  else
    let probe_types : gset string := {[ "defaults"; "filesystem_sizing" ]} in
    if use_os_prober then probe_types ∪ {[ "os" ]} else probe_types.

Definition _probe_once (restricted : bool) : M unit :=
  let fname := if restricted then "probe-data-restricted.json" else "probe-data.json" in
  let key := if restricted then "ProbeDataRestricted" else "ProbeData" in
  storage <- lift (get_storage (probe_types restricted));;
  _probe_once_resume fname key storage.

(** The body of the [try]: start the task and wait for it, for at most
    [timeout] seconds. *)
Definition probe_attempt (restricted : bool) : M unit :=
  record_call (CallProbeOnce restricted);;
  let timeout := if bool_decide (machine = "riscv64") then 60 else 15 in
  match wait_for restricted timeout with
  | Completes => _probe_once restricted
  | TimesOut => raise TimeoutError
  | Cancelled => raise CancelledError
  end.

(** The [except Exception] handler: log, make the report, and keep the
    exception under the class's key if there is a report. *)
Definition probe_failed (restricted : bool) (kind : ErrorReportKind)
    (exc : PyExc) : M unit :=
  log_record ERROR ("block probing failed restricted="
                    +:+ (if restricted then "True" else "False"));;
  match make_apport_report kind "block probing" with
  | Some report =>
      modify (fun c => Controller.set__errors
                         (<[restricted := (exc, report)]> (Controller._errors c)) c)
  | None => ret tt
  end.

(** The [for] loop of [_probe] over the classes still to try. *)
Fixpoint _probe_loop (classes : list (bool * ErrorReportKind)) : M unit :=
  match classes with
  | [] => ret tt
  | (restricted, kind) :: rest =>
      fun c =>
        match probe_attempt restricted c with
        | (inr _, c') => (inr tt, c')                               (* break *)
        | (inl CancelledError, c') => (inl CancelledError, c')      (* raise *)
        | (inl exc, c') =>
            (probe_failed restricted kind exc;; _probe_loop rest) c'  (* continue *)
        end
  end.

Definition _probe : M unit :=
  modify (Controller.set__errors ∅);;
  _probe_loop [(false, BLOCK_PROBE_FAIL); (true, DISK_PROBE_FAIL)].

(** *** Unattended installs *)

Definition validate_layout_mode (mode : string) : PyExc + unit :=
  if bool_decide (mode = "reformat_disk") || bool_decide (mode = "use_gap")
  then inr tt
  else inl (ValueError ("Unknown layout mode " +:+ mode)).

Definition run_autoinstall_guided (layout : Layout.t) : M unit :=
  match Layout.name layout with
  | None => raise (KeyError "name")
  | Some name =>
      let mode := default "reformat_disk" (Layout.mode layout) in
      lift (validate_layout_mode mode);;
      m <- gets Controller.model;;
      target <-
        (if bool_decide (mode = "reformat_disk") then
           (* an absent 'match' stands for the default {'size': 'largest'} *)
           let match_ := Layout.match_ layout in
           disk <- lift (disk_for_match m (all_disks m) match_);;
           ret (GuidedStorageTargetReformat (Device.id disk))
         else
           (* [validate_layout_mode] leaves only 'use_gap' *)
           let bootable :=
             List.filter (fun d => can_be_boot_device m (Device.id d) None false)
                         (all_disks m) in
           match largest_gap m (List.map Device.id bootable) with
           | None =>
               raise (Exception_ ("autoinstall cannot configure storage "
                                  +:+ "- no gap found large enough for install"))
           | Some gap => ret (GuidedStorageTargetUseGap (Gap.device gap) gap)
           end);;
      log_record INFO ("autoinstall: running guided " +:+ name
                       +:+ " install in mode " +:+ mode
                       +:+ " using " +:+ target_str target);;
      let use_lvm := bool_decide (name = "lvm") in
      guided (GuidedChoiceV2.mk target use_lvm None)
  end.

Definition convert_autoinstall_config : M unit :=
  ai_data <- gets Controller.ai_data;;
  match AiData.layout ai_data with
  | Some layout =>
      (match AiData.config ai_data with
       | Some _ =>
           log_record WARNING ("The 'storage' section should not contain both "
                               +:+ "'layout' and 'config', using 'layout'")
       | None => ret tt
       end);;
      run_autoinstall_guided layout
  | None =>
      match AiData.config ai_data with
      | Some config =>
          record_call (CallApplyAutoinstallConfig config);;
          on_model (apply_autoinstall_config config);;
          modify_model (Model.set_grub (AiData.grub ai_data));;
          modify_model (Model.set_swap (AiData.swap ai_data))
      | None => ret tt
      end
  end.

End Methods.

(** ** Derived notions used in the statements *)

(** One [create_default_volgroup] per partition, in a row. *)
Fixpoint create_default_volgroups `{Collaborators} (parts : list Partition.t)
    : M (list string) :=
  match parts with
  | [] => ret []
  | part :: rest =>
      vg <- create_default_volgroup part None;;
      names <- create_default_volgroups rest;;
      ret (VolGroup.name vg :: names)
  end.

Definition volgroup_names (m : Model.t) : list string :=
  List.map VolGroup.name (Model.volgroups m).

(** The order in which devices are enumerated: raids, then disks. *)
Definition enumeration (m : Model.t) : list Device.t :=
  Model._all type_raid m ++ Model._all type_disk m.

Definition kind_rank (target : GuidedStorageTarget) : nat :=
  match target with
  | GuidedStorageTargetReformat _ => 0
  | GuidedStorageTargetUseGap _ _ => 1
  | GuidedStorageTargetResize _ _ _ _ _ _ => 2
  end.

(** The position of a target's disk in the enumeration. *)
Fixpoint index_of (i : string) (ids : list string) : nat :=
  match ids with
  | [] => 0
  | j :: rest => if bool_decide (j = i) then 0 else S (index_of i rest)
  end.

Definition disk_rank (m : Model.t) (target : GuidedStorageTarget) : nat :=
  index_of (target_disk_id target) (List.map Device.id (enumeration m)).

(** Ties ordered by disk first and by kind second, as a reading of the
    scenario list would have it: a scenario never comes after an equally
    sized one that it precedes in that order. *)
Definition ties_by_disk_then_kind (m : Model.t)
    (scenarios : list (Z * GuidedStorageTarget)) : Prop :=
  forall (i j : nat) a b,
    (i < j)%nat -> scenarios !! i = Some a -> scenarios !! j = Some b ->
    fst a = fst b ->
    (disk_rank m (snd a) < disk_rank m (snd b))%nat
    \/ (disk_rank m (snd a) = disk_rank m (snd b)
        /\ (kind_rank (snd a) <= kind_rank (snd b))%nat).

(** A device bearing [i] stands in the enumeration at or before one
    bearing [j]. *)
Definition enumerated_no_later (m : Model.t) (i j : string) : Prop :=
  exists (p q : nat) (da db : Device.t),
    (p <= q)%nat
    /\ enumeration m !! p = Some da /\ enumeration m !! q = Some db
    /\ Device.id da = i /\ Device.id db = j.

(** Ties ordered by kind first and by disk second: of two scenarios of one
    size, the one that comes first is of an earlier kind, or of the same kind
    and for a device that is enumerated no later. *)
Definition ties_by_kind_then_disk (m : Model.t)
    (scenarios : list (Z * GuidedStorageTarget)) : Prop :=
  forall (i j : nat) a b,
    (i < j)%nat -> scenarios !! i = Some a -> scenarios !! j = Some b ->
    fst a = fst b ->
    (kind_rank (snd a) < kind_rank (snd b))%nat
    \/ (kind_rank (snd a) = kind_rank (snd b)
        /\ enumerated_no_later m (target_disk_id (snd a)) (target_disk_id (snd b))).

(** The scenarios of a given size, in list order. *)
Definition of_size (s : Z) (scenarios : list (Z * GuidedStorageTarget))
    : list (Z * GuidedStorageTarget) :=
  List.filter (fun x => fst x =? s) scenarios.

(** Each name of [names] is the first of the sequence that neither
    [existing] nor the names before it hold. *)
Definition first_free_each (existing names : list string) : Prop :=
  forall pre n post, names = pre ++ n :: post ->
    exists j, n = vg_name_at j
              /\ ~ In n (existing ++ pre)
              /\ forall k, (k < j)%nat -> In (vg_name_at k) (existing ++ pre).

(** The exception kept for a class, if a report could be made. *)
Definition kept `{Collaborators} (kind : ErrorReportKind) (exc : PyExc)
    : option (PyExc * ErrorReport.t) :=
  (fun report => (exc, report)) <$> make_apport_report kind "block probing".

(** ** What a method can touch

    Two ways to bound a method by its structure: the calls it adds to the
    trace all satisfy a given property, and it neither reads nor writes the
    [ai_data] document. *)

Definition extends_calls (P : Call -> Prop) {A} (m : M A) : Prop :=
  forall c, exists l,
    Controller.calls (snd (m c)) = Controller.calls c ++ l /\ List.Forall P l.

Definition ai_blind {A} (m : M A) : Prop :=
  forall a c,
    m (Controller.set_ai_data a c)
    = (fst (m c), Controller.set_ai_data a (snd (m c))).

Definition not_add_boot (x : Call) : Prop := forall d, x <> CallAddBootDisk d.



(** What [guided] does once the target is applied: the payload, into what
    [within()] finds of the gap. *)
Definition guided_payload `{Collaborators} (choice : GuidedChoiceV2.t) (gap : Gap.t) : M unit :=
  m <- gets Controller.model;;
  match gap_within m gap with
  | None => raise (Exception_ "failed to locate gap after adding boot")
  | Some gap =>
      if GuidedChoiceV2.use_lvm choice then
        guided_lvm gap (build_lvm_options (GuidedChoiceV2.password choice))
      else guided_direct gap
  end.

(** ** An example machine

    Two disks: [sda] of 200 GiB with one partition that ends at 150 GiB and,
    behind it, a gap of 50 GiB; [sdb] of 50 GiB without partitions.  Both
    disks already are boot devices, so toggling boot is among the actions
    either of them supports.  No apport report can be made (the installer
    does not run from the live medium), and the prober fails. *)

Definition MiB : Z := Z.shiftl 1 20.

Definition sda_part1 : Partition.t :=
  Partition.mk 1 MiB (150 * sizes.GiB - MiB) false (20 * sizes.GiB).

Definition sda : Device.t :=
  Device.mk "sda" type_disk (200 * sizes.GiB) [sda_part1] MiB None.

Definition sdb : Device.t :=
  Device.mk "sdb" type_disk (50 * sizes.GiB) [] MiB None.

Definition sda_gap : Gap.t :=
  Gap.mk "sda" (150 * sizes.GiB) (50 * sizes.GiB).

Definition example_model : Model.t :=
  Model.mk [sda; sdb] [] None [("gpt", MiB); ("msdos", MiB)] None None None.

Definition example_machine_with (outcome : bool -> AwaitOutcome)
    (report : ErrorReportKind -> option ErrorReport.t) : Collaborators := {|
  can_be_boot_device := fun _ _ _ _ => true;
  is_boot_device := fun _ _ => true;
  supported := fun _ _ => [TOGGLE_BOOT];
  largest_gap := fun _ ids =>
    if bool_decide (ids = ["sda"]) then Some sda_gap else None;
  gaps_at_offset := fun _ i off =>
    if bool_decide (i = "sda") && (off =? Gap.offset sda_gap) then Some sda_gap
    else None;
  gap_within := fun _ g => Some g;
  gap_split := fun g size => inr (Gap.mk (Gap.device g) (Gap.offset g) size, None);
  parts_and_gaps_repr := fun _ _ => "[]";
  get_bootfs_size := fun _ => sizes.GiB;
  calculate_guided_resize := fun _ _ _ _ => None;
  sizes_calculate_suggested_install_min := fun source_min _ => source_min;
  LVM_CHUNK_SIZE := 4 * MiB;
  volgroup_size := fun ps => List.fold_right Z.add 0 (List.map Partition.size ps);
  all_disks := fun m => Model._all type_disk m;
  disk_for_match := fun _ ds _ =>
    match ds with
    | d :: _ => inr d
    | [] => inl (Exception_ "no disk matches")
    end;
  render_done := fun _ => "{}";
  reformat := fun _ m => (inr tt, m);
  add_boot_disk := fun _ m => (inr tt, m);
  create_partition := fun _ gap _ _ m =>
    (inr (Partition.mk 2 (from_option Gap.offset 0 gap) (from_option Gap.size 0 gap)
            false 0), m);
  create_logical_volume := fun _ _ m => (inr tt, m);
  apply_autoinstall_config := fun _ m => (inr tt, m);
  load_probe_data := fun _ m => (inr tt, m);
  reformat_none := fun m =>
    (inl (AttributeError "'NoneType' object has no attribute 'partitions'"), m);
  largest_gap_none := fun _ =>
    inl (AttributeError "'NoneType' object has no attribute 'partitions'");
  gaps_at_offset_none := fun _ _ =>
    inl (AttributeError "'NoneType' object has no attribute 'partitions'");
  supported_none := fun _ =>
    inl (AttributeError "'NoneType' object has no attribute 'type'");
  add_boot_disk_none := fun m =>
    (inl (AttributeError "'NoneType' object has no attribute 'partitions'"), m);
  target_str := fun target =>
    match target with
    | GuidedStorageTargetReformat d =>
        "GuidedStorageTargetReformat(disk_id='" +:+ d +:+ "')"
    | GuidedStorageTargetUseGap d gap =>
        "GuidedStorageTargetUseGap(disk_id='" +:+ d +:+ "', gap=Gap(offset="
        +:+ pretty (Gap.offset gap) +:+ ", size=" +:+ pretty (Gap.size gap) +:+ "))"
    | GuidedStorageTargetResize d number new_size _ _ _ =>
        "GuidedStorageTargetResize(disk_id='" +:+ d +:+ "', partition_number="
        +:+ pretty number +:+ ", new_size=" +:+ pretty new_size +:+ ")"
    end;
  source_current_size := 20 * sizes.GiB;
  use_os_prober := false;
  block_log_dir := "/var/log/installer/block";
  machine := "x86_64";
  get_storage := fun _ => inl (Exception_ "probert failed");
  wait_for := fun restricted _ => outcome restricted;
  make_apport_report := fun kind _ => report kind;
  await_probe_task := fun c => c;
|}.

Definition example_machine : Collaborators :=
  example_machine_with (fun _ => Completes) (fun _ => None).

(** The controller of the example machine once a probe run is done. *)
Definition example_controller : Controller.t :=
  Controller.mk false ∅ true example_model (AiData.mk None None None None)
    [] [] [] true [].

(** The example machine when reports can be made. *)
Definition reporting_machine : Collaborators :=
  example_machine_with (fun _ => Completes)
    (fun kind => Some (ErrorReport.mk kind "crash")).

(** The example machine when the run is cancelled during the restricted
    class. *)
Definition cancelling_machine : Collaborators :=
  example_machine_with (fun restricted => if restricted then Cancelled else Completes)
    (fun kind => Some (ErrorReport.mk kind "crash")).

(** The example machine when a report can be made for a failure of the
    unrestricted class only. *)
Definition half_reporting_machine : Collaborators :=
  example_machine_with (fun _ => Completes)
    (fun kind =>
       match kind with
       | BLOCK_PROBE_FAIL => Some (ErrorReport.mk kind "crash")
       | DISK_PROBE_FAIL => None
       end).

Definition configured_controller : Controller.t :=
  snd (configured example_controller).

(** A controller whose last run kept a failure of the unrestricted class
    only. *)
Definition controller_after_unrestricted_failure : Controller.t :=
  Controller.set__errors
    {[ false := (Exception_ "probert failed", ErrorReport.mk BLOCK_PROBE_FAIL "crash") ]}
    example_controller.

(** The same once probe data has been loaded into the model. *)
Definition probed_model : Model.t :=
  Model.mk [sda; sdb] [] None [("gpt", MiB); ("msdos", MiB)]
    (Some {[ "blockdev" := "{}" ]}) None None.

Definition probed_after_unrestricted_failure : Controller.t :=
  Controller.set_model probed_model controller_after_unrestricted_failure.




(** A guided choice for the gap on [sda], without LVM. *)
Definition use_gap_choice : GuidedChoiceV2.t :=
  GuidedChoiceV2.mk (GuidedStorageTargetUseGap "sda" sda_gap) false None.

Definition use_gap_chosen : Controller.t :=
  Controller.set_model
    (Model.set_guided_configuration (Some use_gap_choice) example_model)
    example_controller.

(** ** More of the controller: requests, unattended installs, udev events

    What these methods read besides the collaborators above. *)

(** The API's [Partition] as a request carries it. *)
Module PartitionData.
Record t : Type := mk {
  number : Z;
  size : option Z;
  wipe : option string;
  mount : option string;
  format : option string;
  boot : option bool;
}.
End PartitionData.

Module AddPartitionV2.
Record t : Type := mk {
  disk_id : string;
  partition : PartitionData.t;
  gap : Gap.t;
}.
End AddPartitionV2.

Module ModifyPartitionV2.
Record t : Type := mk {
  disk_id : string;
  partition : PartitionData.t;
}.
End ModifyPartitionV2.

(** The [spec] dictionaries handed to the manipulator; [None] is an absent
    key.  [v2_add_partition_POST] leaves [wipe] out of its dictionary;
    [v2_edit_partition_POST] always sets it, and there [None] is the value
    it was set to. *)
Module PartitionSpec.
Record t : Type := mk {
  size : option Z;
  fstype : option string;
  mount : option string;
  wipe : option string;
}.
End PartitionSpec.

(** [StorageResponseV2]: built by [_probe_response] from a status and an
    error report, or by [get_v2_storage_response] when the probe is done. *)
Inductive StorageResponseV2 : Type :=
| V2NotDone (status : ProbeStatus) (error_report : option ErrorReport.ErrorReportRef)
| V2Done (disks : list Device.t) (need_root need_boot : bool)
    (install_minimum_size : Z).

(** What [model.render()] answers, as far as [make_autoinstall] reads it:
    ['storage'] (with or without ['config']) and ['swap']. *)
Module Rendered.
Record t : Type := mk {
  storage : option (option (list string));
  swap : option string;
}.
End Rendered.

Class Requests : Type := {
  (* the controller base class and the application *)
  interactive : bool;
  storage_version : Z;
  (* the model *)
  is_root_mounted : Model.t -> bool;
  needs_bootloader_partition : Model.t -> bool;
  render : Model.t -> Rendered.t;
  (* a partition's filesystem and flags *)
  fs_fstype : Partition.t -> option string;
  original_fstype : Partition.t -> option string;
  partition_mount : Partition.t -> option string;
  partition_boot : Partition.t -> bool;
  (* the manipulator *)
  create_partition_spec :
    string -> option Gap.t -> PartitionSpec.t -> string ->
    Model.t -> (PyExc + Partition.t) * Model.t;
  delete_partition : string -> Partition.t -> Model.t -> (PyExc + unit) * Model.t;
  partition_disk_handler :
    string -> PartitionSpec.t -> Partition.t -> Model.t -> (PyExc + unit) * Model.t;
  (* a collaborator handed [None] for a disk that [_one] did not find *)
  missing_disk : string -> PyExc;
}.

Section Requests.
Context `{Collaborators} `{Requests}.

Definition load_autoinstall_data (data : option AiData.t) : M unit :=
  let data :=
    match data with
    | None =>
        if negb interactive
        then AiData.mk (Some (Layout.mk (Some "lvm") None None)) None None None
        else AiData.mk None None None None
    | Some data => data
    end in
  modify (Controller.set_ai_data data).

(** The controller's own [apply_autoinstall_config] (the model has a method
    of the same name, a collaborator above).  Awaiting the start task and
    [_probe_task.wait()] returns at once when the task is done. *)
Definition controller_apply_autoinstall_config : M unit :=
  task_done <- gets Controller.probe_task_done;;
  (if negb task_done then modify await_probe_task else ret tt);;
  errors <- gets Controller._errors;;
  match errors !! false with
  | Some (exc, _) => raise exc
  | None =>
      match errors !! true with
      | Some (exc, _) => raise exc
      | None =>
          convert_autoinstall_config;;
          m <- gets Controller.model;;
          if negb (is_root_mounted m)
          then raise (Exception_ "autoinstall config did not mount root")
          else if needs_bootloader_partition m
          then raise (Exception_ ("autoinstall config did not create needed bootloader "
                                  +:+ "partition"))
          else ret tt
      end
  end.

(** [get_v2_storage_response(self.model, wait)]; [labels.for_client] keeps
    the device. *)
Definition get_v2_storage_response (wait : bool) : M StorageResponseV2 :=
  probe_resp <- _probe_response wait;;
  match probe_resp with
  | Some (status, error_report) => ret (V2NotDone status error_report)
  | None =>
      m <- gets Controller.model;;
      let disks := Model._all type_disk m in
      minsize <- calculate_suggested_install_min;;
      ret (V2Done disks (negb (is_root_mounted m)) (needs_bootloader_partition m) minsize)
  end.

Definition v2_GET (wait : bool) : M StorageResponseV2 :=
  get_v2_storage_response wait.

Definition v2_POST : M StorageResponseV2 :=
  configured;;
  v2_GET false.

(** [has_bitlocker_GET]: the inner loop over a disk's partitions, with its
    [continue] and [break]. *)
Fixpoint has_bitlocker_partition (parts : list Partition.t) : bool :=
  match parts with
  | [] => false
  | part :: rest =>
      match fs_fstype part with
      | None => has_bitlocker_partition rest
      | Some fstype =>
          if bool_decide (fstype = "BitLocker") then true
          else has_bitlocker_partition rest
      end
  end.

Definition has_bitlocker_GET : M (list Device.t) :=
  m <- gets Controller.model;;
  ret (List.filter (fun disk => has_bitlocker_partition (Device.partitions disk))
                   (all_disks m)).

Definition v2_add_boot_partition_POST (disk_id : string) : M StorageResponseV2 :=
  m <- gets Controller.model;;
  match Model._one_id disk_id m with
  | None => raise (missing_disk "is_boot_device")
  | Some disk =>
      if is_boot_device m (Device.id disk)
      then raise (ValueError "device already has bootloader partition")
      else if negb (bool_decide (TOGGLE_BOOT ∈ supported m (Device.id disk)))
      then raise (ValueError "disk does not support boot partiton")
      else
        self_add_boot_disk (Device.id disk);;
        v2_GET false
  end.

(** The size [v2_add_partition_POST] asks of the gap, from the size of the
    request and the gap of the request: its [requested_size] after the
    second [if]. *)
Definition requested_size (data : AddPartitionV2.t) : Z :=
  let requested_size := default 0 (PartitionData.size (AddPartitionV2.partition data)) in
  if requested_size <? 1 then Gap.size (AddPartitionV2.gap data) else requested_size.

Definition v2_add_partition_POST (data : AddPartitionV2.t) : M StorageResponseV2 :=
  let partition := AddPartitionV2.partition data in
  match PartitionData.format partition with
  | None => raise (ValueError "add_partition must supply format")
  | Some format =>
      match PartitionData.boot partition with
      | Some _ => raise (ValueError "add_partition does not support changing boot")
      | None =>
          m <- gets Controller.model;;
          let disk := Model._one_id (AddPartitionV2.disk_id data) m in
          if default 0 (PartitionData.size partition) >? Gap.size (AddPartitionV2.gap data)
          then raise (ValueError "new partition too large")
          else
            let spec := PartitionSpec.mk (Some (requested_size data)) (Some format)
                          (PartitionData.mount partition) None in
            match disk with
            | None => raise (missing_disk "at_offset")
            | Some disk =>
                match gaps_at_offset m (Device.id disk)
                        (Gap.offset (AddPartitionV2.gap data)) with
                | None =>
                    raise (AttributeError "'NoneType' object has no attribute 'split'")
                | Some gap =>
                    halves <- lift (gap_split gap (requested_size data));;
                    _ <- on_model (create_partition_spec (Device.id disk)
                                     (Some (fst halves)) spec "superblock");;
                    v2_GET false
                end
            end
      end
  end.

(** [get_partition] on what [_one] answered. *)
Definition get_partition_of (disk : option Device.t) (number : Z)
    : PyExc + Partition.t :=
  match disk with
  | None => inl (AttributeError "'NoneType' object has no attribute 'partitions'")
  | Some disk => get_partition disk number
  end.

Definition v2_delete_partition_POST (data : ModifyPartitionV2.t)
    : M StorageResponseV2 :=
  m <- gets Controller.model;;
  let disk := Model._one_id (ModifyPartitionV2.disk_id data) m in
  partition <- lift (get_partition_of disk
                       (PartitionData.number (ModifyPartitionV2.partition data)));;
  on_model (delete_partition (ModifyPartitionV2.disk_id data) partition);;
  v2_GET false.

(** [a or b] on optional strings: [None] and the empty string give way. *)
Definition str_or (a b : option string) : option string :=
  match a with
  | None | Some EmptyString => b
  | Some _ => a
  end.

(** The checks of [v2_edit_partition_POST] and the [spec] it builds. *)
Definition edit_partition_spec (data : PartitionData.t) (partition : Partition.t)
    : PyExc + PartitionSpec.t :=
  if match PartitionData.size data with
     | None => false
     | Some size => negb (size =? Partition.size partition)
     end && (storage_version <? 2)
  then inl (ValueError "edit_partition does not support changing size")
  else if match PartitionData.boot data with
          | None => false
          | Some boot => negb (Bool.eqb boot (partition_boot partition))
          end
  then inl (ValueError "edit_partition does not support changing boot")
  else
    let mount := str_or (PartitionData.mount data) (partition_mount partition) in
    match PartitionData.format data with
    | Some format =>
        if negb (bool_decide (Some format = original_fstype partition))
           && bool_decide (PartitionData.wipe data = None)
        then inl (ValueError "changing partition format requires a wipe value")
        else inr (PartitionSpec.mk (PartitionData.size data) (Some format) mount
                    (PartitionData.wipe data))
    | None =>
        inr (PartitionSpec.mk (PartitionData.size data) None mount
               (PartitionData.wipe data))
    end.

Definition v2_edit_partition_POST (data : ModifyPartitionV2.t)
    : M StorageResponseV2 :=
  m <- gets Controller.model;;
  let disk := Model._one_id (ModifyPartitionV2.disk_id data) m in
  partition <- lift (get_partition_of disk
                       (PartitionData.number (ModifyPartitionV2.partition data)));;
  spec <- lift (edit_partition_spec (ModifyPartitionV2.partition data) partition);;
  on_model (partition_disk_handler (ModifyPartitionV2.disk_id data) spec partition);;
  v2_GET false.

(** [make_autoinstall]: the dictionary it returns has the keys 'config' and,
    if rendered, 'swap'. *)
Definition make_autoinstall : M AiData.t :=
  m <- gets Controller.model;;
  let rendered := render m in
  match Rendered.storage rendered with
  | None => raise (KeyError "storage")
  | Some None => raise (KeyError "config")
  | Some (Some config) => ret (AiData.mk None (Some config) None (Rendered.swap rendered))
  end.

End Requests.

(** [GuidedStorageResponse]: a disk goes to the client together with the
    [min_size] handed to [labels.for_client]. *)
Module GuidedStorageResponse.
Record t : Type := mk {
  status : ProbeStatus;
  error_report : option ErrorReport.ErrorReportRef;
  disks : list (Device.t * Z);
}.
End GuidedStorageResponse.

Section GuidedRequests.
Context `{Collaborators}.

Definition guided_GET (wait : bool) : M GuidedStorageResponse.t :=
  probe_resp <- _probe_response wait;;
  match probe_resp with
  | Some (status, error_report) => ret (GuidedStorageResponse.mk status error_report [])
  | None =>
      let min_size := 2 * source_current_size + Z.shiftl 1 30 in
      m <- gets Controller.model;;
      let disks := get_guided_disks true true m in
      error_report <- full_probe_error;;
      ret (GuidedStorageResponse.mk DONE error_report
             (List.map (fun d => (d, min_size)) disks))
  end.

Definition v2_guided_POST (data : GuidedChoiceV2.t) : M GuidedStorageResponseV2.t :=
  guided data;;
  v2_guided_GET false.

End GuidedRequests.

(** *** The udev monitor

    [_udev_event] runs on the event loop whenever the monitor's file
    descriptor is readable. *)

Inductive LoopCallback : Type := cb_start_listening_udev.

Module Udev.
Record t : Type := mk {
  listening : bool;                       (* the reader is registered *)
  queue : list (string * string);         (* (action, device) waiting in the monitor *)
  timers : list (Z * LoopCallback);       (* [call_later], delay in milliseconds *)
  probe_running : bool;                   (* [_probe_task] has a task that is not done *)
  probe_starts : nat;                     (* runs of [_probe] started from here *)
  debug_log : list string;
}.
End Udev.

(** [select.select] and [receive_device], until nothing is readable. *)
Fixpoint drain (queue : list (string * string)) (log : list string) : list string :=
  match queue with
  | [] => log
  | (action, dev) :: rest => drain rest (log ++ ["_udev_event " +:+ action +:+ " " +:+ dev])
  end.

(** Modelled from the spec: [SingleInstanceTask.start_sync] belongs to
    [subiquitycore.async_helpers]; with [cancel_restart=False] a start while
    a run is active is refused with [TaskAlreadyRunningError], else a run
    starts. *)
Definition start_sync (u : Udev.t) : option Udev.t :=
  if Udev.probe_running u then None
  else Some (Udev.mk (Udev.listening u) (Udev.queue u) (Udev.timers u) true
               (S (Udev.probe_starts u)) (Udev.debug_log u)).

(** [settle_returncode] is the return code of [udevadm settle -t 0]. *)
Definition _udev_event (settle_returncode : Z) (u : Udev.t) : Udev.t :=
  if negb (settle_returncode =? 0) then
    Udev.mk false (Udev.queue u)
      (Udev.timers u ++ [(100, cb_start_listening_udev)])
      (Udev.probe_running u) (Udev.probe_starts u)
      (Udev.debug_log u ++ ["waiting 0.1 to let udev event queue settle"])
  else
    let drained :=
      Udev.mk (Udev.listening u) [] (Udev.timers u) (Udev.probe_running u)
        (Udev.probe_starts u) (drain (Udev.queue u) (Udev.debug_log u)) in
    match start_sync drained with
    | None =>
        Udev.mk (Udev.listening drained) (Udev.queue drained) (Udev.timers drained)
          (Udev.probe_running drained) (Udev.probe_starts drained)
          (Udev.debug_log drained
           ++ ["Skipping run of Probert - probe run already active"])
    | Some started =>
        Udev.mk (Udev.listening started) (Udev.queue started) (Udev.timers started)
          (Udev.probe_running started) (Udev.probe_starts started)
          (Udev.debug_log started ++ ["Triggered Probert run on udev event"])
    end.

(** The timer fires: [start_listening_udev]. *)
Definition run_timer (cb : LoopCallback) (u : Udev.t) : Udev.t :=
  match cb with
  | cb_start_listening_udev =>
      Udev.mk true (Udev.queue u) (Udev.timers u) (Udev.probe_running u)
        (Udev.probe_starts u) (Udev.debug_log u)
  end.

(** The requests of the example machine: an unattended install, storage
    version 1, nothing mounted yet. *)
Definition example_requests : Requests := {|
  interactive := false;
  storage_version := 1;
  is_root_mounted := fun _ => false;
  needs_bootloader_partition := fun _ => false;
  render := fun m =>
    Rendered.mk (Some (Some ["{type: disk, id: disk-sda}"])) (Model.swap m);
  fs_fstype := fun p => if Partition.number p =? 1 then Some "BitLocker" else None;
  original_fstype := fun p => if Partition.number p =? 1 then Some "BitLocker" else None;
  partition_mount := fun _ => None;
  partition_boot := fun _ => false;
  create_partition_spec := fun _ gap spec _ m =>
    (inr (Partition.mk 2 (from_option Gap.offset 0 gap)
            (default 0 (PartitionSpec.size spec)) false 0), m);
  delete_partition := fun _ _ m => (inr tt, m);
  partition_disk_handler := fun _ _ _ m => (inr tt, m);
  missing_disk := fun what => AttributeError ("'NoneType' object: " +:+ what);
|}.

(** What the event loop does to the monitor, one step at a time: the
    reader's callback runs on an event, or a timer fires. *)
Inductive UdevStep : Type :=
| step_event (settle_returncode : Z)
| step_timer (cb : LoopCallback).

Definition udev_step (u : Udev.t) (s : UdevStep) : Udev.t :=
  match s with
  | step_event settle_returncode => _udev_event settle_returncode u
  | step_timer cb => run_timer cb u
  end.

Definition udev_run (steps : list UdevStep) (u : Udev.t) : Udev.t :=
  List.fold_left udev_step steps u.

(** Whether one of the steps is an event that finds udev settled. *)
Definition settled_event (s : UdevStep) : bool :=
  match s with
  | step_event settle_returncode => settle_returncode =? 0
  | step_timer _ => false
  end.

(** The example machine with a prober that answers and a loader that cannot
    read the answer of the unrestricted class. *)
Definition half_loading_machine : Collaborators := {|
  can_be_boot_device := can_be_boot_device (Collaborators := example_machine);
  is_boot_device := is_boot_device (Collaborators := example_machine);
  supported := supported (Collaborators := example_machine);
  largest_gap := largest_gap (Collaborators := example_machine);
  gaps_at_offset := gaps_at_offset (Collaborators := example_machine);
  gap_within := gap_within (Collaborators := example_machine);
  gap_split := gap_split (Collaborators := example_machine);
  parts_and_gaps_repr := parts_and_gaps_repr (Collaborators := example_machine);
  get_bootfs_size := get_bootfs_size (Collaborators := example_machine);
  calculate_guided_resize := calculate_guided_resize (Collaborators := example_machine);
  sizes_calculate_suggested_install_min :=
    sizes_calculate_suggested_install_min (Collaborators := example_machine);
  LVM_CHUNK_SIZE := LVM_CHUNK_SIZE (Collaborators := example_machine);
  volgroup_size := volgroup_size (Collaborators := example_machine);
  all_disks := all_disks (Collaborators := example_machine);
  disk_for_match := disk_for_match (Collaborators := example_machine);
  render_done := render_done (Collaborators := example_machine);
  reformat := reformat (Collaborators := example_machine);
  add_boot_disk := add_boot_disk (Collaborators := example_machine);
  create_partition := create_partition (Collaborators := example_machine);
  create_logical_volume := create_logical_volume (Collaborators := example_machine);
  apply_autoinstall_config := apply_autoinstall_config (Collaborators := example_machine);
  load_probe_data := fun storage m =>
    match storage !! "blockdev" with
    | Some _ =>
        (inr tt, Model.mk (Model.devices m) (Model.volgroups m)
                   (Model.guided_configuration m) (Model._partition_alignment_data m)
                   (Some storage) (Model.grub m) (Model.swap m))
    | None =>
        (inl (KeyError "blockdev"),
         Model.mk [] (Model.volgroups m) (Model.guided_configuration m)
           (Model._partition_alignment_data m) (Some storage) (Model.grub m)
           (Model.swap m))
    end;
  reformat_none := reformat_none (Collaborators := example_machine);
  largest_gap_none := largest_gap_none (Collaborators := example_machine);
  gaps_at_offset_none := gaps_at_offset_none (Collaborators := example_machine);
  supported_none := supported_none (Collaborators := example_machine);
  add_boot_disk_none := add_boot_disk_none (Collaborators := example_machine);
  target_str := target_str (Collaborators := example_machine);
  source_current_size := source_current_size (Collaborators := example_machine);
  use_os_prober := use_os_prober (Collaborators := example_machine);
  block_log_dir := block_log_dir (Collaborators := example_machine);
  machine := machine (Collaborators := example_machine);
  get_storage := fun probe_types =>
    if bool_decide (probe_types = {[ "blockdev" ]}) then inr {[ "blockdev" := "{}" ]}
    else inr {[ "filesystem" := "{}" ]};
  wait_for := wait_for (Collaborators := example_machine);
  make_apport_report := fun kind _ => Some (ErrorReport.mk kind "crash");
  await_probe_task := await_probe_task (Collaborators := example_machine);
|}.

(** A guided choice to shrink a ninth partition of [sda], which has none. *)
Definition resize_ninth_of_sda : GuidedChoiceV2.t :=
  GuidedChoiceV2.mk (GuidedStorageTargetResize "sda" 9 (50 * sizes.GiB) 0 0 0)
    false None.

(** A request that names the first partition of [sda] and asks for nothing
    else. *)
Definition first_of_sda : ModifyPartitionV2.t :=
  ModifyPartitionV2.mk "sda" (PartitionData.mk 1 None None None None None).

(** The udev monitor of the example machine: listening, two events queued,
    no probe running. *)
Definition example_udev : Udev.t :=
  Udev.mk true [("add", "sdc"); ("add", "sdc1")] [] false 0 [].

(** ** The manual network form

    [NetworkConfigForm] of [network_configure_manual_interface]: how the
    fields for name servers and search domains are read.  A Python string is
    the list of its code points. *)

Definition pystr : Type := list Z.

(** The code points of a string of ASCII characters. *)
Fixpoint codes (s : string) : pystr :=
  match s with
  | EmptyString => []
  | String a rest => Z.of_N (N_of_ascii a) :: codes rest
  end.

(** What [str.strip()] takes for whitespace. *)
Definition isspace (ch : Z) : bool :=
  ((9 <=? ch) && (ch <=? 13)) || ((28 <=? ch) && (ch <=? 32))
  || (ch =? 133) || (ch =? 160) || (ch =? 5760)
  || ((8192 <=? ch) && (ch <=? 8202))
  || (ch =? 8232) || (ch =? 8233) || (ch =? 8239) || (ch =? 8287) || (ch =? 12288).

Fixpoint lstrip (s : pystr) : pystr :=
  match s with
  | [] => []
  | ch :: rest => if isspace ch then lstrip rest else s
  end.

Definition rstrip (s : pystr) : pystr := rev (lstrip (rev s)).

Definition strip (s : pystr) : pystr := rstrip (lstrip s).

(** [str.split(sep)] for a separator of one character: never an empty
    list. *)
Fixpoint split_on (sep : Z) (s : pystr) : list pystr :=
  match s with
  | [] => [[]]
  | ch :: rest =>
      if ch =? sep then [] :: split_on sep rest
      else
        match split_on sep rest with
        | [] => [[ch]]
        | word :: words => (ch :: word) :: words
        end
  end.

(** [sep.join(items)]. *)
Fixpoint join (sep : pystr) (items : list pystr) : pystr :=
  match items with
  | [] => []
  | [item] => item
  | item :: rest => item ++ sep ++ join sep rest
  end.

Definition comma : Z := 44.

Module NetworkConfigForm.

(** The loop of [clean_searchdomains] over what is left of
    [value.split(',')], with [domains] as it stands. *)
Fixpoint searchdomains_loop (parts : list pystr) (domains : list pystr)
    : list pystr :=
  match parts with
  | [] => domains
  | domain :: rest =>
      let domain := strip domain in
      match domain with
      | [] => searchdomains_loop rest domains
      | _ => searchdomains_loop rest (domains ++ [domain])
      end
  end.

Definition clean_searchdomains (value : pystr) : list pystr :=
  searchdomains_loop (split_on comma value) [].

Section Nameservers.
(** [ipaddress.ip_address]: an address, or the ValueError it raises. *)
Context {address : Type} (ip_address : pystr -> PyExc + address).

Fixpoint nameservers_loop (parts : list pystr) (nameservers : list address)
    : PyExc + list address :=
  match parts with
  | [] => inr nameservers
  | ns :: rest =>
      let ns := strip ns in
      match ns with
      | [] => nameservers_loop rest nameservers
      | _ =>
          match ip_address ns with
          | inl exc => inl exc
          | inr a => nameservers_loop rest (nameservers ++ [a])
          end
      end
  end.

Definition clean_nameservers (value : pystr) : PyExc + list address :=
  nameservers_loop (split_on comma value) [].

(** The addresses of the items in turn, up to the first that is none. *)
Fixpoint addresses_of (items : list pystr) : PyExc + list address :=
  match items with
  | [] => inr []
  | item :: rest =>
      match ip_address item with
      | inl exc => inl exc
      | inr a =>
          match addresses_of rest with
          | inl exc => inl exc
          | inr l => inr (a :: l)
          end
      end
  end.

End Nameservers.

(** What the form shows for the search domains or name servers a device
    is configured with: [', '.join(...)]. *)
Definition initial_value (configured : list pystr) : pystr :=
  join (codes ", ") configured.

End NetworkConfigForm.

(** * Properties *)

(** ** Sizes *)

Lemma GiB_value : Z.shiftl 1 30 = 1073741824.
Proof. reflexivity. Qed.

Lemma align_down_multiple (a k : Z) : a <> 0 -> sizes.align_down (k * a) a = k * a.
Proof. intros Ha. unfold sizes.align_down. now rewrite Z.div_mul. Qed.

Lemma align_down_bounds (x a : Z) :
  0 < a -> (a | sizes.align_down x a) /\ x - a < sizes.align_down x a <= x.
Proof.
  intros Ha. unfold sizes.align_down. split.
  - apply Z.divide_factor_r.
  - pose proof (Z.mul_div_le x a Ha). pose proof (Z.mod_pos_bound x a Ha).
    pose proof (Z.div_mod x a). lia.
Qed.

(** C4: the policy for the size of the logical volume: the whole group below
    10 GiB, 10 GiB below 20 GiB, half the group below 200 GiB, 100 GiB from
    there on, each rounded down to a multiple of the chunk size (a multiple
    of the chunk, at most the tier value and less than a chunk below it).
    With a chunk size that divides 1 GiB, 5 GiB gives 5 GiB, 15 GiB gives
    10 GiB, 100 GiB gives 50 GiB and 500 GiB gives 100 GiB. *)
Theorem lv_size_policy_tiers (chunk v : Z) :
  0 < chunk ->
  let G := sizes.GiB in
  let lv := sizes.lv_size_policy chunk v in
  (v < 10 * G -> lv = sizes.align_down v chunk)
  /\ (10 * G <= v < 20 * G -> lv = sizes.align_down (10 * G) chunk)
  /\ (20 * G <= v < 200 * G -> lv = sizes.align_down (v / 2) chunk)
  /\ (200 * G <= v -> lv = sizes.align_down (100 * G) chunk)
  /\ (chunk | lv)
  /\ sizes.lv_size_tier v - chunk < lv <= sizes.lv_size_tier v
  /\ ((chunk | G) ->
      sizes.lv_size_policy chunk (5 * G) = 5 * G
      /\ sizes.lv_size_policy chunk (15 * G) = 10 * G
      /\ sizes.lv_size_policy chunk (100 * G) = 50 * G
      /\ sizes.lv_size_policy chunk (500 * G) = 100 * G).
Proof.
  intros Hchunk G lv. subst G lv.
  unfold sizes.lv_size_policy, sizes.GiB.
  split; [| split; [| split; [| split; [| split; [| split]]]]].
  - intros Hv. unfold sizes.lv_size_tier. rewrite GiB_value in *.
    destruct (Z.ltb_spec v (10 * 1073741824)); [reflexivity | lia].
  - intros Hv. unfold sizes.lv_size_tier. rewrite GiB_value in *.
    destruct (Z.ltb_spec v (10 * 1073741824)); [lia |].
    destruct (Z.ltb_spec v (20 * 1073741824)); [reflexivity | lia].
  - intros Hv. unfold sizes.lv_size_tier. rewrite GiB_value in *.
    destruct (Z.ltb_spec v (10 * 1073741824)); [lia |].
    destruct (Z.ltb_spec v (20 * 1073741824)); [lia |].
    destruct (Z.ltb_spec v (200 * 1073741824)); [reflexivity | lia].
  - intros Hv. unfold sizes.lv_size_tier. rewrite GiB_value in *.
    destruct (Z.ltb_spec v (10 * 1073741824)); [lia |].
    destruct (Z.ltb_spec v (20 * 1073741824)); [lia |].
    destruct (Z.ltb_spec v (200 * 1073741824)); [lia | reflexivity].
  - apply align_down_bounds; assumption.
  - apply align_down_bounds; assumption.
  - intros [k Hk].
    change (sizes.lv_size_tier (5 * Z.shiftl 1 30)) with (5 * Z.shiftl 1 30).
    change (sizes.lv_size_tier (15 * Z.shiftl 1 30)) with (10 * Z.shiftl 1 30).
    change (sizes.lv_size_tier (100 * Z.shiftl 1 30)) with (50 * Z.shiftl 1 30).
    change (sizes.lv_size_tier (500 * Z.shiftl 1 30)) with (100 * Z.shiftl 1 30).
    rewrite Hk, !Z.mul_assoc.
    repeat split; apply align_down_multiple; lia.
Qed.

Lemma lv_size_policy_tiers_witness :
  0 < 4194304
  /\ sizes.lv_size_policy 4194304 (100 * sizes.GiB) = 50 * sizes.GiB.
Proof.
  split; [reflexivity |].
  destruct (lv_size_policy_tiers 4194304 0 eq_refl) as (_ & _ & _ & _ & _ & _ & H).
  apply H. exists 256. reflexivity.
Defined.

(** ** Volume group names *)

Lemma vg_name_loop_next fuel m i :
  vg_name_loop (S fuel) m i (vg_name_at i) =
  match Model._one_volgroup (vg_name_at i) m with
  | Some _ => vg_name_loop fuel m (S i) (vg_name_at (S i))
  | None => Some (vg_name_at i)
  end.
Proof. reflexivity. Qed.

Lemma vg_name_at_inj i j : vg_name_at i = vg_name_at j -> i = j.
Proof.
  destruct i as [|i], j as [|j]; simpl; intros Heq.
  - reflexivity.
  - discriminate Heq.
  - discriminate Heq.
  - injection Heq as Heq. now apply pretty_nat_inj in Heq.
Qed.

Lemma one_volgroup_None n m :
  Model._one_volgroup n m = None <-> ~ In n (volgroup_names m).
Proof.
  unfold Model._one_volgroup, volgroup_names.
  induction (Model.volgroups m) as [|vg vgs IH]; simpl.
  - tauto.
  - case_bool_decide as Hn; split.
    + discriminate.
    + intros Hnot. exfalso. apply Hnot. now left.
    + intros Hfind [Heq | Hin]; [congruence | now apply IH in Hfind].
    + intros Hnot. apply IH. tauto.
Qed.

Lemma one_volgroup_Some n m :
  is_Some (Model._one_volgroup n m) <-> In n (volgroup_names m).
Proof.
  pose proof (one_volgroup_None n m) as Hnone.
  destruct (Model._one_volgroup n m) as [vg|] eqn:Hfind.
  - split; [| eauto]. intros _.
    destruct (in_dec String.string_dec n (volgroup_names m)) as [Hin | Hnot]; [done |].
    apply Hnone in Hnot. discriminate.
  - split; [intros [? ?]; discriminate |].
    intros Hin. exfalso. now apply Hnone.
Qed.

(** What the loop answers is the first free name from [i] on. *)
Lemma vg_name_loop_first_free fuel m : forall i name,
  vg_name_loop fuel m i (vg_name_at i) = Some name ->
  exists j, (i <= j)%nat /\ name = vg_name_at j
            /\ ~ In (vg_name_at j) (volgroup_names m)
            /\ forall k, (i <= k < j)%nat -> In (vg_name_at k) (volgroup_names m).
Proof.
  induction fuel as [|fuel IH]; intros i name Hloop; [discriminate |].
  rewrite vg_name_loop_next in Hloop.
  destruct (Model._one_volgroup (vg_name_at i) m) as [vg|] eqn:Hfind.
  - destruct (IH _ _ Hloop) as (j & Hle & Hname & Hfree & Hbelow).
    exists j. repeat split; [lia | done | done |].
    intros k Hk. destruct (decide (k = i)) as [-> | Hne].
    + apply one_volgroup_Some. rewrite Hfind. eauto.
    + apply Hbelow. lia.
  - injection Hloop as <-. exists i. repeat split; [lia | |].
    + now apply one_volgroup_None.
    + intros k Hk. lia.
Qed.

(** The loop ends within its fuel if a free name is within reach. *)
Lemma vg_name_loop_finishes fuel m : forall i j,
  (i <= j < i + fuel)%nat -> ~ In (vg_name_at j) (volgroup_names m) ->
  is_Some (vg_name_loop fuel m i (vg_name_at i)).
Proof.
  induction fuel as [|fuel IH]; intros i j Hj Hfree; [lia |].
  rewrite vg_name_loop_next.
  destruct (Model._one_volgroup (vg_name_at i) m) as [vg|] eqn:Hfind; [| eauto].
  apply (IH (S i) j); [| done].
  destruct (decide (j = i)) as [-> | Hne]; [| lia].
  exfalso. apply Hfree, one_volgroup_Some. rewrite Hfind. eauto.
Qed.

(** Among the first [n + 1] names of the sequence one is free when [n]
    groups exist. *)
Lemma free_name_within (names : list string) :
  exists j, (j <= length names)%nat /\ ~ In (vg_name_at j) names.
Proof.
  set (cands := List.map vg_name_at (seq 0 (S (length names)))).
  destruct (List.Forall_Exists_dec (fun n => In n names)
              (fun n => in_dec String.string_dec n names) cands) as [Hall | Hsome].
  - exfalso.
    assert (Hnodup : List.NoDup cands).
    { apply Injective_map_NoDup; [| apply seq_NoDup].
      intros a b. apply vg_name_at_inj. }
    assert (Hincl : incl cands names).
    { intros n Hn. rewrite List.Forall_forall in Hall. now apply Hall. }
    pose proof (List.NoDup_incl_length Hnodup Hincl) as Hlen.
    unfold cands in Hlen. rewrite length_map, length_seq in Hlen. lia.
  - apply List.Exists_exists in Hsome as (n & Hn & Hfree).
    apply in_map_iff in Hn as (j & <- & Hj). apply in_seq in Hj.
    exists j. split; [lia | done].
Qed.

Lemma default_vg_name_spec m :
  exists j, default_vg_name m = Some (vg_name_at j)
            /\ ~ In (vg_name_at j) (volgroup_names m)
            /\ forall k, (k < j)%nat -> In (vg_name_at k) (volgroup_names m).
Proof.
  unfold default_vg_name.
  destruct (free_name_within (volgroup_names m)) as (j & Hj & Hfree).
  unfold volgroup_names in Hj. rewrite length_map in Hj.
  destruct (vg_name_loop_finishes (S (length (Model.volgroups m))) m 0 j
              ltac:(lia) Hfree) as [name Hname].
  change "ubuntu-vg" with (vg_name_at 0).
  destruct (vg_name_loop_first_free _ _ _ _ Hname) as (j' & _ & -> & Hfree' & Hbelow).
  exists j'. repeat split; [done | done |].
  intros k Hk. apply Hbelow. lia.
Qed.

Lemma first_free_each_prefix existing pre post :
  first_free_each existing (pre ++ post) -> first_free_each existing pre.
Proof.
  intros Hff pre' n post' ->. apply (Hff pre' n (post' ++ post)).
  now rewrite <- app_assoc.
Qed.

Lemma first_free_each_NoDup existing names :
  first_free_each existing names ->
  List.NoDup names /\ forall n, In n names -> ~ In n existing.
Proof.
  induction names as [|n pre IH] using rev_ind; intros Hff.
  - split; [constructor | intros n []].
  - destruct (IH (first_free_each_prefix _ _ _ Hff)) as [Hnodup Hdisj].
    destruct (Hff pre n [] eq_refl) as (j & _ & Hfree & _).
    split.
    + apply NoDup_ListNoDup, NoDup_app. split; [now apply NoDup_ListNoDup |]. split.
      * intros x Hx Hxn. apply list_elem_of_In in Hx, Hxn.
        destruct Hxn as [<- | []]. apply Hfree, in_or_app. now right.
      * apply NoDup_singleton.
    + intros x Hx. apply in_app_or in Hx as [Hx | [<- | []]]; [now apply Hdisj |].
      intros Hin. apply Hfree, in_or_app. now left.
Qed.

Lemma first_free_each_from_empty names :
  first_free_each [] names ->
  names = List.map vg_name_at (seq 0 (length names)).
Proof.
  induction names as [|n pre IH] using rev_ind; intros Hff; [reflexivity |].
  specialize (IH (first_free_each_prefix _ _ _ Hff)).
  destruct (Hff pre n [] eq_refl) as (j & -> & Hfree & Hbelow). simpl in Hfree, Hbelow.
  rewrite length_app, Nat.add_1_r, seq_S, map_app. simpl. rewrite <- IH. f_equal. f_equal.
  f_equal.
  destruct (Nat.lt_trichotomy j (length pre)) as [Hlt | [Heq | Hgt]]; [| done |].
  - exfalso. apply Hfree. rewrite IH. apply in_map, in_seq. lia.
  - exfalso. specialize (Hbelow (length pre) Hgt).
    rewrite IH in Hbelow. apply in_map_iff in Hbelow as (k & Hk & Hin).
    apply vg_name_at_inj in Hk. apply in_seq in Hin.
    rewrite List.length_map, List.length_seq in Hk. lia.
Qed.

Section VolumeGroupNaming.
Context `{Collaborators}.

Lemma create_default_volgroup_ok part lvm_options c :
  exists j vg c',
    create_default_volgroup part lvm_options c = (inr vg, c')
    /\ VolGroup.name vg = vg_name_at j
    /\ ~ In (vg_name_at j) (volgroup_names (Controller.model c))
    /\ (forall k, (k < j)%nat -> In (vg_name_at k) (volgroup_names (Controller.model c)))
    /\ volgroup_names (Controller.model c')
       = volgroup_names (Controller.model c) ++ [vg_name_at j].
Proof.
  destruct (default_vg_name_spec (Controller.model c)) as (j & Hname & Hfree & Hbelow).
  unfold create_default_volgroup, bind, gets. rewrite Hname.
  unfold self_create_volgroup, record_call, bind, modify, gets. simpl.
  apply one_volgroup_None in Hfree. rewrite Hfree. simpl.
  eexists j, _, _. split; [reflexivity |]. simpl.
  apply one_volgroup_None in Hfree.
  repeat split; [done | done |].
  unfold volgroup_names. simpl. now rewrite map_app.
Qed.

(** C6: guided LVM group creations with default naming, any number of
    them in a row and from any model: every creation succeeds (no name
    conflict), the name it takes is the first of ubuntu-vg, ubuntu-vg-1,
    ubuntu-vg-2, ... that no group of the model holds at that moment, the
    names chosen are pairwise distinct and distinct from the names held
    before, and from a model without groups they are exactly the first N
    names of the sequence. *)
Theorem vg_auto_naming_never_collides (parts : list Partition.t)
    (c : Controller.t) :
  exists names c',
    create_default_volgroups parts c = (inr names, c')
    /\ length names = length parts
    /\ volgroup_names (Controller.model c')
       = volgroup_names (Controller.model c) ++ names
    /\ first_free_each (volgroup_names (Controller.model c)) names
    /\ List.NoDup names
    /\ (forall n, In n names -> ~ In n (volgroup_names (Controller.model c)))
    /\ (volgroup_names (Controller.model c) = [] ->
        names = List.map vg_name_at (seq 0 (length parts))).
Proof.
  assert (Hmain : exists names c',
    create_default_volgroups parts c = (inr names, c')
    /\ length names = length parts
    /\ volgroup_names (Controller.model c')
       = volgroup_names (Controller.model c) ++ names
    /\ first_free_each (volgroup_names (Controller.model c)) names).
  { revert c. induction parts as [|part rest IH]; intros c.
    - exists [], c. simpl. unfold ret. rewrite app_nil_r.
      repeat split. intros pre n post Heq. now destruct pre.
    - destruct (create_default_volgroup_ok part None c)
        as (j & vg & c1 & Hrun & Hvg & Hfree & Hbelow & Hnames1).
      destruct (IH c1) as (names & c' & Hrest & Hlen & Hnames & Hff).
      exists (VolGroup.name vg :: names), c'.
      simpl. unfold bind at 1. rewrite Hrun. unfold bind at 1. rewrite Hrest.
      unfold ret. split; [reflexivity |]. split; [simpl; lia |]. split.
      + rewrite Hnames, Hnames1, Hvg, <- app_assoc. reflexivity.
      + intros pre n post Heq. destruct pre as [|n0 pre].
        * simpl in Heq. injection Heq as <- _. exists j.
          rewrite app_nil_r, Hvg. repeat split; done.
        * simpl in Heq. injection Heq as <- Heq.
          destruct (Hff pre n post Heq) as (k & Hk & Hkfree & Hkbelow).
          exists k. rewrite Hnames1, <- app_assoc, <- Hvg in Hkfree, Hkbelow.
          repeat split; done. }
  destruct Hmain as (names & c' & Hrun & Hlen & Hnames & Hff).
  exists names, c'. repeat split; try done.
  - now apply (first_free_each_NoDup _ _ Hff).
  - now apply (first_free_each_NoDup _ _ Hff).
  - intros Hempty. rewrite Hempty in Hff. rewrite <- Hlen.
    now apply first_free_each_from_empty.
Qed.

End VolumeGroupNaming.

(** ** The sort *)

Section SortFacts.
Context {A : Type} (key : A -> Z).

Abbreviation ascending := (StronglySorted (fun a b => key a <= key b)).
Abbreviation descending := (StronglySorted (fun a b => key a >= key b)).

Lemma insert_by_perm x l : Permutation (insert_by key x l) (x :: l).
Proof.
  induction l as [|y l IH]; simpl; [reflexivity |].
  destruct (key x <=? key y); [reflexivity |].
  rewrite IH. apply perm_swap.
Qed.

Lemma sort_by_perm l : Permutation (sort_by key l) l.
Proof.
  induction l as [|x l IH]; simpl; [reflexivity |].
  rewrite insert_by_perm. now constructor.
Qed.

Lemma insert_by_ascending x l : ascending l -> ascending (insert_by key x l).
Proof.
  induction l as [|y l IH]; simpl; intros Hs.
  - repeat constructor.
  - apply StronglySorted_inv in Hs as [Hs Hy].
    destruct (Z.leb_spec (key x) (key y)) as [Hle | Hgt].
    + constructor; [now constructor |]. constructor; [done |].
      eapply List.Forall_impl; [| exact Hy]. simpl. intros; lia.
    + constructor; [now apply IH |].
      eapply Permutation_Forall; [symmetry; apply insert_by_perm |].
      constructor; [lia | done].
Qed.

Lemma sort_by_ascending l : ascending (sort_by key l).
Proof.
  induction l as [|x l IH]; simpl; [constructor | now apply insert_by_ascending].
Qed.

(** Insertion keeps the order among elements of one key. *)
Lemma insert_by_stable k x l :
  List.filter (fun a => key a =? k) (insert_by key x l)
  = List.filter (fun a => key a =? k) (x :: l).
Proof.
  induction l as [|y l IH]; [reflexivity |].
  simpl insert_by. destruct (Z.leb_spec (key x) (key y)) as [Hle | Hgt]; [reflexivity |].
  simpl. simpl in IH. rewrite IH.
  destruct (Z.eqb_spec (key x) k), (Z.eqb_spec (key y) k); try reflexivity. lia.
Qed.

Lemma sort_by_stable k l :
  List.filter (fun a => key a =? k) (sort_by key l)
  = List.filter (fun a => key a =? k) l.
Proof.
  induction l as [|x l IH]; [reflexivity |].
  simpl sort_by. rewrite insert_by_stable. simpl. now rewrite IH.
Qed.

Lemma ascending_rev l : ascending l -> descending (rev l).
Proof.
  induction l as [|x l IH]; simpl; intros Hs; [constructor |].
  apply StronglySorted_inv in Hs as [Hs Hx]. specialize (IH Hs).
  revert IH. generalize (rev l) (Permutation_Forall (Permutation_rev l) Hx).
  intros r Hr. induction r as [|y r IHr]; simpl; intros Hd.
  - repeat constructor.
  - apply StronglySorted_inv in Hd as [Hd Hy]. apply Forall_inv in Hr as Hxy.
    apply Forall_inv_tail in Hr.
    constructor; [now apply IHr |].
    apply List.Forall_app. split; [done |]. constructor; [lia | constructor].
Qed.

Lemma list_sort_reverse_perm l : Permutation (list_sort_reverse key l) l.
Proof.
  unfold list_sort_reverse.
  rewrite <- Permutation_rev, sort_by_perm. symmetry. apply Permutation_rev.
Qed.

Lemma list_sort_reverse_descending l : descending (list_sort_reverse key l).
Proof. apply ascending_rev, sort_by_ascending. Qed.

(** The sort is stable also with [reverse=True]. *)
Lemma list_sort_reverse_stable k l :
  List.filter (fun a => key a =? k) (list_sort_reverse key l)
  = List.filter (fun a => key a =? k) l.
Proof.
  unfold list_sort_reverse.
  now rewrite filter_rev, sort_by_stable, filter_rev, rev_involutive.
Qed.
End SortFacts.

Lemma filter_sublist_of {A} (f : A -> bool) (l : list A) :
  sublist (List.filter f l) l.
Proof.
  induction l as [|x l IH]; simpl; [constructor |].
  destruct (f x); now constructor.
Qed.

(** ** Order within a list

    [[a; b]] is a sublist of [l] when [a] stands before [b] in [l]. *)

Lemma In_sublist {A} (l : list A) (b : A) : In b l -> [b] `sublist_of` l.
Proof.
  induction l as [|x l IH]; intros Hin; [destruct Hin |].
  destruct Hin as [-> | Hin].
  - apply sublist_skip, sublist_nil_l.
  - apply sublist_cons. now apply IH.
Qed.

Lemma sublist_In {A} (k l : list A) (b : A) : k `sublist_of` l -> In b k -> In b l.
Proof.
  intros Hsub Hin. apply list_elem_of_In. apply list_elem_of_In in Hin.
  exact (elem_of_sublist _ _ _ Hin Hsub).
Qed.

Lemma lookup_pair_sublist {A} (l : list A) : forall (i j : nat) (a b : A),
  (i < j)%nat -> l !! i = Some a -> l !! j = Some b -> [a; b] `sublist_of` l.
Proof.
  induction l as [|x l IH]; intros i j a b Hij Ha Hb; [discriminate |].
  destruct j as [|j]; [lia |]. simpl in Hb. destruct i as [|i]; simpl in Ha.
  - injection Ha as ->. apply sublist_skip, In_sublist.
    apply list_elem_of_In, list_elem_of_lookup. eauto.
  - apply sublist_cons. apply (IH i j); [lia | done | done].
Qed.

Lemma sublist_pair_lookup {A} (l : list A) (a b : A) :
  [a; b] `sublist_of` l ->
  exists i j : nat, (i < j)%nat /\ l !! i = Some a /\ l !! j = Some b.
Proof.
  induction l as [|x l IH]; intros Hsub.
  - apply sublist_nil_r in Hsub. discriminate.
  - apply sublist_cons_r in Hsub as [Hsub | (k & [= <- <-] & Hsub)].
    + destruct (IH Hsub) as (i & j & Hij & Ha & Hb).
      exists (S i), (S j). split; [lia | done].
    + assert (Hin : In b l) by (apply (sublist_In [b] l); [done | now left]).
      apply list_elem_of_In, list_elem_of_lookup in Hin as [j Hj].
      exists 0%nat, (S j). split; [lia | done].
Qed.

Lemma sublist_pair_filter {A} (f : A -> bool) (l : list A) (a b : A) :
  [a; b] `sublist_of` l -> f a = true -> f b = true ->
  [a; b] `sublist_of` List.filter f l.
Proof.
  intros Hsub Hfa Hfb. induction l as [|x l IH].
  - apply sublist_nil_r in Hsub. discriminate.
  - apply sublist_cons_r in Hsub as [Hsub | (k & [= <- <-] & Hsub)]; simpl.
    + destruct (f x); [apply sublist_cons |]; now apply IH.
    + rewrite Hfa. apply sublist_skip, In_sublist, filter_In.
      split; [| done]. apply (sublist_In [b] l); [done | now left].
Qed.

Lemma sublist_pair_app {A} (l1 l2 : list A) (a b : A) :
  [a; b] `sublist_of` l1 ++ l2 ->
  [a; b] `sublist_of` l1 \/ (In a l1 /\ In b l2) \/ [a; b] `sublist_of` l2.
Proof.
  intros Hsub. apply sublist_app_r in Hsub as (k1 & k2 & Hk & Hk1 & Hk2).
  destruct k1 as [|x [|y k1]]; simpl in Hk.
  - subst k2. now right; right.
  - injection Hk as <- <-. right. left.
    split; [apply (sublist_In [a] l1) | apply (sublist_In [b] l2)]; (done || now left).
  - injection Hk as <- <- Hnil. symmetry in Hnil. apply app_eq_nil in Hnil as [-> _].
    now left.
Qed.

Lemma sublist_pair_flat_map {A B} (f : A -> list B) (l : list A) (a b : B) :
  [a; b] `sublist_of` flat_map f l ->
  (exists x, In x l /\ [a; b] `sublist_of` f x)
  \/ (exists x y, [x; y] `sublist_of` l /\ In a (f x) /\ In b (f y)).
Proof.
  induction l as [|x l IH]; simpl; intros Hsub.
  - apply sublist_nil_r in Hsub. discriminate.
  - apply sublist_pair_app in Hsub as [Hsub | [[Ha Hb] | Hsub]].
    + left. exists x. split; [now left | done].
    + right. apply in_flat_map in Hb as (y & Hy & Hb). exists x, y.
      split; [| done]. now apply sublist_skip, In_sublist.
    + destruct (IH Hsub) as [(x' & Hx' & Hsub') | (x' & y' & Hxy & Ha & Hb)].
      * left. exists x'. split; [now right | done].
      * right. exists x', y'. split; [| done]. now apply sublist_cons.
Qed.

(** ** Scenario enumeration *)

Section Scenarios.
Context `{Collaborators}.

Lemma get_guided_disks_enumeration check_boot with_reformatting m :
  sublist (get_guided_disks check_boot with_reformatting m) (enumeration m).
Proof.
  unfold get_guided_disks, enumeration.
  apply sublist_app; apply filter_sublist_of.
Qed.

(** [_probe_response] never answers [DONE] itself, and writes nothing
    when the probe task is done. *)
Lemma _probe_response_not_done wait c status error_report c' :
  _probe_response wait c = (inr (Some (status, error_report)), c') ->
  status <> DONE.
Proof.
  unfold _probe_response, bind, gets, ret, modify.
  destruct (negb (Controller.probe_task_done c) && negb wait).
  - intros [= <- _ _]. discriminate.
  - destruct (negb (Controller.probe_task_done c)); simpl;
      match goal with
      | |- context [ ?e !! true ] => destruct (e !! true) as [[? ?]|]
      end; intros [= <- _ _] || intros [=]; discriminate.
Qed.

(** What each of the three loops appends for one device. *)
Lemma reformat_scenarios_of install_min m a :
  In a (reformat_scenarios install_min m) ->
  exists disk, In disk (enumeration m)
               /\ snd a = GuidedStorageTargetReformat (Device.id disk).
Proof.
  unfold reformat_scenarios. intros Hin. apply in_flat_map in Hin as (disk & Hdisk & Hin).
  destruct (Device.size disk >=? install_min); [| destruct Hin].
  destruct Hin as [<- | []]. exists disk. split; [| reflexivity].
  exact (sublist_In _ _ _ (get_guided_disks_enumeration _ _ _) Hdisk).
Qed.

Lemma use_gap_scenarios_of install_min m a :
  In a (use_gap_scenarios install_min m) ->
  exists disk gap, In disk (enumeration m)
                   /\ snd a = GuidedStorageTargetUseGap (Device.id disk) gap.
Proof.
  unfold use_gap_scenarios. intros Hin. apply in_flat_map in Hin as (disk & Hdisk & Hin).
  destruct (length (Device.partitions disk) <? 1)%nat; [destruct Hin |].
  destruct (largest_gap m [Device.id disk]) as [gap |]; [| destruct Hin].
  destruct (Gap.size gap >=? install_min); [| destruct Hin].
  destruct Hin as [<- | []]. exists disk, gap. split; [| reflexivity].
  exact (sublist_In _ _ _ (get_guided_disks_enumeration _ _ _) Hdisk).
Qed.

Lemma resize_scenarios_of install_min m a :
  In a (resize_scenarios install_min m) ->
  exists disk, In disk (enumeration m)
               /\ kind_rank (snd a) = 2%nat
               /\ target_disk_id (snd a) = Device.id disk.
Proof.
  unfold resize_scenarios. intros Hin. apply in_flat_map in Hin as (disk & Hdisk & Hin).
  apply in_flat_map in Hin as (partition & _ & Hin).
  destruct (calculate_guided_resize _ _ _ _) as [vals |]; [| destruct Hin].
  destruct (negb _); [destruct Hin |].
  destruct Hin as [<- | []]. exists disk. split; [| split; reflexivity].
  exact (sublist_In _ _ _ (get_guided_disks_enumeration _ _ _) Hdisk).
Qed.

Lemma enumerated_no_later_same m disk :
  In disk (enumeration m) -> enumerated_no_later m (Device.id disk) (Device.id disk).
Proof.
  intros Hin. apply list_elem_of_In, list_elem_of_lookup in Hin as [p Hp].
  exists p, p, disk, disk. repeat split; (lia || done).
Qed.

Lemma enumerated_no_later_pair m check_boot with_reformatting x y :
  [x; y] `sublist_of` get_guided_disks check_boot with_reformatting m ->
  enumerated_no_later m (Device.id x) (Device.id y).
Proof.
  intros Hsub.
  assert (Henum : [x; y] `sublist_of` enumeration m).
  { etransitivity; [exact Hsub | apply get_guided_disks_enumeration]. }
  apply sublist_pair_lookup in Henum as (p & q & Hpq & Hp & Hq).
  exists p, q, x, y. repeat split; (lia || done).
Qed.

(** Within one loop, scenarios stand in the order of the devices. *)
Lemma reformat_scenarios_order install_min m a b :
  [a; b] `sublist_of` reformat_scenarios install_min m ->
  enumerated_no_later m (target_disk_id (snd a)) (target_disk_id (snd b)).
Proof.
  unfold reformat_scenarios. intros Hsub.
  apply sublist_pair_flat_map in Hsub
    as [(x & _ & Hsub) | (x & y & Hxy & Ha & Hb)].
  - apply sublist_length in Hsub. simpl in Hsub.
    destruct (Device.size x >=? install_min); simpl in Hsub; lia.
  - destruct (Device.size x >=? install_min); [| destruct Ha].
    destruct (Device.size y >=? install_min); [| destruct Hb].
    destruct Ha as [<- | []]. destruct Hb as [<- | []]. simpl.
    exact (enumerated_no_later_pair _ _ _ _ _ Hxy).
Qed.

Lemma use_gap_scenarios_order install_min m a b :
  [a; b] `sublist_of` use_gap_scenarios install_min m ->
  enumerated_no_later m (target_disk_id (snd a)) (target_disk_id (snd b)).
Proof.
  unfold use_gap_scenarios. intros Hsub.
  apply sublist_pair_flat_map in Hsub
    as [(x & _ & Hsub) | (x & y & Hxy & Ha & Hb)].
  - apply sublist_length in Hsub. simpl in Hsub.
    destruct (length (Device.partitions x) <? 1)%nat; simpl in Hsub; [lia |].
    destruct (largest_gap m [Device.id x]) as [gap |]; simpl in Hsub; [| lia].
    destruct (Gap.size gap >=? install_min); simpl in Hsub; lia.
  - destruct (length (Device.partitions x) <? 1)%nat; [destruct Ha |].
    destruct (largest_gap m [Device.id x]) as [gx |]; [| destruct Ha].
    destruct (Gap.size gx >=? install_min); [| destruct Ha].
    destruct (length (Device.partitions y) <? 1)%nat; [destruct Hb |].
    destruct (largest_gap m [Device.id y]) as [gy |]; [| destruct Hb].
    destruct (Gap.size gy >=? install_min); [| destruct Hb].
    destruct Ha as [<- | []]. destruct Hb as [<- | []]. simpl.
    exact (enumerated_no_later_pair _ _ _ _ _ Hxy).
Qed.

Lemma resize_scenarios_order install_min m a b :
  [a; b] `sublist_of` resize_scenarios install_min m ->
  enumerated_no_later m (target_disk_id (snd a)) (target_disk_id (snd b)).
Proof.
  intros Hsub.
  assert (Hone : forall (disk : Device.t) x,
            In x (flat_map
                    (fun partition =>
                       match calculate_guided_resize
                               (Partition.estimated_min_size partition)
                               (Partition.size partition) install_min
                               (Device.part_align disk) with
                       | None => []
                       | Some vals =>
                           if negb (can_be_boot_device m (Device.id disk)
                                      (Some partition) false)
                           then []
                           else [(ResizeVals.install_max vals,
                                  from_recommendations (Device.id disk) partition vals)]
                       end)
                    (Device.partitions disk)) ->
            target_disk_id (snd x) = Device.id disk).
  { intros disk x Hin. apply in_flat_map in Hin as (partition & _ & Hin).
    destruct (calculate_guided_resize _ _ _ _) as [vals |]; [| destruct Hin].
    destruct (negb _); [destruct Hin |]. now destruct Hin as [<- | []]. }
  unfold resize_scenarios in Hsub.
  apply sublist_pair_flat_map in Hsub
    as [(x & Hx & Hsub) | (x & y & Hxy & Ha & Hb)].
  - rewrite (Hone x a), (Hone x b)
      by (apply (sublist_In _ _ _ Hsub); simpl; auto).
    apply enumerated_no_later_same.
    exact (sublist_In _ _ _ (get_guided_disks_enumeration _ _ _) Hx).
  - rewrite (Hone x a Ha), (Hone y b Hb).
    exact (enumerated_no_later_pair _ _ _ _ _ Hxy).
Qed.

(** Scenarios of one size: kind first, then the order of the devices. *)
Lemma sorted_scenarios_ties install_min m :
  ties_by_kind_then_disk m (sorted_scenarios install_min m).
Proof.
  intros i j a b Hij Ha Hb Hsize.
  assert (Hsub : [a; b] `sublist_of` candidate_scenarios install_min m).
  { pose proof (lookup_pair_sublist _ _ _ _ _ Hij Ha Hb) as Hsorted.
    apply (sublist_pair_filter (fun x => fst x =? fst a)) in Hsorted;
      [| apply Z.eqb_refl | rewrite Hsize; apply Z.eqb_refl].
    unfold sorted_scenarios in Hsorted.
    rewrite (list_sort_reverse_stable fst) in Hsorted.
    etransitivity; [exact Hsorted | apply filter_sublist_of]. }
  unfold candidate_scenarios in Hsub.
  apply sublist_pair_app in Hsub as [Hsub | [[Hina Hinb] | Hsub]].
  - right. split; [| now apply (reformat_scenarios_order install_min)].
    destruct (reformat_scenarios_of install_min m a) as (da & _ & ->);
      [apply (sublist_In _ _ _ Hsub); simpl; auto |].
    destruct (reformat_scenarios_of install_min m b) as (db & _ & ->);
      [apply (sublist_In _ _ _ Hsub); simpl; auto |].
    reflexivity.
  - left. destruct (reformat_scenarios_of _ _ _ Hina) as (da & _ & ->).
    apply in_app_or in Hinb as [Hinb | Hinb].
    + destruct (use_gap_scenarios_of _ _ _ Hinb) as (db & gap & _ & ->). simpl. lia.
    + destruct (resize_scenarios_of _ _ _ Hinb) as (db & _ & -> & _). simpl. lia.
  - apply sublist_pair_app in Hsub as [Hsub | [[Hina Hinb] | Hsub]].
    + right. split; [| now apply (use_gap_scenarios_order install_min)].
      destruct (use_gap_scenarios_of install_min m a) as (da & ga & _ & ->);
        [apply (sublist_In _ _ _ Hsub); simpl; auto |].
      destruct (use_gap_scenarios_of install_min m b) as (db & gb & _ & ->);
        [apply (sublist_In _ _ _ Hsub); simpl; auto |].
      reflexivity.
    + left. destruct (use_gap_scenarios_of _ _ _ Hina) as (da & ga & _ & ->).
      destruct (resize_scenarios_of _ _ _ Hinb) as (db & _ & -> & _). simpl. lia.
    + right. split; [| now apply (resize_scenarios_order install_min)].
      destruct (resize_scenarios_of install_min m a) as (da & _ & -> & _);
        [apply (sublist_In _ _ _ Hsub); simpl; auto |].
      destruct (resize_scenarios_of install_min m b) as (db & _ & -> & _);
        [apply (sublist_In _ _ _ Hsub); simpl; auto |].
      reflexivity.
Qed.

(** C2, as the controller has it: the scenarios of a finished
    [v2_guided_GET] are the candidates sorted by decreasing size, and of two
    scenarios of one size the one that comes first is of an earlier kind
    (Reformat, then UseGap, then Resize) or, within one kind, for a device
    that the enumeration (raids, then disks) has no later.  So the scenarios
    of one size stand in the order in which the three loops produced
    them. *)
Theorem v2_guided_GET_scenario_order (wait : bool) (c c' : Controller.t)
    (resp : GuidedStorageResponseV2.t) :
  v2_guided_GET wait c = (inr resp, c') ->
  GuidedStorageResponseV2.status resp = DONE ->
  exists install_min,
    let m := Controller.model c' in
    let scenarios := sorted_scenarios install_min m in
    calculate_suggested_install_min c' = (inr install_min, c')
    /\ GuidedStorageResponseV2.possible resp = List.map snd scenarios
    /\ Permutation scenarios (candidate_scenarios install_min m)
    /\ StronglySorted (fun a b => fst a >= fst b) scenarios
    /\ (forall s,
          of_size s scenarios
          = of_size s (reformat_scenarios install_min m)
            ++ of_size s (use_gap_scenarios install_min m)
            ++ of_size s (resize_scenarios install_min m))
    /\ (forall check_boot with_reformatting,
          sublist (get_guided_disks check_boot with_reformatting m)
                  (enumeration m))
    /\ ties_by_kind_then_disk m scenarios.
Proof.
  unfold v2_guided_GET. unfold bind at 1.
  destruct (_probe_response wait c) as [[e | [[status error_report] |]] c1] eqn:Hresp.
  - discriminate.
  - unfold ret. intros [= <- <-] Hdone. simpl in Hdone.
    now apply _probe_response_not_done in Hresp.
  - unfold bind at 1.
    destruct (calculate_suggested_install_min c1) as [[e | install_min] c2] eqn:Hmin;
      [discriminate |].
    assert (c2 = c1) as ->.
    { revert Hmin. unfold calculate_suggested_install_min, bind, gets, lift, ret.
      destruct (py_max _); now intros [= _ <-] || intros [= <-]. }
    unfold bind, gets, ret. intros [= <- <-] _. exists install_min. simpl.
    split; [done |]. split; [done |]. split; [apply list_sort_reverse_perm |].
    split; [apply (list_sort_reverse_descending fst) |]. split.
    + intros s. unfold of_size, sorted_scenarios, candidate_scenarios.
      now rewrite (list_sort_reverse_stable fst), !List.filter_app.
    + split; [intros; apply get_guided_disks_enumeration |].
      apply sorted_scenarios_ties.
Qed.

End Scenarios.

Lemma example_sorted_scenarios :
  sorted_scenarios (H := example_machine) (20 * sizes.GiB) example_model
  = [ (200 * sizes.GiB, GuidedStorageTargetReformat "sda");
      (50 * sizes.GiB, GuidedStorageTargetReformat "sdb");
      (50 * sizes.GiB, GuidedStorageTargetUseGap "sda" sda_gap) ].
Proof. vm_compute. reflexivity. Qed.

Lemma v2_guided_GET_scenario_order_witness :
  let resp :=
    GuidedStorageResponseV2.mk DONE None None
      [ GuidedStorageTargetReformat "sda"; GuidedStorageTargetReformat "sdb";
        GuidedStorageTargetUseGap "sda" sda_gap ] in
  v2_guided_GET (H := example_machine) false example_controller
  = (inr resp, example_controller)
  /\ GuidedStorageResponseV2.status resp = DONE
  /\ exists install_min,
       GuidedStorageResponseV2.possible resp
       = List.map snd (sorted_scenarios (H := example_machine) install_min
                         example_model).
Proof.
  assert (Hrun : v2_guided_GET (H := example_machine) false example_controller
                 = (inr (GuidedStorageResponseV2.mk DONE None None
                           [ GuidedStorageTargetReformat "sda";
                             GuidedStorageTargetReformat "sdb";
                             GuidedStorageTargetUseGap "sda" sda_gap ]),
                    example_controller)) by (vm_compute; reflexivity).
  split; [exact Hrun |]. split; [reflexivity |].
  destruct (v2_guided_GET_scenario_order (H := example_machine) _ _ _ _ Hrun eq_refl)
    as (install_min & _ & Hpossible & _).
  exists install_min. exact Hpossible.
Defined.

(** C2 as stated fails: on the example machine the 50 GiB scenarios come
    as Reformat of [sdb] before UseGap on [sda], although [sda] is
    enumerated before [sdb]. *)
Lemma scenario_ties_not_by_disk_first :
  exists resp,
    v2_guided_GET (H := example_machine) false example_controller
    = (inr resp, example_controller)
    /\ GuidedStorageResponseV2.status resp = DONE
    /\ GuidedStorageResponseV2.possible resp
       = List.map snd (sorted_scenarios (H := example_machine) (20 * sizes.GiB)
                         example_model)
    /\ ~ ties_by_disk_then_kind example_model
           (sorted_scenarios (H := example_machine) (20 * sizes.GiB) example_model).
Proof.
  eexists. split; [vm_compute; reflexivity |]. split; [reflexivity |].
  split; [vm_compute; reflexivity |].
  rewrite example_sorted_scenarios. intros Hties.
  specialize (Hties 1%nat 2%nat _ _ ltac:(lia) eq_refl eq_refl eq_refl).
  vm_compute in Hties. destruct Hties as [Hlt | [Heq _]]; [lia | discriminate].
Qed.

(** ** The probe *)

Section Probe.
Context `{Collaborators}.

(** What one attempt leaves alone, whatever its outcome. *)
Lemma probe_attempt_frame restricted c :
  let c' := snd (probe_attempt restricted c) in
  Controller._errors c' = Controller._errors c
  /\ Controller.calls c' = Controller.calls c ++ [CallProbeOnce restricted]
  /\ Controller._configured c' = Controller._configured c
  /\ Controller.log c' = Controller.log c
  /\ (Controller._configured c = true ->
      Controller.model c' = Controller.model c
      /\ Controller.apport_files c' = Controller.apport_files c
      /\ Controller.block_log c' = Controller.block_log c).
Proof.
  unfold probe_attempt, record_call, bind, modify, raise. simpl.
  destruct (wait_for _ _); simpl; [| tauto | tauto].
  unfold _probe_once, lift, bind. destruct (get_storage _) as [e | storage]; [simpl; tauto |].
  unfold _probe_once_resume, bind, gets, ret, modify, on_model. simpl.
  destruct (Controller._configured c) eqn:Hconf; simpl; [tauto |].
  destruct (load_probe_data _ _) as [r m']. simpl.
  repeat split; try done.
Qed.

Lemma probe_failed_frame restricted kind exc c :
  let c' := snd (probe_failed restricted kind exc c) in
  fst (probe_failed restricted kind exc c) = inr tt
  /\ Controller.calls c' = Controller.calls c
  /\ Controller._configured c' = Controller._configured c
  /\ Controller.model c' = Controller.model c
  /\ Controller.apport_files c' = Controller.apport_files c
  /\ Controller.block_log c' = Controller.block_log c
  /\ Controller._errors c'
     = match make_apport_report kind "block probing" with
       | Some report => <[restricted := (exc, report)]> (Controller._errors c)
       | None => Controller._errors c
       end.
Proof.
  unfold probe_failed, log_record, bind, modify, ret. simpl.
  destruct (make_apport_report kind _) as [report |]; simpl; repeat split.
Qed.

Lemma probe_failed_errors restricted kind exc c :
  Controller._errors c !! restricted = None ->
  let c' := snd (probe_failed restricted kind exc c) in
  Controller._errors c' !! restricted = kept kind exc
  /\ Controller._errors c' !! negb restricted
     = Controller._errors c !! negb restricted.
Proof.
  intros Hnone c'. subst c'.
  destruct (probe_failed_frame restricted kind exc c) as (_ & _ & _ & _ & _ & _ & ->).
  unfold kept. destruct (make_apport_report kind _) as [report |]; simpl.
  - rewrite lookup_insert_eq, lookup_insert_ne by (now destruct restricted). done.
  - done.
Qed.

(** One step of the loop, by the outcome of the attempt. *)
Lemma _probe_loop_step restricted kind rest c :
  _probe_loop ((restricted, kind) :: rest) c
  = match probe_attempt restricted c with
    | (inr _, c') => (inr tt, c')
    | (inl CancelledError, c') => (inl CancelledError, c')
    | (inl exc, c') => _probe_loop rest (snd (probe_failed restricted kind exc c'))
    end.
Proof.
  simpl. destruct (probe_attempt restricted c) as [[exc | []] c']; [| reflexivity].
  pose proof (probe_failed_frame restricted kind exc c') as (Hok & _).
  unfold bind.
  destruct exc; try reflexivity;
    destruct (probe_failed restricted kind _ c') as [r c'']; simpl in Hok;
    now rewrite Hok.
Qed.

(** Once configured, the loop leaves the model, the files noted for
    apport and the files written alone. *)
Lemma _probe_loop_configured classes : forall c,
  Controller._configured c = true ->
  let c' := snd (_probe_loop classes c) in
  Controller._configured c' = true
  /\ Controller.model c' = Controller.model c
  /\ Controller.apport_files c' = Controller.apport_files c
  /\ Controller.block_log c' = Controller.block_log c.
Proof.
  induction classes as [| [restricted kind] rest IH]; intros c Hconf; [done |].
  cbv zeta. rewrite _probe_loop_step.
  pose proof (probe_attempt_frame restricted c) as (_ & _ & Hc & _ & Hkeep).
  destruct (Hkeep Hconf) as (Hm & Ha & Hb). rewrite Hconf in Hc.
  destruct (probe_attempt restricted c) as [[exc | []] c1]; simpl in *; [| done].
  assert (Hrest :
    let c' := snd (_probe_loop rest (snd (probe_failed restricted kind exc c1))) in
    Controller._configured c' = true
    /\ Controller.model c' = Controller.model c
    /\ Controller.apport_files c' = Controller.apport_files c
    /\ Controller.block_log c' = Controller.block_log c).
  { pose proof (probe_failed_frame restricted kind exc c1)
      as (_ & _ & Hc2 & Hm2 & Ha2 & Hb2 & _).
    cbv zeta in *. rewrite Hc in Hc2.
    destruct (IH _ Hc2) as (? & ? & ? & ?).
    repeat split; congruence. }
  destruct exc; try exact Hrest. done.
Qed.

(** C1: a probe whose result arrives once the controller is configured
    is dropped.  From the moment [get_storage] has answered, [_probe_once]
    changes nothing at all; a whole [_probe_once] and a whole [_probe] run
    on a configured controller leave the model, the files noted for
    apport and the files written as they were; and [configured()] puts the
    controller in that state. *)
Theorem probe_result_discarded_when_configured (c : Controller.t) :
  Controller._configured c = true ->
  (forall fname key storage,
      _probe_once_resume fname key storage c = (inr tt, c))
  /\ (forall restricted, snd (_probe_once restricted c) = c)
  /\ (let c' := snd (_probe c) in
      Controller._configured c' = true
      /\ Controller.model c' = Controller.model c
      /\ Controller.apport_files c' = Controller.apport_files c
      /\ Controller.block_log c' = Controller.block_log c)
  /\ (forall c0, Controller._configured (snd (configured c0)) = true).
Proof.
  intros Hconf.
  assert (Hresume : forall fname key storage,
             _probe_once_resume fname key storage c = (inr tt, c)).
  { intros. unfold _probe_once_resume, bind, gets. now rewrite Hconf. }
  split; [exact Hresume |]. split; [| split].
  - intros restricted. unfold _probe_once, bind, lift.
    destruct (get_storage _); [reflexivity | now rewrite Hresume].
  - unfold _probe, bind, modify.
    apply (_probe_loop_configured _ (Controller.set__errors ∅ c)). exact Hconf.
  - intros c0. reflexivity.
Qed.

Lemma _probe_loop_failed restricted kind rest c exc :
  fst (probe_attempt restricted c) = inl exc -> exc <> CancelledError ->
  _probe_loop ((restricted, kind) :: rest) c
  = _probe_loop rest
      (snd (probe_failed restricted kind exc (snd (probe_attempt restricted c)))).
Proof.
  intros Hr Hexc. rewrite _probe_loop_step.
  destruct (probe_attempt restricted c) as [r c1]. simpl in *. subst r.
  now destruct exc.
Qed.

Lemma _probe_loop_succeeded restricted kind rest c v :
  fst (probe_attempt restricted c) = inr v ->
  _probe_loop ((restricted, kind) :: rest) c
  = (inr tt, snd (probe_attempt restricted c)).
Proof.
  intros Hr. rewrite _probe_loop_step.
  destruct (probe_attempt restricted c) as [r c1]. simpl in *. now subst r.
Qed.

Lemma _probe_loop_cancelled restricted kind rest c :
  fst (probe_attempt restricted c) = inl CancelledError ->
  _probe_loop ((restricted, kind) :: rest) c
  = (inl CancelledError, snd (probe_attempt restricted c)).
Proof.
  intros Hr. rewrite _probe_loop_step.
  destruct (probe_attempt restricted c) as [r c1]. simpl in *. now subst r.
Qed.

(** C5, as the controller has it: a run tries the unrestricted class
    first and stops there if it succeeds.  If that attempt fails (by a
    timeout or any exception but a cancellation), the exception is kept
    under the key [False] exactly when an apport report could be made for
    it, and the restricted class is tried next; if that fails too, its
    exception is kept under [True] on the same condition, and the run
    still ends normally. *)
Theorem probe_classes_in_turn (c : Controller.t) :
  let c0 := Controller.set__errors ∅ c in
  let r1 := fst (probe_attempt false c0) in
  let c1 := snd (probe_attempt false c0) in
  Controller.calls c1 = Controller.calls c ++ [CallProbeOnce false]
  /\ (forall v, r1 = inr v ->
        _probe c = (inr tt, c1) /\ Controller._errors c1 = ∅)
  /\ (forall exc1, r1 = inl exc1 -> exc1 <> CancelledError ->
        let c2 := snd (probe_failed false BLOCK_PROBE_FAIL exc1 c1) in
        let r2 := fst (probe_attempt true c2) in
        let c3 := snd (probe_attempt true c2) in
        Controller.calls c3
        = Controller.calls c ++ [CallProbeOnce false; CallProbeOnce true]
        /\ Controller._errors c3 !! false = kept BLOCK_PROBE_FAIL exc1
        /\ (forall v, r2 = inr v ->
              _probe c = (inr tt, c3) /\ Controller._errors c3 !! true = None)
        /\ (forall exc2, r2 = inl exc2 -> exc2 <> CancelledError ->
              let c4 := snd (probe_failed true DISK_PROBE_FAIL exc2 c3) in
              _probe c = (inr tt, c4)
              /\ Controller.calls c4 = Controller.calls c3
              /\ Controller._errors c4 !! false = kept BLOCK_PROBE_FAIL exc1
              /\ Controller._errors c4 !! true = kept DISK_PROBE_FAIL exc2)).
Proof.
  intros c0 r1 c1.
  pose proof (probe_attempt_frame false c0) as (He1 & Hc1 & _).
  fold c1 in He1, Hc1. simpl in He1, Hc1.
  assert (Hrun : _probe c
                 = _probe_loop [(false, BLOCK_PROBE_FAIL); (true, DISK_PROBE_FAIL)] c0)
    by reflexivity.
  split; [exact Hc1 |]. split.
  - intros v Hr1. rewrite Hrun, (_probe_loop_succeeded _ _ _ _ v Hr1). done.
  - intros exc1 Hr1 Hexc1 c2 r2 c3.
    rewrite Hrun, (_probe_loop_failed _ _ _ _ exc1 Hr1 Hexc1). fold c1 c2.
    assert (Hnone1 : Controller._errors c1 !! false = None)
      by (rewrite He1; apply lookup_empty).
    destruct (probe_failed_errors false BLOCK_PROBE_FAIL exc1 c1 Hnone1)
      as (Hkept1 & Hother1). fold c2 in Hkept1, Hother1. simpl in Hother1.
    pose proof (probe_failed_frame false BLOCK_PROBE_FAIL exc1 c1)
      as (_ & Hcalls2 & _). fold c2 in Hcalls2.
    pose proof (probe_attempt_frame true c2) as (He3 & Hc3 & _).
    fold c3 in He3, Hc3.
    assert (Hnone3 : Controller._errors c3 !! true = None).
    { rewrite He3, Hother1, He1. apply lookup_empty. }
    split; [rewrite Hc3, Hcalls2, Hc1, <- app_assoc; reflexivity |].
    split; [now rewrite He3 |]. split.
    + intros v Hr2. now rewrite (_probe_loop_succeeded _ _ _ _ v Hr2).
    + intros exc2 Hr2 Hexc2 c4.
      rewrite (_probe_loop_failed _ _ _ _ exc2 Hr2 Hexc2). fold c3 c4.
      destruct (probe_failed_errors true DISK_PROBE_FAIL exc2 c3 Hnone3)
        as (Hkept2 & Hother2). fold c4 in Hkept2, Hother2. simpl in Hother2.
      pose proof (probe_failed_frame true DISK_PROBE_FAIL exc2 c3)
        as (Hok4 & Hcalls4 & _). fold c4 in Hcalls4.
      split.
      * simpl. unfold ret. unfold c4.
        destruct (probe_failed true DISK_PROBE_FAIL exc2 c3) as [r c']. reflexivity.
      * split; [exact Hcalls4 |]. split; [| exact Hkept2].
        now rewrite Hother2, He3.
Qed.

(** C7: a cancellation during the attempt of a class, in any round of
    the loop, is raised again at once: the loop ends with
    [CancelledError], the error dictionary is what it was before the
    attempt (nothing is kept under the class's key, nothing is logged),
    and the only call made is the start of that attempt, so no further
    class is tried.  For a whole run: cancelled in the unrestricted class,
    the dictionary is empty; cancelled in the restricted class, it has no
    entry under [True]. *)
Theorem cancellation_propagates :
  (forall restricted kind rest c,
      fst (probe_attempt restricted c) = inl CancelledError ->
      let c1 := snd (probe_attempt restricted c) in
      _probe_loop ((restricted, kind) :: rest) c = (inl CancelledError, c1)
      /\ Controller._errors c1 = Controller._errors c
      /\ Controller.log c1 = Controller.log c
      /\ Controller.calls c1 = Controller.calls c ++ [CallProbeOnce restricted])
  /\ (forall c,
        let c0 := Controller.set__errors ∅ c in
        let c1 := snd (probe_attempt false c0) in
        fst (probe_attempt false c0) = inl CancelledError ->
        _probe c = (inl CancelledError, c1)
        /\ Controller._errors c1 = ∅
        /\ Controller.calls c1 = Controller.calls c ++ [CallProbeOnce false])
  /\ (forall c exc1,
        let c0 := Controller.set__errors ∅ c in
        let c1 := snd (probe_attempt false c0) in
        let c2 := snd (probe_failed false BLOCK_PROBE_FAIL exc1 c1) in
        let c3 := snd (probe_attempt true c2) in
        fst (probe_attempt false c0) = inl exc1 -> exc1 <> CancelledError ->
        fst (probe_attempt true c2) = inl CancelledError ->
        _probe c = (inl CancelledError, c3)
        /\ Controller._errors c3 !! true = None
        /\ Controller.calls c3
           = Controller.calls c ++ [CallProbeOnce false; CallProbeOnce true]).
Proof.
  assert (Hloop : forall restricted kind rest c,
      fst (probe_attempt restricted c) = inl CancelledError ->
      let c1 := snd (probe_attempt restricted c) in
      _probe_loop ((restricted, kind) :: rest) c = (inl CancelledError, c1)
      /\ Controller._errors c1 = Controller._errors c
      /\ Controller.log c1 = Controller.log c
      /\ Controller.calls c1 = Controller.calls c ++ [CallProbeOnce restricted]).
  { intros restricted kind rest c Hr c1.
    pose proof (probe_attempt_frame restricted c) as (He & Hc & _ & Hl & _).
    split; [now apply _probe_loop_cancelled |]. done. }
  split; [exact Hloop |]. split.
  - intros c c0 c1 Hr.
    destruct (Hloop false BLOCK_PROBE_FAIL [(true, DISK_PROBE_FAIL)] c0 Hr)
      as (Hrun & He & _ & Hc).
    split; [exact Hrun |]. split; [exact He | exact Hc].
  - intros c exc1 c0 c1 c2 c3 Hr1 Hexc1 Hr2.
    assert (Hcalls : Controller.calls c3
                     = Controller.calls c ++ [CallProbeOnce false; CallProbeOnce true]).
    { pose proof (probe_attempt_frame false c0) as (_ & Hc1 & _).
      pose proof (probe_failed_frame false BLOCK_PROBE_FAIL exc1 c1)
        as (_ & Hc2 & _).
      pose proof (probe_attempt_frame true c2) as (_ & Hc3 & _).
      fold c1 in Hc1. fold c2 in Hc2. fold c3 in Hc3. simpl in Hc1.
      rewrite Hc3, Hc2, Hc1, <- app_assoc. reflexivity. }
    destruct (Hloop true DISK_PROBE_FAIL [] c2 Hr2) as (Hrun & He & _ & _).
    split.
    + change (_probe c) with
        (_probe_loop [(false, BLOCK_PROBE_FAIL); (true, DISK_PROBE_FAIL)] c0).
      now rewrite (_probe_loop_failed _ _ _ _ exc1 Hr1 Hexc1).
    + split; [| exact Hcalls].
      fold c3 in He. rewrite He.
      pose proof (probe_attempt_frame false c0) as (He1 & _).
      assert (Hnone1 : Controller._errors c1 !! false = None).
      { unfold c1. rewrite He1. apply lookup_empty. }
      destruct (probe_failed_errors false BLOCK_PROBE_FAIL exc1 c1 Hnone1)
        as (_ & Hother). simpl in Hother. fold c2 in Hother.
      rewrite Hother. unfold c1. rewrite He1. apply lookup_empty.
Qed.

End Probe.

Lemma probe_result_discarded_when_configured_witness :
  Controller._configured configured_controller = true
  /\ _probe_once_resume (H := example_machine) "probe-data.json" "ProbeData"
       {[ "blockdev" := "{}" ]} configured_controller
     = (inr tt, configured_controller).
Proof.
  split; [reflexivity |].
  apply (probe_result_discarded_when_configured (H := example_machine)
           configured_controller eq_refl).
Defined.

Lemma probe_classes_in_turn_witness :
  fst (probe_attempt (H := reporting_machine) false
         (Controller.set__errors ∅ example_controller))
  = inl (Exception_ "probert failed")
  /\ Exception_ "probert failed" <> CancelledError
  /\ Controller._errors (snd (_probe (H := reporting_machine) example_controller))
       !! false
     = Some (Exception_ "probert failed", ErrorReport.mk BLOCK_PROBE_FAIL "crash").
Proof.
  split; [reflexivity |]. split; [discriminate |].
  destruct (probe_classes_in_turn (H := reporting_machine) example_controller)
    as (_ & _ & Hfailed).
  destruct (Hfailed (Exception_ "probert failed") eq_refl ltac:(discriminate))
    as (_ & _ & _ & Hboth).
  destruct (Hboth (Exception_ "probert failed") eq_refl ltac:(discriminate))
    as (Hrun & _ & Hkept & _).
  rewrite Hrun. exact Hkept.
Defined.

(** C5 as stated fails: on the example machine no report can be made, the
    unrestricted attempt fails, the run goes on and ends normally, and the
    exception is not kept under the class's key. *)
Lemma probe_failure_without_report_not_kept :
  fst (probe_attempt (H := example_machine) false
         (Controller.set__errors ∅ example_controller))
  = inl (Exception_ "probert failed")
  /\ fst (_probe (H := example_machine) example_controller) = inr tt
  /\ Controller._errors (snd (_probe (H := example_machine) example_controller))
       !! false = None.
Proof. vm_compute. repeat split. Qed.

Lemma cancellation_propagates_witness :
  fst (probe_attempt (H := cancelling_machine) false
         (Controller.set__errors ∅ example_controller))
  = inl (Exception_ "probert failed")
  /\ fst (_probe (H := cancelling_machine) example_controller) = inl CancelledError
  /\ Controller._errors (snd (_probe (H := cancelling_machine) example_controller))
       !! true = None.
Proof.
  split; [reflexivity |].
  destruct (cancellation_propagates (H := cancelling_machine)) as (_ & _ & Hsecond).
  destruct (Hsecond example_controller (Exception_ "probert failed")
              eq_refl ltac:(discriminate) eq_refl) as (Hrun & Hnone & _).
  rewrite Hrun. split; [reflexivity | exact Hnone].
Defined.

(** ** Status queries *)

Section Status.
Context `{Collaborators}.

(** What [_done_response] answers, by the probe data of the model. *)
Lemma _done_response_outcome (c : Controller.t) :
  _done_response c
  = (match Model._probe_data (Controller.model c) with
     | None => inl (TypeError "'NoneType' object is not subscriptable")
     | Some _probe_data =>
         match _probe_data !! "blockdev" with
         | None => inl (KeyError "blockdev")
         | Some _ =>
             inr (StorageResponse.mk DONE
                    ((fun x => ErrorReport.ref (snd x))
                       <$> (Controller._errors c !! false))
                    (Some (render_done (Controller.model c))))
         end
     end, c).
Proof.
  unfold _done_response, full_probe_error, bind, gets, ret, raise.
  destruct (Controller._errors c !! false) as [[exc report] |];
    (destruct (Model._probe_data (Controller.model c)) as [data |]; [| reflexivity];
     now destruct (data !! "blockdev")).
Qed.

(** A status query once the probe task is done: FAILED with the report of
    the restricted class if one is kept, and else what [_done_response]
    answers. *)
Lemma GET_after_probe (wait : bool) (c : Controller.t) :
  Controller.probe_task_done c = true ->
  GET wait c
  = match Controller._errors c !! true with
    | Some (_, report) =>
        (inr (StorageResponse.mk FAILED (Some (ErrorReport.ref report)) None), c)
    | None => _done_response c
    end.
Proof.
  intros Hdone.
  unfold GET, _probe_response, bind, gets, ret, modify. rewrite Hdone. simpl.
  now destruct (Controller._errors c !! true) as [[exc report] |].
Qed.

(** A status query once the probe task is done leaves the controller as it
    was.  For a failure kept for the restricted class it answers FAILED with
    the reference of that report.  Otherwise, with probe data in the model
    that has a [blockdev] entry, it answers DONE, with the reference of the
    report kept for the unrestricted class if there is one; without probe
    data it raises [TypeError], and [KeyError] for data without that entry.
    So an answer is FAILED exactly for a failure kept for the restricted
    class, and never PROBING. *)
Theorem storage_status_by_probe_data (wait : bool) (c : Controller.t) :
  Controller.probe_task_done c = true ->
  snd (GET wait c) = c
  /\ (forall exc report,
        Controller._errors c !! true = Some (exc, report) ->
        fst (GET wait c)
        = inr (StorageResponse.mk FAILED (Some (ErrorReport.ref report)) None))
  /\ (Controller._errors c !! true = None ->
        fst (GET wait c)
        = match Model._probe_data (Controller.model c) with
          | None => inl (TypeError "'NoneType' object is not subscriptable")
          | Some _probe_data =>
              match _probe_data !! "blockdev" with
              | None => inl (KeyError "blockdev")
              | Some _ =>
                  inr (StorageResponse.mk DONE
                         ((fun x => ErrorReport.ref (snd x))
                            <$> (Controller._errors c !! false))
                         (Some (render_done (Controller.model c))))
              end
          end)
  /\ (forall resp,
        fst (GET wait c) = inr resp ->
        (StorageResponse.status resp = FAILED
         <-> is_Some (Controller._errors c !! true))
        /\ StorageResponse.status resp <> PROBING).
Proof.
  intros Hdone. rewrite (GET_after_probe wait c Hdone), _done_response_outcome.
  destruct (Controller._errors c !! true) as [[exc report] |] eqn:Hrestricted.
  - split; [reflexivity |]. split; [now intros ? ? [= <- <-] |].
    split; [discriminate |].
    intros resp [= <-]. simpl. split; [split; eauto | discriminate].
  - split; [reflexivity |]. split; [discriminate |]. split; [reflexivity |].
    intros resp. simpl.
    destruct (Model._probe_data (Controller.model c)) as [data |]; [| discriminate].
    destruct (data !! "blockdev"); [| discriminate].
    intros [= <-]. simpl.
    split; [split; [discriminate | intros [? ?]; discriminate] | discriminate].
Qed.

End Status.

Lemma storage_status_by_probe_data_witness :
  Controller.probe_task_done probed_after_unrestricted_failure = true
  /\ GET (H := example_machine) false probed_after_unrestricted_failure
     = (inr (StorageResponse.mk DONE
               (Some (ErrorReport.mk_ref BLOCK_PROBE_FAIL "crash")) (Some "{}")),
        probed_after_unrestricted_failure).
Proof.
  split; [reflexivity |].
  destruct (storage_status_by_probe_data (H := example_machine) false
              probed_after_unrestricted_failure eq_refl)
    as (Hsame & _ & Hdone & _).
  specialize (Hdone eq_refl).
  destruct (GET (H := example_machine) false probed_after_unrestricted_failure)
    as [r c']. simpl in Hsame, Hdone. now subst.
Defined.

(** C10 fails on the code: a status query after a finished run need not
    report a status.  On the example machine the prober fails for both
    classes.  Where no report can be made, the run keeps no failure and loads
    no probe data, and the query raises [TypeError] where it should answer
    DONE.  Where a report can be made for the unrestricted class only, the
    failure of that class is kept alone, and the query raises [TypeError]
    where it should answer DONE with the reference of the report. *)
Lemma storage_status_without_probe_data :
  let c0 := snd (_probe (H := example_machine) example_controller) in
  let c := snd (_probe (H := half_reporting_machine) example_controller) in
  (fst (_probe (H := example_machine) example_controller) = inr tt
   /\ Controller.probe_task_done c0 = true
   /\ Controller._errors c0 = ∅
   /\ Model._probe_data (Controller.model c0) = None
   /\ GET (H := example_machine) false c0
      = (inl (TypeError "'NoneType' object is not subscriptable"), c0)
   /\ GET (H := example_machine) true c0
      = (inl (TypeError "'NoneType' object is not subscriptable"), c0))
  /\ fst (_probe (H := half_reporting_machine) example_controller) = inr tt
  /\ Controller.probe_task_done c = true
  /\ Controller._errors c !! false
     = Some (Exception_ "probert failed", ErrorReport.mk BLOCK_PROBE_FAIL "crash")
  /\ Controller._errors c !! true = None
  /\ Model._probe_data (Controller.model c) = None
  /\ GET (H := half_reporting_machine) false c
     = (inl (TypeError "'NoneType' object is not subscriptable"), c)
  /\ GET (H := half_reporting_machine) true c
     = (inl (TypeError "'NoneType' object is not subscriptable"), c).
Proof.
  assert (Hrun0 : _probe (H := example_machine) example_controller
                  = (inr tt,
                     Controller.mk false ∅ true example_model
                       (AiData.mk None None None None) [] []
                       [(ERROR, "block probing failed restricted=False");
                        (ERROR, "block probing failed restricted=True")]
                       true [CallProbeOnce false; CallProbeOnce true]))
    by (vm_compute; reflexivity).
  assert (Hrun : _probe (H := half_reporting_machine) example_controller
                 = (inr tt,
                    Controller.mk false
                      {[ false := (Exception_ "probert failed",
                                   ErrorReport.mk BLOCK_PROBE_FAIL "crash") ]}
                      true example_model (AiData.mk None None None None) [] []
                      [(ERROR, "block probing failed restricted=False");
                       (ERROR, "block probing failed restricted=True")]
                      true [CallProbeOnce false; CallProbeOnce true]))
    by (vm_compute; reflexivity).
  rewrite Hrun0, Hrun. cbv zeta. simpl fst. simpl snd. split.
  - split; [reflexivity |]. split; [reflexivity |]. split; [reflexivity |].
    split; [reflexivity |].
    split; rewrite GET_after_probe by reflexivity;
      rewrite _done_response_outcome; reflexivity.
  - split; [reflexivity |]. split; [reflexivity |]. split; [reflexivity |].
    split; [reflexivity |]. split; [reflexivity |].
    split; rewrite GET_after_probe by reflexivity;
      rewrite _done_response_outcome; reflexivity.
Qed.

(** ** Resizing a partition *)

Lemma one_id_replace_device (d' : Device.t) (m : Model.t) :
  is_Some (Model._one_id (Device.id d') m) ->
  Model._one_id (Device.id d')
    (Model.set_devices (Model.replace_device d' (Model.devices m)) m) = Some d'.
Proof.
  unfold Model._one_id. simpl.
  induction (Model.devices m) as [|d ds IH]; simpl; intros [x Hx]; [discriminate |].
  case_bool_decide as Hid; simpl.
  - rewrite bool_decide_eq_true_2 by done. reflexivity.
  - rewrite bool_decide_eq_false_2 by done. apply IH. eauto.
Qed.

Lemma replace_device_twice (d1 d2 : Device.t) (ds : list Device.t) :
  Device.id d1 = Device.id d2 ->
  Model.replace_device d2 (Model.replace_device d1 ds) = Model.replace_device d2 ds.
Proof.
  intros Hid. induction ds as [|d ds IH]; simpl; [reflexivity |].
  rewrite Hid. case_bool_decide as Hd; simpl.
  - rewrite Hid, bool_decide_eq_true_2 by done. reflexivity.
  - rewrite bool_decide_eq_false_2 by done. now rewrite IH.
Qed.

Lemma align_up_multiple (x a : Z) : 0 < a -> (a | x) -> sizes.align_up x a = x.
Proof.
  intros Ha [k ->]. unfold sizes.align_up.
  replace (k * a + a - 1) with ((a - 1) + k * a) by lia.
  rewrite Z.div_add by lia. rewrite (Z.div_small (a - 1) a) by lia. lia.
Qed.

Lemma align_up_divide (x a : Z) : (a | sizes.align_up x a).
Proof. unfold sizes.align_up. apply Z.divide_factor_r. Qed.

(** Writing size and flag to a partition moves no partition. *)
Lemma next_partition_start_write (d : Device.t) (number offset : Z)
    (f : Partition.t -> Partition.t) :
  (forall q, Partition.offset (f q) = Partition.offset q) ->
  next_partition_start
    (Device.set_partitions (write_partition number f (Device.partitions d)) d) offset
  = next_partition_start d offset.
Proof.
  intros Hf. unfold next_partition_start. simpl.
  induction (Device.partitions d) as [|q ps IH]; simpl; [reflexivity |].
  destruct (Partition.number q =? number); simpl.
  - now rewrite Hf.
  - now rewrite IH.
Qed.

(** The partition written to is the one found at its offset, if no other
    partition before it starts there. *)
Lemma find_offset_write_partition (number : Z) (f : Partition.t -> Partition.t)
    (ps : list Partition.t) (p : Partition.t) :
  (forall q, Partition.offset (f q) = Partition.offset q) ->
  (forall q, In q ps -> Partition.offset q = Partition.offset p ->
             Partition.number q = number) ->
  List.find (fun q => Partition.number q =? number) ps = Some p ->
  List.find (fun q => Partition.offset q =? Partition.offset p)
            (write_partition number f ps)
  = Some (f p).
Proof.
  intros Hf. induction ps as [|q ps IH]; simpl; intros Hfirst Hfind; [discriminate |].
  destruct (Z.eqb_spec (Partition.number q) number) as [Hq | Hq]; simpl.
  - injection Hfind as <-. now rewrite Hf, Z.eqb_refl.
  - destruct (Z.eqb_spec (Partition.offset q) (Partition.offset p)) as [Hoff | Hoff].
    + exfalso. apply Hq, Hfirst; [now left | done].
    + apply IH; [| done]. intros q' Hin. apply Hfirst. now right.
Qed.

(** What [gaps_after] answers lies on the disk asked for, behind a
    partition that starts at the offset, and ends where the next partition
    starts or the disk ends. *)
Lemma gaps_after_found (m : Model.t) (d : Device.t) (offset : Z) (gap : Gap.t) :
  Model._one_id (Device.id d) m = Some d ->
  gaps_after m (Device.id d) offset = Some gap ->
  Gap.device gap = Device.id d
  /\ 0 <= Gap.size gap
  /\ Gap.offset gap + Gap.size gap = next_partition_start d offset
  /\ exists q,
       List.find (fun q => Partition.offset q =? offset) (Device.partitions d) = Some q
       /\ Gap.offset gap
          = sizes.align_up (Partition.offset q + Partition.size q) (Device.part_align d).
Proof.
  unfold gaps_after. intros ->.
  destruct (List.find _ (Device.partitions d)) as [q |]; [| discriminate].
  destruct (Z.leb_spec
              (sizes.align_up (Partition.offset q + Partition.size q) (Device.part_align d))
              (next_partition_start d offset)); [| discriminate].
  intros [= <-]. simpl. split; [reflexivity |]. split; [lia |]. split; [lia |].
  exists q. split; reflexivity.
Qed.

Section Resize.
Context `{Collaborators}.

Lemma write_partition_twice number f g ps :
  (forall p, Partition.number (g p) = Partition.number p) ->
  write_partition number f (write_partition number g ps)
  = write_partition number (fun p => f (g p)) ps.
Proof.
  intros Hg. induction ps as [|p ps IH]; simpl; [reflexivity |].
  destruct (Partition.number p =? number) eqn:Hp; simpl.
  - now rewrite Hg, Hp.
  - now rewrite Hp, IH.
Qed.

Lemma find_write_partition number f ps p :
  (forall q, Partition.number (f q) = Partition.number q) ->
  List.find (fun q => Partition.number q =? number) ps = Some p ->
  List.find (fun q => Partition.number q =? number) (write_partition number f ps)
  = Some (f p).
Proof.
  intros Hf. induction ps as [|q ps IH]; simpl; [discriminate |].
  destruct (Partition.number q =? number) eqn:Hq; simpl.
  - intros [= <-]. now rewrite Hf, Hq.
  - rewrite Hq. exact IH.
Qed.

(** C3: the Resize target applied to a disk of the model.  Without a
    partition of the target's number: [ValueError] (NotFound), nothing
    written.  Otherwise the requested size is aligned up to the disk's
    partition alignment; larger than the partition's size:
    [Exception] (InvalidGeometry), nothing written.  Otherwise the
    partition of that number gets the aligned size and [resize = True],
    nothing else in the model changes, and the answer is the gap that
    [gaps.after] finds behind the partition's offset on the disk as
    written, or [Exception] (InvariantViolation) if it finds none.  That
    gap lies on the disk, is not negative in size and ends where the next
    partition starts or the disk ends; and where the partition is the one
    found at its offset, the gap begins at the partition's new end, rounded
    up to the alignment (the new end itself when the partition starts on a
    multiple of the alignment), and there is none exactly when the next
    partition starts before that. *)
Theorem start_guided_resize_outcomes (partition_number target_new_size : Z)
    (disk : Device.t) (c : Controller.t) :
  Model._one_id (Device.id disk) (Controller.model c) = Some disk ->
  let new_size := sizes.align_up target_new_size (Device.part_align disk) in
  let run := start_guided_resize partition_number target_new_size disk c in
  match List.find (fun p => Partition.number p =? partition_number)
                  (Device.partitions disk) with
  | None =>
      run = (inl (ValueError ("Partition " +:+ pretty partition_number +:+ " on "
                              +:+ Device.id disk +:+ " not found")), c)
  | Some p =>
      if new_size >? Partition.size p then
        run = (inl (Exception_ ("Aligned requested size " +:+ pretty new_size
                                +:+ " too large")), c)
      else
        let p' := Partition.set_resize true (Partition.set_size new_size p) in
        let disk' :=
          Device.set_partitions
            (write_partition partition_number
               (fun q => Partition.set_resize true (Partition.set_size new_size q))
               (Device.partitions disk)) disk in
        let m' :=
          Model.set_devices
            (Model.replace_device disk' (Model.devices (Controller.model c)))
            (Controller.model c) in
        run = (match gaps_after m' (Device.id disk) (Partition.offset p) with
               | Some gap => inr (Some gap)
               | None =>
                   inl (Exception_ ("gap not found after resize, pgs="
                                    +:+ parts_and_gaps_repr m' (Device.id disk)))
               end,
               Controller.set_model m' c)
        /\ Model._one_id (Device.id disk) m' = Some disk'
        /\ get_partition disk' partition_number = inr p'
        /\ Partition.size p' = new_size /\ Partition.resize p' = true
        /\ Partition.number p' = Partition.number p
        /\ Partition.offset p' = Partition.offset p
        /\ (forall gap,
              gaps_after m' (Device.id disk) (Partition.offset p) = Some gap ->
              Gap.device gap = Device.id disk
              /\ 0 <= Gap.size gap
              /\ Gap.offset gap + Gap.size gap
                 = next_partition_start disk (Partition.offset p))
        /\ ((forall q, In q (Device.partitions disk) ->
                       Partition.offset q = Partition.offset p ->
                       Partition.number q = partition_number) ->
            let new_end :=
              sizes.align_up (Partition.offset p + new_size) (Device.part_align disk) in
            (forall gap,
                gaps_after m' (Device.id disk) (Partition.offset p) = Some gap ->
                Gap.offset gap = new_end)
            /\ (gaps_after m' (Device.id disk) (Partition.offset p) = None
                <-> next_partition_start disk (Partition.offset p) < new_end)
            /\ (0 < Device.part_align disk ->
                (Device.part_align disk | Partition.offset p) ->
                new_end = Partition.offset p + new_size))
  end.
Proof.
  intros Hdisk new_size run. subst run.
  unfold start_guided_resize, bind, lift, get_partition.
  destruct (List.find _ (Device.partitions disk)) as [p |] eqn:Hfind; [| reflexivity].
  fold new_size.
  destruct (new_size >? Partition.size p); [reflexivity |].
  cbv zeta.
  set (f := fun q => Partition.set_resize true (Partition.set_size new_size q)).
  set (disk' := Device.set_partitions
                  (write_partition partition_number f (Device.partitions disk)) disk).
  set (m := Controller.model c).
  assert (Hfound : Model._one_id (Device.id disk)
                     (Model.set_devices (Model.replace_device disk' (Model.devices m)) m)
                   = Some disk').
  { apply (one_id_replace_device disk' m). unfold m. simpl. rewrite Hdisk. eauto. }
  split; [| split; [exact Hfound | split]].
  - unfold set_partition_attr, modify_model, modify, gets, raise, ret. simpl.
    rewrite Hdisk.
    set (d1 := Device.set_partitions
                 (write_partition partition_number (Partition.set_size new_size)
                    (Device.partitions disk)) disk).
    assert (H1 : Model._one_id (Device.id disk)
                   (Model.set_devices
                      (Model.replace_device d1 (Model.devices (Controller.model c)))
                      (Controller.model c)) = Some d1).
    { apply (one_id_replace_device d1). simpl. rewrite Hdisk. eauto. }
    rewrite H1. simpl.
    rewrite replace_device_twice by reflexivity.
    rewrite write_partition_twice by reflexivity.
    fold f. fold disk'. fold m.
    destruct (gaps_after _ _ _); reflexivity.
  - simpl. erewrite find_write_partition; [reflexivity | reflexivity | exact Hfind].
  - assert (Hnext : next_partition_start disk' (Partition.offset p)
                    = next_partition_start disk (Partition.offset p))
      by (apply next_partition_start_write; reflexivity).
    assert (Hid : Device.id disk' = Device.id disk) by reflexivity.
    split; [reflexivity |]. split; [reflexivity |]. split; [reflexivity |].
    split; [reflexivity |]. split.
    + intros gap Hgap. rewrite <- Hid in Hfound, Hgap.
      destruct (gaps_after_found _ _ _ _ Hfound Hgap) as (Hdev & Hsize & Hend & _).
      rewrite Hnext in Hend. now rewrite Hdev, Hid.
    + intros Hfirst.
      set (new_end := sizes.align_up (Partition.offset p + new_size)
                        (Device.part_align disk)).
      assert (Hat : List.find (fun q => Partition.offset q =? Partition.offset p)
                      (Device.partitions disk') = Some (f p)).
      { apply find_offset_write_partition; [reflexivity | exact Hfirst | exact Hfind]. }
      assert (Hafter : gaps_after
                         (Model.set_devices (Model.replace_device disk' (Model.devices m)) m)
                         (Device.id disk) (Partition.offset p)
                       = if new_end <=? next_partition_start disk (Partition.offset p)
                         then Some (Gap.mk (Device.id disk) new_end
                                      (next_partition_start disk (Partition.offset p)
                                       - new_end))
                         else None).
      { unfold gaps_after. rewrite Hfound, Hat, Hnext. reflexivity. }
      rewrite Hafter.
      destruct (Z.leb_spec new_end (next_partition_start disk (Partition.offset p))).
      * split; [now intros gap [= <-] |]. split; [split; [discriminate | lia] |].
        intros Hpos Hdiv. apply align_up_multiple; [done |].
        apply Z.divide_add_r; [done | apply align_up_divide].
      * split; [discriminate |]. split; [split; [done | reflexivity] |].
        intros Hpos Hdiv. apply align_up_multiple; [done |].
        apply Z.divide_add_r; [done | apply align_up_divide].
Qed.

End Resize.

Section Frames.
Context `{Collaborators}.
Variable P : Call -> Prop.

Lemma extends_ret {A} (a : A) : extends_calls P (ret a).
Proof. intros c. exists []. now rewrite app_nil_r. Qed.

Lemma extends_raise {A} e : extends_calls P (raise (A := A) e).
Proof. intros c. exists []. now rewrite app_nil_r. Qed.

Lemma extends_lift {A} (r : PyExc + A) : extends_calls P (lift r).
Proof. intros c. exists []. now rewrite app_nil_r. Qed.

Lemma extends_gets {A} (f : Controller.t -> A) : extends_calls P (gets f).
Proof. intros c. exists []. now rewrite app_nil_r. Qed.

Lemma extends_modify_model f : extends_calls P (modify_model f).
Proof. intros c. exists []. now rewrite app_nil_r. Qed.

Lemma extends_log_record lvl msg : extends_calls P (log_record lvl msg).
Proof. intros c. exists []. now rewrite app_nil_r. Qed.

Lemma extends_on_model {A} (f : Model.t -> (PyExc + A) * Model.t) :
  extends_calls P (on_model f).
Proof.
  intros c. exists []. unfold on_model.
  destruct (f (Controller.model c)). now rewrite app_nil_r.
Qed.

Lemma extends_record_call x : P x -> extends_calls P (record_call x).
Proof. intros Hx c. exists [x]. split; [reflexivity | now constructor]. Qed.

Lemma extends_bind {A B} (m : M A) (k : A -> M B) :
  extends_calls P m -> (forall a, extends_calls P (k a)) ->
  extends_calls P (bind m k).
Proof.
  intros Hm Hk c. unfold bind. destruct (Hm c) as (l1 & Hl1 & HP1).
  destruct (m c) as [[e | a] c1]; simpl in *; [now exists l1 |].
  destruct (Hk a c1) as (l2 & Hl2 & HP2).
  exists (l1 ++ l2). rewrite Hl2, Hl1, <- app_assoc.
  split; [reflexivity | now apply List.Forall_app].
Qed.

Lemma blind_ret {A} (a : A) : ai_blind (ret a).
Proof. intros ? ?. reflexivity. Qed.

Lemma blind_raise {A} e : ai_blind (raise (A := A) e).
Proof. intros ? ?. reflexivity. Qed.

Lemma blind_lift {A} (r : PyExc + A) : ai_blind (lift r).
Proof. intros ? ?. reflexivity. Qed.

Lemma blind_gets_model : ai_blind (gets Controller.model).
Proof. intros ? ?. reflexivity. Qed.

Lemma blind_modify_model f : ai_blind (modify_model f).
Proof. intros ? ?. reflexivity. Qed.

Lemma blind_log_record lvl msg : ai_blind (log_record lvl msg).
Proof. intros ? ?. reflexivity. Qed.

Lemma blind_record_call x : ai_blind (record_call x).
Proof. intros ? ?. reflexivity. Qed.

Lemma blind_on_model {A} (f : Model.t -> (PyExc + A) * Model.t) :
  ai_blind (on_model f).
Proof.
  intros a c. unfold on_model. simpl. now destruct (f (Controller.model c)).
Qed.

Lemma blind_bind {A B} (m : M A) (k : A -> M B) :
  ai_blind m -> (forall a, ai_blind (k a)) -> ai_blind (bind m k).
Proof.
  intros Hm Hk a c. unfold bind. rewrite Hm.
  destruct (m c) as [[e | x] c1]; simpl; [reflexivity | apply Hk].
Qed.
End Frames.

(** Walk a method along its binds and case distinctions. *)
Ltac walk_method known side :=
  repeat first
    [ known
    | apply extends_bind; [| intros ?]
    | apply blind_bind; [| intros ?]
    | apply extends_ret | apply extends_raise | apply extends_lift
    | apply extends_gets | apply extends_modify_model | apply extends_log_record
    | apply extends_on_model
    | apply extends_record_call; side
    | apply blind_ret | apply blind_raise | apply blind_lift
    | apply blind_gets_model | apply blind_modify_model | apply blind_log_record
    | apply blind_record_call | apply blind_on_model
    | match goal with
      | |- extends_calls _ (match ?x with _ => _ end) => destruct x
      | |- ai_blind (match ?x with _ => _ end) => destruct x
      end ].

Section GuidedFrames.
Context `{Collaborators}.

Lemma guided_lvm_no_boot gap lvm_options :
  extends_calls not_add_boot (guided_lvm gap lvm_options).
Proof.
  unfold guided_lvm, self_create_partition, create_default_volgroup,
    self_create_volgroup, self_create_logical_volume.
  walk_method fail ltac:(intros ?; discriminate).
Qed.

Lemma guided_direct_no_boot gap :
  extends_calls not_add_boot (guided_direct gap).
Proof.
  unfold guided_direct, self_create_partition.
  walk_method fail ltac:(intros ?; discriminate).
Qed.

Lemma start_guided_no_boot target disk :
  extends_calls not_add_boot (start_guided target disk).
Proof.
  unfold start_guided, start_guided_reformat, start_guided_use_gap,
    start_guided_resize, self_reformat, set_partition_attr.
  walk_method fail ltac:(intros ?; discriminate).
Qed.




End GuidedFrames.

(** ** The guided install *)

Section GuidedBoot.
Context `{Collaborators}.

Lemma guided_payload_no_boot choice gap :
  extends_calls not_add_boot (guided_payload choice gap).
Proof.
  unfold guided_payload.
  walk_method ltac:(first [apply guided_lvm_no_boot | apply guided_direct_no_boot])
              ltac:(intros ?; discriminate).
Qed.

(** [guided] up to the answer of [start_guided], for a disk the model has. *)
Lemma guided_target_raised choice c disk e c1 :
  let target := GuidedChoiceV2.target choice in
  let c0 := Controller.set_model
              (Model.set_guided_configuration (Some choice) (Controller.model c)) c in
  Model._one_id (target_disk_id target) (Controller.model c0) = Some disk ->
  start_guided target disk c0 = (inl e, c1) ->
  guided choice c = (inl e, c1).
Proof.
  intros target c0 Hdisk Hstart.
  unfold guided. unfold bind at 1. unfold modify_model, modify. fold c0.
  unfold bind at 1. unfold gets at 1. fold target. rewrite Hdisk.
  unfold bind at 1. rewrite Hstart. reflexivity.
Qed.

Lemma guided_after_start choice c disk gap c1 :
  let target := GuidedChoiceV2.target choice in
  let c0 := Controller.set_model
              (Model.set_guided_configuration (Some choice) (Controller.model c)) c in
  Model._one_id (target_disk_id target) (Controller.model c0) = Some disk ->
  start_guided target disk c0 = (inr gap, c1) ->
  guided choice c
  = bind (if bool_decide (TOGGLE_BOOT ∈ supported (Controller.model c1) (Device.id disk))
          then self_add_boot_disk (Device.id disk) else ret tt)
         (fun _ =>
            match gap with
            | None => raise (AttributeError "'NoneType' object has no attribute 'within'")
            | Some gap => guided_payload choice gap
            end) c1.
Proof.
  intros target c0 Hdisk Hstart.
  unfold guided. unfold bind at 1. unfold modify_model, modify. fold c0.
  unfold bind at 1. unfold gets at 1. fold target. rewrite Hdisk.
  unfold bind at 1. rewrite Hstart. reflexivity.
Qed.

(** The same for a disk the model does not have. *)
Lemma guided_missing_disk choice c :
  let target := GuidedChoiceV2.target choice in
  let c0 := Controller.set_model
              (Model.set_guided_configuration (Some choice) (Controller.model c)) c in
  Model._one_id (target_disk_id target) (Controller.model c0) = None ->
  guided choice c
  = match start_guided_none target c0 with
    | (inl e, c1) => (inl e, c1)
    | (inr gap, c1) =>
        match supported_none (Controller.model c1) with
        | inl e => (inl e, c1)
        | inr actions =>
            bind (if bool_decide (TOGGLE_BOOT ∈ actions)
                  then self_add_boot_disk_none else ret tt)
                 (fun _ =>
                    match gap with
                    | None =>
                        raise (AttributeError "'NoneType' object has no attribute 'within'")
                    | Some gap => guided_payload choice gap
                    end) c1
        end
    end.
Proof.
  intros target c0 Hdisk.
  unfold guided. unfold bind at 1. unfold modify_model, modify. fold c0.
  unfold bind at 1. unfold gets at 1. fold target. rewrite Hdisk.
  unfold bind at 1. destruct (start_guided_none target c0) as [[e | gap] c1];
    [reflexivity |].
  unfold bind at 1. unfold gets at 1. unfold bind at 1. unfold lift at 1.
  destruct (supported_none (Controller.model c1)); reflexivity.
Qed.

(** What is left of [guided] once the boot disk is dealt with. *)
Lemma guided_after_boot choice (gap : option Gap.t)
    (boot : (PyExc + unit) * Controller.t) :
  match boot with
  | (inl e, c2) => (inl e, c2)
  | (inr _, c2) =>
      match gap with
      | None => raise (AttributeError "'NoneType' object has no attribute 'within'")
      | Some gap => guided_payload choice gap
      end c2
  end
  = match fst boot with
    | inl e => (inl e, snd boot)
    | inr _ =>
        match gap with
        | None =>
            (inl (AttributeError "'NoneType' object has no attribute 'within'"), snd boot)
        | Some gap =>
            match gap_within (Controller.model (snd boot)) gap with
            | None =>
                (inl (Exception_ "failed to locate gap after adding boot"), snd boot)
            | Some gap' =>
                (if GuidedChoiceV2.use_lvm choice then
                   guided_lvm gap' (build_lvm_options (GuidedChoiceV2.password choice))
                 else guided_direct gap') (snd boot)
            end
        end
    end.
Proof.
  destruct boot as [[e | u] c2]; simpl; [reflexivity |].
  destruct gap as [gap |]; [| reflexivity].
  unfold guided_payload, bind, gets, raise.
  now destruct (gap_within (Controller.model c2) gap).
Qed.

(** C9, as the controller has it, for every guided choice.  [guided] notes
    the choice in the model, looks up the disk and applies the target.  If
    that raises, [guided] raises the same and [add_boot_disk] is not called.
    Otherwise, whether or not the target answered with a gap, [guided] calls
    [add_boot_disk] on the resolved disk exactly when [TOGGLE_BOOT] is among
    the actions the disk supports at that moment (it does not ask whether the
    disk already is a boot device), at most that one time; only then does it
    fail for a target without a gap, and else it looks up what is left of the
    target's gap ([within()], on the model after the addition), fails if
    nothing is, and lays out the payload in that gap.  For a disk the model
    does not have the same steps are taken with [None] in place of the
    disk. *)
Theorem guided_boot_then_gap (choice : GuidedChoiceV2.t) (c : Controller.t) :
  let target := GuidedChoiceV2.target choice in
  let c0 := Controller.set_model
              (Model.set_guided_configuration (Some choice) (Controller.model c)) c in
  let finish (gap : option Gap.t) (boot : (PyExc + unit) * Controller.t) :=
    match fst boot with
    | inl e => (inl e, snd boot)
    | inr _ =>
        match gap with
        | None =>
            (inl (AttributeError "'NoneType' object has no attribute 'within'"), snd boot)
        | Some gap =>
            match gap_within (Controller.model (snd boot)) gap with
            | None =>
                (inl (Exception_ "failed to locate gap after adding boot"), snd boot)
            | Some gap' =>
                (if GuidedChoiceV2.use_lvm choice then
                   guided_lvm gap' (build_lvm_options (GuidedChoiceV2.password choice))
                 else guided_direct gap') (snd boot)
            end
        end
    end in
  match Model._one_id (target_disk_id target) (Controller.model c0) with
  | Some disk =>
      match start_guided target disk c0 with
      | (inl e, c1) =>
          guided choice c = (inl e, c1)
          /\ exists l,
               Controller.calls c1 = Controller.calls c ++ l
               /\ List.Forall not_add_boot l
      | (inr gap, c1) =>
          let toggle :=
            bool_decide (TOGGLE_BOOT ∈ supported (Controller.model c1) (Device.id disk)) in
          let boot :=
            if toggle then self_add_boot_disk (Device.id disk) c1 else (inr tt, c1) in
          Controller.calls (snd boot)
          = Controller.calls c1
            ++ (if toggle then [CallAddBootDisk (Device.id disk)] else [])
          /\ (toggle = false -> boot = (inr tt, c1))
          /\ guided choice c = finish gap boot
          /\ exists l,
               Controller.calls (snd (guided choice c)) = Controller.calls c ++ l
               /\ (In (CallAddBootDisk (Device.id disk)) l <-> toggle = true)
               /\ forall d, In (CallAddBootDisk d) l -> d = Device.id disk
      end
  | None =>
      match start_guided_none target c0 with
      | (inl e, c1) => guided choice c = (inl e, c1)
      | (inr gap, c1) =>
          match supported_none (Controller.model c1) with
          | inl e => guided choice c = (inl e, c1)
          | inr actions =>
              let toggle := bool_decide (TOGGLE_BOOT ∈ actions) in
              let boot := if toggle then self_add_boot_disk_none c1 else (inr tt, c1) in
              Controller.calls (snd boot)
              = Controller.calls c1 ++ (if toggle then [CallAddBootDiskNone] else [])
              /\ (toggle = false -> boot = (inr tt, c1))
              /\ guided choice c = finish gap boot
          end
      end
  end.
Proof.
  intros target c0 finish.
  assert (Hnone : forall l d, List.Forall not_add_boot l -> ~ In (CallAddBootDisk d) l).
  { intros l d HP Hin. rewrite List.Forall_forall in HP. now apply (HP _ Hin d). }
  destruct (Model._one_id (target_disk_id target) (Controller.model c0))
    as [disk |] eqn:Hdisk.
  - destruct (start_guided_no_boot target disk c0) as (l0 & Hl0 & HP0).
    destruct (start_guided target disk c0) as [[e | gap] c1] eqn:Hstart; simpl in Hl0.
    + split; [exact (guided_target_raised choice c disk e c1 Hdisk Hstart) |].
      exists l0. split; [exact Hl0 | exact HP0].
    + intros toggle boot.
      pose proof (guided_after_start choice c disk gap c1 Hdisk Hstart) as Hrun.
      fold toggle in Hrun.
      assert (Hboot : (if toggle then self_add_boot_disk (Device.id disk) else ret tt) c1
                      = boot) by (unfold boot; now destruct toggle).
      assert (Hcalls2 : Controller.calls (snd boot)
                        = Controller.calls c1
                          ++ (if toggle then [CallAddBootDisk (Device.id disk)] else [])).
      { unfold boot. destruct toggle; [| now rewrite app_nil_r].
        unfold self_add_boot_disk, record_call, bind, modify, on_model. simpl.
        now destruct (add_boot_disk _ _). }
      split; [exact Hcalls2 |].
      split; [intros Hoff; unfold boot; now rewrite Hoff |].
      unfold bind in Hrun. rewrite Hboot, guided_after_boot in Hrun. fold (finish gap boot) in Hrun.
      split; [exact Hrun |].
      assert (Hrest : exists l2,
                 Controller.calls (snd (finish gap boot))
                 = Controller.calls (snd boot) ++ l2
                 /\ List.Forall not_add_boot l2).
      { unfold finish. rewrite <- guided_after_boot. clearbody boot.
        destruct boot as [[e | u] cb]; simpl;
          [exists []; split; [now rewrite app_nil_r | constructor] |].
        destruct gap as [gap |];
          [| exists []; split; [now rewrite app_nil_r | constructor]].
        exact (guided_payload_no_boot choice gap cb). }
      destruct Hrest as (l2 & Hl2 & HP2).
      exists (l0 ++ (if toggle then [CallAddBootDisk (Device.id disk)] else []) ++ l2).
      rewrite Hrun, Hl2, Hcalls2, Hl0. split; [now rewrite <- !app_assoc |].
      split.
      * rewrite !in_app_iff. split.
        -- intros [Hin | [Hin | Hin]];
             [now apply Hnone in Hin | now destruct toggle | now apply Hnone in Hin].
        -- intros ->. right. left. now left.
      * intros d. rewrite !in_app_iff.
        intros [Hin | [Hin | Hin]];
          [now apply Hnone in Hin | | now apply Hnone in Hin].
        destruct toggle; [| destruct Hin]. destruct Hin as [[= <-] | []]. reflexivity.
  - pose proof (guided_missing_disk choice c Hdisk) as Hrun. fold target c0 in Hrun.
    destruct (start_guided_none target c0) as [[e | gap] c1]; [exact Hrun |].
    destruct (supported_none (Controller.model c1)) as [e | actions]; [exact Hrun |].
    intros toggle boot. fold toggle in Hrun.
    assert (Hboot : (if toggle then self_add_boot_disk_none else ret tt) c1 = boot)
      by (unfold boot; now destruct toggle).
    split.
    { unfold boot. destruct toggle; [| now rewrite app_nil_r].
      unfold self_add_boot_disk_none, record_call, bind, modify, on_model. simpl.
      now destruct (add_boot_disk_none _). }
    split; [intros Hoff; unfold boot; now rewrite Hoff |].
    unfold bind in Hrun. rewrite Hboot, guided_after_boot in Hrun. exact Hrun.
Qed.

End GuidedBoot.

(** ** Unattended installs *)

Section Autoinstall.
Context `{Collaborators}.







End Autoinstall.

(** ** The theorems on the example machine *)

Lemma start_guided_resize_outcomes_witness :
  Model._one_id (Device.id sda) (Controller.model example_controller) = Some sda
  /\ fst (start_guided_resize (H := example_machine) 1 (50 * sizes.GiB + 1) sda
            example_controller)
     = inr (Some (Gap.mk "sda" (2 * MiB + 50 * sizes.GiB)
                    (200 * sizes.GiB - (2 * MiB + 50 * sizes.GiB)))).
Proof.
  split; [reflexivity |].
  destruct (start_guided_resize_outcomes (H := example_machine) 1
              (50 * sizes.GiB + 1) sda example_controller eq_refl) as (Hrun & _).
  rewrite Hrun. reflexivity.
Defined.



Lemma guided_boot_then_gap_witness :
  Model._one_id "sda" (Controller.model use_gap_chosen) = Some sda
  /\ start_guided (H := example_machine) (GuidedChoiceV2.target use_gap_choice) sda
       use_gap_chosen
     = (inr (Some sda_gap), use_gap_chosen)
  /\ exists l,
       Controller.calls (snd (guided (H := example_machine) use_gap_choice
                                example_controller))
       = Controller.calls example_controller ++ l
       /\ In (CallAddBootDisk "sda") l.
Proof.
  split; [reflexivity |]. split; [reflexivity |].
  pose proof (guided_boot_then_gap (H := example_machine) use_gap_choice
                example_controller) as Hthm.
  cbv zeta in Hthm.
  change (Model._one_id (target_disk_id (GuidedChoiceV2.target use_gap_choice))
            (Controller.model
               (Controller.set_model
                  (Model.set_guided_configuration (Some use_gap_choice)
                     (Controller.model example_controller)) example_controller)))
    with (Some sda) in Hthm.
  change (start_guided (H := example_machine) (GuidedChoiceV2.target use_gap_choice) sda
            (Controller.set_model
               (Model.set_guided_configuration (Some use_gap_choice)
                  (Controller.model example_controller)) example_controller))
    with (@inr PyExc _ (Some sda_gap), use_gap_chosen) in Hthm.
  cbv iota beta in Hthm.
  destruct Hthm as (_ & _ & _ & l & Hl & Hin & _).
  exists l. split; [exact Hl |]. apply Hin. reflexivity.
Defined.

(** C9 as stated fails: on the example machine [sda] supports toggling
    boot and already is a boot device, and [guided] calls [add_boot_disk]
    on it all the same. *)
Lemma guided_adds_boot_to_a_boot_device :
  let after := guided (H := example_machine) use_gap_choice example_controller in
  start_guided (H := example_machine) (GuidedChoiceV2.target use_gap_choice) sda
    use_gap_chosen
  = (inr (Some sda_gap), use_gap_chosen)
  /\ fst after = inr tt
  /\ In (CallAddBootDisk "sda") (Controller.calls (snd after))
  /\ is_boot_device (Collaborators := example_machine)
       (Controller.model use_gap_chosen) "sda" = true
  /\ ~ (In (CallAddBootDisk "sda") (Controller.calls (snd after))
        <-> (TOGGLE_BOOT ∈ supported (Collaborators := example_machine)
                            (Controller.model use_gap_chosen) "sda"
             /\ is_boot_device (Collaborators := example_machine)
                  (Controller.model use_gap_chosen) "sda" = false)).
Proof.
  assert (Hin : In (CallAddBootDisk "sda")
                  (Controller.calls
                     (snd (guided (H := example_machine) use_gap_choice
                             example_controller)))).
  { vm_compute. left. reflexivity. }
  cbv zeta. split; [reflexivity |]. split; [reflexivity |]. split; [exact Hin |].
  split; [reflexivity |].
  intros Hiff. apply Hiff in Hin as [_ Hboot]. discriminate Hboot.
Qed.

(** * Further properties of the controller *)

(** ** The size of the logical volume *)

Lemma lv_size_tier_facts (v1 v2 : Z) :
  sizes.lv_size_tier v1 <= v1
  /\ sizes.lv_size_tier v1 <= 100 * sizes.GiB
  /\ (0 <= v1 -> 0 <= sizes.lv_size_tier v1)
  /\ (v1 <= v2 -> sizes.lv_size_tier v1 <= sizes.lv_size_tier v2).
Proof.
  unfold sizes.lv_size_tier, sizes.GiB. rewrite GiB_value.
  repeat match goal with
         | |- context [ ?a <? ?b ] => destruct (Z.ltb_spec a b)
         end;
    repeat split; intros; Z.to_euclidean_division_equations; lia.
Qed.

Lemma align_down_mono (x y a : Z) :
  0 < a -> x <= y -> sizes.align_down x a <= sizes.align_down y a.
Proof.
  intros Ha Hxy. unfold sizes.align_down.
  apply Z.mul_le_mono_nonneg_r; [lia |]. now apply Z.div_le_mono.
Qed.

(** The logical volume [guided_lvm] creates never exceeds its volume group
    nor 100 GiB, is not negative for a group that is not, and a larger group
    never gets a smaller volume. *)
Theorem lv_size_within_group (chunk v1 v2 : Z) :
  0 < chunk ->
  sizes.lv_size_policy chunk v1 <= v1
  /\ sizes.lv_size_policy chunk v1 <= 100 * sizes.GiB
  /\ (0 <= v1 -> 0 <= sizes.lv_size_policy chunk v1)
  /\ (v1 <= v2 -> sizes.lv_size_policy chunk v1 <= sizes.lv_size_policy chunk v2).
Proof.
  intros Hchunk. unfold sizes.lv_size_policy.
  destruct (lv_size_tier_facts v1 v2) as (Hle & Hcap & Hpos & Hmono).
  pose proof (align_down_bounds (sizes.lv_size_tier v1) chunk Hchunk) as (_ & _ & Hdown).
  repeat split.
  - lia.
  - lia.
  - intros Hv. specialize (Hpos Hv).
    pose proof (align_down_mono 0 (sizes.lv_size_tier v1) chunk Hchunk Hpos) as H0.
    unfold sizes.align_down at 1 in H0. rewrite Z.div_0_l in H0 by lia. lia.
  - intros Hv. apply align_down_mono; [done | now apply Hmono].
Qed.

Lemma lv_size_within_group_witness :
  0 < 4194304
  /\ sizes.lv_size_policy 4194304 (15 * sizes.GiB)
     <= sizes.lv_size_policy 4194304 (30 * sizes.GiB).
Proof.
  split; [reflexivity |].
  apply (lv_size_within_group 4194304 (15 * sizes.GiB) (30 * sizes.GiB) eq_refl).
  discriminate.
Defined.

(** ** Which devices and scenarios are offered *)

Lemma filter_all {A} (f : A -> bool) (l : list A) :
  (forall x, In x l -> f x = true) -> List.filter f l = l.
Proof.
  induction l as [|x l IH]; simpl; intros Hall; [reflexivity |].
  rewrite (Hall x) by now left. f_equal. apply IH. intros y Hy. apply Hall. now right.
Qed.

Lemma or_iff_both (P P' Q Q' : Prop) : (P <-> P') -> (Q <-> Q') -> (P \/ Q <-> P' \/ Q').
Proof. tauto. Qed.

Lemma existsb_never {A} (l : list A) : existsb (fun _ => false) l = false.
Proof. induction l; simpl; auto. Qed.

Section Offers.
Context `{Collaborators}.

(** [get_guided_disks]: without the boot check it answers every raid and
    every disk, raids first.  With the check, every device it answers is
    enumerated and can be a boot device; a raid that can be a boot device is
    answered; a disk is answered exactly when it can be a boot device and is
    not part of a Raid one of whose subvolumes can be one. *)
Theorem get_guided_disks_choice (m : Model.t) (with_reformatting : bool) :
  get_guided_disks false with_reformatting m = enumeration m
  /\ (forall d, In d (get_guided_disks true with_reformatting m) ->
        In d (enumeration m)
        /\ can_be_boot_device m (Device.id d) None with_reformatting = true)
  /\ (forall d, In d (Model._all type_raid m) ->
        can_be_boot_device m (Device.id d) None with_reformatting = true ->
        In d (get_guided_disks true with_reformatting m))
  /\ (forall d, In d (Model._all type_disk m) ->
        (In d (get_guided_disks true with_reformatting m)
         <-> can_be_boot_device m (Device.id d) None with_reformatting = true
             /\ forall vs, Device.constructed_device d = Some (CDRaid vs) ->
                  forall v, In v vs ->
                    can_be_boot_device m v None with_reformatting = false)).
Proof.
  assert (Htype : forall d, In d (Model._all type_disk m) ->
                    ~ In d (Model._all type_raid m)).
  { intros d Hd Hr. unfold Model._all in *.
    apply filter_In in Hd as [_ Hd]. apply filter_In in Hr as [_ Hr].
    destruct (Device.type d); discriminate. }
  split; [| split; [| split]].
  - unfold get_guided_disks, enumeration. f_equal; apply filter_all; intros d _; simpl.
    + reflexivity.
    + destruct (Device.constructed_device d) as [[vs |] |]; try reflexivity.
      now rewrite existsb_never.
  - intros d Hd. unfold get_guided_disks in Hd. simpl in Hd.
    apply in_app_or in Hd as [Hd | Hd]; apply filter_In in Hd as [Hin Hok].
    + split; [apply in_or_app; now left |].
      now destruct (can_be_boot_device m (Device.id d) None with_reformatting).
    + split; [apply in_or_app; now right |].
      now destruct (can_be_boot_device m (Device.id d) None with_reformatting).
  - intros d Hd Hboot. unfold get_guided_disks. apply in_or_app. left.
    apply filter_In. split; [done |]. simpl. now rewrite Hboot.
  - intros d Hd. unfold get_guided_disks. simpl. rewrite in_app_iff, !filter_In.
    split.
    + intros [[Hr _] | [_ Hok]]; [now apply Htype in Hd |].
      destruct (can_be_boot_device m (Device.id d) None with_reformatting);
        [| discriminate].
      split; [reflexivity |]. intros vs Hcd v Hv. rewrite Hcd in Hok. simpl in Hok.
      apply negb_true_iff in Hok.
      destruct (can_be_boot_device m v None with_reformatting) eqn:Hvb; [| reflexivity].
      assert (Hex : existsb (fun v => can_be_boot_device m v None with_reformatting) vs
                    = true) by (apply existsb_exists; eauto).
      congruence.
    + intros [Hboot Hsub]. right. split; [done |]. rewrite Hboot. simpl.
      destruct (Device.constructed_device d) as [[vs |] |]; try reflexivity.
      apply negb_true_iff.
      destruct (existsb _ vs) eqn:Hex; [| reflexivity].
      apply existsb_exists in Hex as (v & Hv & Hvb).
      rewrite (Hsub vs eq_refl v Hv) in Hvb. discriminate.
Qed.

(** The scenarios [v2_guided_GET] offers are exactly these: Reformat of a
    device fit for booting once reformatted and at least as large as the
    install minimum; UseGap of the largest gap of a device fit for booting as
    it is, with at least one partition and a largest gap of at least the
    install minimum; Resize of a partition of any device for which
    [calculate_guided_resize] has values and which leaves the device fit for
    booting.  In particular no Reformat or UseGap scenario is smaller than the
    install minimum and a device without partitions is never offered as
    UseGap. *)
Theorem offered_scenarios (install_min : Z) (m : Model.t) (s : Z)
    (t : GuidedStorageTarget) :
  In (s, t) (sorted_scenarios install_min m)
  <-> (exists disk,
         In disk (get_guided_disks true true m)
         /\ Device.size disk >= install_min
         /\ s = Device.size disk
         /\ t = GuidedStorageTargetReformat (Device.id disk))
      \/ (exists disk gap,
            In disk (get_guided_disks true false m)
            /\ Device.partitions disk <> []
            /\ largest_gap m [Device.id disk] = Some gap
            /\ Gap.size gap >= install_min
            /\ s = Gap.size gap
            /\ t = GuidedStorageTargetUseGap (Device.id disk) gap)
      \/ (exists disk partition vals,
            In disk (get_guided_disks false false m)
            /\ In partition (Device.partitions disk)
            /\ calculate_guided_resize (Partition.estimated_min_size partition)
                 (Partition.size partition) install_min (Device.part_align disk)
               = Some vals
            /\ can_be_boot_device m (Device.id disk) (Some partition) false = true
            /\ s = ResizeVals.install_max vals
            /\ t = from_recommendations (Device.id disk) partition vals).
Proof.
  assert (Hperm : In (s, t) (sorted_scenarios install_min m)
                  <-> In (s, t) (candidate_scenarios install_min m)).
  { unfold sorted_scenarios.
    split; apply Permutation_in;
      [apply list_sort_reverse_perm | symmetry; apply list_sort_reverse_perm]. }
  rewrite Hperm. unfold candidate_scenarios. rewrite !in_app_iff.
  apply or_iff_both; [| apply or_iff_both].
  - unfold reformat_scenarios. rewrite in_flat_map. split.
    + intros (disk & Hdisk & Hin).
      destruct (Z.geb_spec (Device.size disk) install_min); [| destruct Hin].
      destruct Hin as [[= <- <-] | []]. exists disk. repeat split; [done | lia].
    + intros (disk & Hdisk & Hsize & -> & ->). exists disk. split; [done |].
      destruct (Z.geb_spec (Device.size disk) install_min); [now left | lia].
  - unfold use_gap_scenarios. rewrite in_flat_map. split.
    + intros (disk & Hdisk & Hin).
      destruct (Device.partitions disk) as [|p ps] eqn:Hparts; [destruct Hin |].
      simpl in Hin.
      destruct (largest_gap m [Device.id disk]) as [gap |] eqn:Hgap; [| destruct Hin].
      destruct (Z.geb_spec (Gap.size gap) install_min); [| destruct Hin].
      destruct Hin as [[= <- <-] | []]. exists disk, gap.
      rewrite Hparts. repeat split; [done | discriminate | done | lia].
    + intros (disk & gap & Hdisk & Hparts & Hgap & Hsize & -> & ->).
      exists disk. split; [done |].
      destruct (Device.partitions disk) as [|p ps]; [done |]. simpl. rewrite Hgap.
      destruct (Z.geb_spec (Gap.size gap) install_min); [now left | lia].
  - unfold resize_scenarios. rewrite in_flat_map. split.
    + intros (disk & Hdisk & Hin). apply in_flat_map in Hin as (partition & Hp & Hin).
      destruct (calculate_guided_resize _ _ _ _) as [vals |] eqn:Hvals; [| destruct Hin].
      destruct (can_be_boot_device m (Device.id disk) (Some partition) false) eqn:Hboot;
        [| destruct Hin].
      destruct Hin as [[= <- <-] | []]. exists disk, partition, vals. repeat split; done.
    + intros (disk & partition & vals & Hdisk & Hp & Hvals & Hboot & -> & ->).
      exists disk. split; [done |]. apply in_flat_map. exists partition. split; [done |].
      rewrite Hvals, Hboot. now left.
Qed.

End Offers.

(** ** BitLocker *)

Section BitLocker.
Context `{Collaborators} `{Requests}.

Lemma has_bitlocker_partition_spec (parts : list Partition.t) :
  has_bitlocker_partition parts = true
  <-> exists part, In part parts /\ fs_fstype part = Some "BitLocker".
Proof.
  induction parts as [|part rest IH]; simpl.
  - split; [discriminate | intros (? & [] & _)].
  - destruct (fs_fstype part) as [fstype |] eqn:Hfs.
    + case_bool_decide as Hbit.
      * subst fstype. split; [| done]. intros _. exists part. split; [now left | done].
      * rewrite IH. split.
        -- intros (p & Hp & Hpfs). exists p. split; [now right | done].
        -- intros (p & [<- | Hp] & Hpfs); [congruence | eauto].
    + rewrite IH. split.
      * intros (p & Hp & Hpfs). exists p. split; [now right | done].
      * intros (p & [<- | Hp] & Hpfs); [congruence | eauto].
Qed.

(** [has_bitlocker_GET] changes nothing and lists a disk of [all_disks]
    exactly when one of its partitions has a filesystem of type BitLocker, in
    the order of [all_disks] and once per disk, however many such partitions
    it has. *)
Theorem has_bitlocker_GET_lists (c : Controller.t) :
  exists disks,
    has_bitlocker_GET c = (inr disks, c)
    /\ (forall disk, In disk disks
          <-> In disk (all_disks (Controller.model c))
              /\ exists part, In part (Device.partitions disk)
                              /\ fs_fstype part = Some "BitLocker")
    /\ sublist disks (all_disks (Controller.model c))
    /\ (List.NoDup (all_disks (Controller.model c)) -> List.NoDup disks).
Proof.
  eexists. split; [reflexivity |]. split; [| split].
  - intros disk. rewrite filter_In, has_bitlocker_partition_spec. reflexivity.
  - apply filter_sublist_of.
  - intros Hnodup. now apply List.NoDup_filter.
Qed.

End BitLocker.

(** ** Queries that do not wait *)

Section Queries.
Context `{Collaborators} `{Requests}.

Lemma _probe_response_no_wait (c : Controller.t) :
  snd (_probe_response false c) = c.
Proof.
  unfold _probe_response, bind, gets, ret. simpl.
  destruct (Controller.probe_task_done c); simpl; [| reflexivity].
  destruct (Controller._errors c !! true) as [[exc report] |]; reflexivity.
Qed.

Lemma calculate_suggested_install_min_reads (c : Controller.t) :
  snd (calculate_suggested_install_min c) = c.
Proof.
  unfold calculate_suggested_install_min, bind, gets, lift, ret. simpl.
  destruct (py_max _); reflexivity.
Qed.

Lemma v2_GET_no_wait (c : Controller.t) : snd (v2_GET false c) = c.
Proof.
  unfold v2_GET, get_v2_storage_response, bind.
  pose proof (_probe_response_no_wait c) as Hresp.
  destruct (_probe_response false c) as [[exc | [[status error_report] |]] c1];
    simpl in Hresp; subst c1; try reflexivity.
  unfold gets. simpl.
  pose proof (calculate_suggested_install_min_reads c) as Hmin.
  destruct (calculate_suggested_install_min c) as [[exc | minsize] c1];
    simpl in Hmin; subst c1; reflexivity.
Qed.

(** Asked without [wait], none of [GET], [v2_GET] and [v2_guided_GET]
    changes the controller; and while the probe task is not done each of them
    answers PROBING, without an error report and without looking at the model,
    whatever [_errors] holds from an earlier run. *)
Theorem queries_without_wait (c : Controller.t) :
  snd (GET false c) = c
  /\ snd (v2_GET false c) = c
  /\ snd (v2_guided_GET false c) = c
  /\ (Controller.probe_task_done c = false ->
      fst (GET false c) = inr (StorageResponse.mk PROBING None None)
      /\ fst (v2_GET false c) = inr (V2NotDone PROBING None)
      /\ fst (v2_guided_GET false c)
         = inr (GuidedStorageResponseV2.mk PROBING None None [])).
Proof.
  split; [| split; [| split]].
  - unfold GET, bind.
    pose proof (_probe_response_no_wait c) as Hresp.
    destruct (_probe_response false c) as [[exc | [[status error_report] |]] c1];
      simpl in Hresp; subst c1; try reflexivity.
    now rewrite _done_response_outcome.
  - apply v2_GET_no_wait.
  - unfold v2_guided_GET, bind.
    pose proof (_probe_response_no_wait c) as Hresp.
    destruct (_probe_response false c) as [[exc | [[status error_report] |]] c1];
      simpl in Hresp; subst c1; try reflexivity.
    pose proof (calculate_suggested_install_min_reads c) as Hmin.
    destruct (calculate_suggested_install_min c) as [[exc | minsize] c1];
      simpl in Hmin; subst c1; reflexivity.
  - intros Hdone.
    unfold GET, v2_GET, get_v2_storage_response, v2_guided_GET, _probe_response,
      bind, gets, ret.
    simpl. rewrite Hdone. simpl. auto.
Qed.

(** A failure kept for the unrestricted class alone is no failure of the
    probe.  [GET] never answers FAILED for it: with probe data in the model
    that has a [blockdev] entry it answers DONE and hands out the reference
    of the report; while no probe data is loaded it raises [TypeError], and
    [KeyError] for data without that entry.  [v2_GET] and [v2_guided_GET]
    answer DONE without any report, and [apply_autoinstall_config] raises the
    exception that was kept, before it converts anything. *)
Theorem unrestricted_failure_seen (wait : bool) (c : Controller.t)
    (exc : PyExc) (report : ErrorReport.t) :
  Controller.probe_task_done c = true ->
  Controller._errors c !! false = Some (exc, report) ->
  Controller._errors c !! true = None ->
  GET wait c
  = (match Model._probe_data (Controller.model c) with
     | None => inl (TypeError "'NoneType' object is not subscriptable")
     | Some _probe_data =>
         match _probe_data !! "blockdev" with
         | None => inl (KeyError "blockdev")
         | Some _ =>
             inr (StorageResponse.mk DONE (Some (ErrorReport.ref report))
                    (Some (render_done (Controller.model c))))
         end
     end, c)
  /\ v2_GET wait c
     = (match fst (calculate_suggested_install_min c) with
        | inl e => inl e
        | inr minsize =>
            inr (V2Done (Model._all type_disk (Controller.model c))
                   (negb (is_root_mounted (Controller.model c)))
                   (needs_bootloader_partition (Controller.model c)) minsize)
        end, c)
  /\ v2_guided_GET wait c
     = (match fst (calculate_suggested_install_min c) with
        | inl e => inl e
        | inr install_min =>
            inr (GuidedStorageResponseV2.mk DONE None
                   (Model.guided_configuration (Controller.model c))
                   (List.map snd (sorted_scenarios install_min (Controller.model c))))
        end, c)
  /\ controller_apply_autoinstall_config c = (inl exc, c).
Proof.
  intros Hdone Hfalse Htrue.
  assert (Hresp : _probe_response wait c = (inr None, c)).
  { unfold _probe_response, bind, gets, ret. simpl. rewrite Hdone. simpl.
    rewrite Htrue. reflexivity. }
  pose proof (calculate_suggested_install_min_reads c) as Hmin.
  split; [| split; [| split]].
  - unfold GET, bind. rewrite Hresp, _done_response_outcome, Hfalse. reflexivity.
  - unfold v2_GET, get_v2_storage_response, bind. rewrite Hresp. unfold gets. simpl.
    destruct (calculate_suggested_install_min c) as [[e | minsize] c1];
      simpl in Hmin; subst c1; reflexivity.
  - unfold v2_guided_GET, bind. rewrite Hresp.
    destruct (calculate_suggested_install_min c) as [[e | minsize] c1];
      simpl in Hmin; subst c1; reflexivity.
  - unfold controller_apply_autoinstall_config, bind, gets, ret, raise. simpl.
    rewrite Hdone. simpl. rewrite Hfalse. reflexivity.
Qed.

(** [apply_autoinstall_config] waits for the probe and then raises what the
    probe kept, the exception of the unrestricted class before that of the
    restricted class, without converting the document: nothing but the wait
    has touched the controller. *)
Theorem apply_autoinstall_config_raises_kept (c : Controller.t)
    (exc : PyExc) (report : ErrorReport.t) :
  let c1 := if Controller.probe_task_done c then c else await_probe_task c in
  (Controller._errors c1 !! false = Some (exc, report)
   \/ Controller._errors c1 !! false = None
      /\ Controller._errors c1 !! true = Some (exc, report)) ->
  controller_apply_autoinstall_config c = (inl exc, c1).
Proof.
  intros c1 Hkept.
  unfold controller_apply_autoinstall_config, bind, gets, ret, raise, modify. simpl.
  subst c1. destruct (Controller.probe_task_done c); simpl in *.
  - destruct Hkept as [-> | [-> ->]]; reflexivity.
  - destruct Hkept as [-> | [-> ->]]; reflexivity.
Qed.

End Queries.

(** ** Requests on partitions *)

Lemma one_id_found (disk_id : string) (m : Model.t) (disk : Device.t) :
  Model._one_id disk_id m = Some disk ->
  In disk (Model.devices m) /\ Device.id disk = disk_id.
Proof.
  unfold Model._one_id. intros Hfind. apply find_some in Hfind as [Hin Hid].
  split; [done |]. now apply bool_decide_eq_true in Hid.
Qed.

Section GetPartition.
Context `{Collaborators}.

Lemma get_partition_found (disk : Device.t) (number : Z) (p : Partition.t) :
  get_partition disk number = inr p ->
  In p (Device.partitions disk) /\ Partition.number p = number.
Proof.
  unfold get_partition.
  destruct (List.find _ (Device.partitions disk)) as [q |] eqn:Hfind; [| discriminate].
  intros [= <-]. apply find_some in Hfind as [Hin Hnum]. split; [done | lia].
Qed.

Lemma get_partition_missing (disk : Device.t) (number : Z) (e : PyExc) :
  get_partition disk number = inl e ->
  (forall p, In p (Device.partitions disk) -> Partition.number p <> number)
  /\ e = ValueError ("Partition " +:+ pretty number +:+ " on "
                     +:+ Device.id disk +:+ " not found").
Proof.
  unfold get_partition.
  destruct (List.find _ (Device.partitions disk)) as [q |] eqn:Hfind; [discriminate |].
  intros [= <-]. split; [| reflexivity].
  intros p Hin Hnum. apply (find_none _ _ Hfind) in Hin. lia.
Qed.

End GetPartition.

Section PartitionRequests.
Context `{Collaborators} `{Requests}.

(** [v2_add_boot_partition_POST] on a disk the model has: a disk that is a
    boot device already, or that does not support toggling boot, is refused
    with a ValueError and the controller is as before, the first reason
    taking precedence; any other disk is handed to [add_boot_disk], once, and
    nothing else changes the model. *)
Theorem add_boot_partition_guards (disk_id : string) (c : Controller.t)
    (disk : Device.t) :
  Model._one_id disk_id (Controller.model c) = Some disk ->
  let m := Controller.model c in
  let after := snd (v2_add_boot_partition_POST disk_id c) in
  (is_boot_device m (Device.id disk) = true ->
   v2_add_boot_partition_POST disk_id c
   = (inl (ValueError "device already has bootloader partition"), c))
  /\ (is_boot_device m (Device.id disk) = false ->
      ~ TOGGLE_BOOT ∈ supported m (Device.id disk) ->
      v2_add_boot_partition_POST disk_id c
      = (inl (ValueError "disk does not support boot partiton"), c))
  /\ (is_boot_device m (Device.id disk) = false ->
      TOGGLE_BOOT ∈ supported m (Device.id disk) ->
      Device.id disk = disk_id
      /\ Controller.calls after = Controller.calls c ++ [CallAddBootDisk disk_id]
      /\ Controller.model after = snd (add_boot_disk disk_id m)
      /\ forall e, fst (add_boot_disk disk_id m) = inl e ->
           fst (v2_add_boot_partition_POST disk_id c) = inl e).
Proof.
  intros Hone m after. subst after.
  unfold v2_add_boot_partition_POST, bind, gets, raise. simpl. rewrite Hone. fold m.
  split; [| split].
  - intros ->. reflexivity.
  - intros -> Hno. simpl. now rewrite bool_decide_eq_false_2.
  - intros -> Hyes. simpl. rewrite bool_decide_eq_true_2 by done. simpl.
    destruct (one_id_found _ _ _ Hone) as [_ Hid]. rewrite Hid.
    split; [reflexivity |].
    unfold self_add_boot_disk, record_call, on_model, bind, modify. simpl. fold m.
    destruct (add_boot_disk disk_id m) as [[e | []] m'] eqn:Hadd; simpl.
    + split; [reflexivity |]. split; [reflexivity |]. now intros e' [= <-].
    + rewrite v2_GET_no_wait. simpl. split; [reflexivity |]. split; [reflexivity |].
      intros e [=].
Qed.

(** [v2_add_partition_POST] refuses a request without a format, one that
    sets the boot flag and one larger than the gap it names before it looks
    at the model, so also for a disk the model does not have, and leaves the
    controller as it was.  Of a request it does not refuse, the size asked of
    the gap is the requested size if that is at least 1 and else the whole
    gap, never more than the gap; the partition is created in the first part
    of the gap found at the named offset, split at that size, to be wiped by
    superblock. *)
Theorem add_partition_checks (data : AddPartitionV2.t) (c : Controller.t) :
  let partition := AddPartitionV2.partition data in
  let gap := AddPartitionV2.gap data in
  let m := Controller.model c in
  (PartitionData.format partition = None
   \/ PartitionData.boot partition <> None
   \/ default 0 (PartitionData.size partition) > Gap.size gap ->
   exists msg, v2_add_partition_POST data c = (inl (ValueError msg), c))
  /\ (default 0 (PartitionData.size partition) <= Gap.size gap ->
      requested_size data <= Gap.size gap
      /\ (1 <= Gap.size gap -> 1 <= requested_size data)
      /\ (forall size, PartitionData.size partition = Some size -> 1 <= size ->
            requested_size data = size)
      /\ (default 0 (PartitionData.size partition) < 1 ->
            requested_size data = Gap.size gap))
  /\ (forall format disk found first rest,
        PartitionData.format partition = Some format ->
        PartitionData.boot partition = None ->
        default 0 (PartitionData.size partition) <= Gap.size gap ->
        Model._one_id (AddPartitionV2.disk_id data) m = Some disk ->
        gaps_at_offset m (Device.id disk) (Gap.offset gap) = Some found ->
        gap_split found (requested_size data) = inr (first, rest) ->
        Controller.model (snd (v2_add_partition_POST data c))
        = snd (create_partition_spec (AddPartitionV2.disk_id data) (Some first)
                 (PartitionSpec.mk (Some (requested_size data)) (Some format)
                    (PartitionData.mount partition) None)
                 "superblock" m)).
Proof.
  intros partition gap m. split; [| split].
  - intros Hrefused. unfold v2_add_partition_POST. fold partition gap.
    destruct (PartitionData.format partition) as [format |];
      [| eexists; reflexivity].
    destruct (PartitionData.boot partition) as [boot |];
      [eexists; reflexivity |].
    destruct Hrefused as [[=] | [Hboot | Hsize]]; [done |].
    unfold bind, gets, raise. simpl.
    destruct (Z.gtb_spec (default 0 (PartitionData.size partition)) (Gap.size gap));
      [eexists; reflexivity | lia].
  - intros Hfits. unfold requested_size. fold partition gap.
    destruct (Z.ltb_spec (default 0 (PartitionData.size partition)) 1).
    + repeat split; try lia. intros size Hsize Hone. rewrite Hsize in *. simpl in *. lia.
    + repeat split; try lia. intros size Hsize Hone. rewrite Hsize. reflexivity.
  - intros format disk found first rest Hformat Hboot Hfits Hone Hgap Hsplit.
    unfold v2_add_partition_POST. fold partition gap. rewrite Hformat, Hboot.
    unfold bind, gets, raise. simpl. fold m. rewrite Hone.
    destruct (Z.gtb_spec (default 0 (PartitionData.size partition)) (Gap.size gap));
      [lia |].
    rewrite Hgap. unfold lift. rewrite Hsplit. simpl.
    destruct (one_id_found _ _ _ Hone) as [_ Hid]. rewrite Hid.
    unfold on_model. simpl. fold m.
    destruct (create_partition_spec _ _ _ _ m) as [[e | p] m'] eqn:Hcreate; simpl;
      [reflexivity |].
    now rewrite v2_GET_no_wait.
Qed.

(** [v2_delete_partition_POST] deletes a partition of the named disk that
    has the number asked for, and only that: if the disk has no partition of
    that number it raises ValueError and the controller is as before. *)
Theorem delete_partition_target (data : ModifyPartitionV2.t) (c : Controller.t)
    (disk : Device.t) :
  Model._one_id (ModifyPartitionV2.disk_id data) (Controller.model c) = Some disk ->
  let m := Controller.model c in
  let number := PartitionData.number (ModifyPartitionV2.partition data) in
  ((forall p, In p (Device.partitions disk) -> Partition.number p <> number)
   /\ exists msg, v2_delete_partition_POST data c = (inl (ValueError msg), c))
  \/ (exists p,
        In p (Device.partitions disk) /\ Partition.number p = number
        /\ Controller.model (snd (v2_delete_partition_POST data c))
           = snd (delete_partition (ModifyPartitionV2.disk_id data) p m)
        /\ forall e, fst (delete_partition (ModifyPartitionV2.disk_id data) p m) = inl e ->
             fst (v2_delete_partition_POST data c) = inl e).
Proof.
  intros Hone m number.
  unfold v2_delete_partition_POST, bind, gets, lift. simpl. rewrite Hone. simpl. fold m number.
  destruct (get_partition disk number) as [e | p] eqn:Hget.
  - left. apply get_partition_missing in Hget as [Hnone ->]. split; [done |].
    eexists; reflexivity.
  - right. apply get_partition_found in Hget as [Hin Hnum]. exists p.
    split; [done |]. split; [done |].
    unfold on_model. simpl. fold m.
    destruct (delete_partition _ p m) as [[e | []] m'] eqn:Hdel; simpl.
    + split; [reflexivity |]. now intros e' [= <-].
    + rewrite v2_GET_no_wait. simpl. split; [reflexivity |]. intros e [=].
Qed.

(** What [v2_edit_partition_POST] accepts of a request for a partition: a
    size that is absent or the partition's own, or any size from storage
    version 2 on; a boot flag that is absent or the partition's own; a format
    that is absent or the partition's original one, or any format together
    with a wipe.  The spec it then hands on carries the request's size, format
    and wipe, and the request's mount point unless that is absent or empty,
    when it is the partition's. *)
Theorem edit_partition_spec_rules (data : PartitionData.t) (p : Partition.t)
    (spec : PartitionSpec.t) :
  edit_partition_spec data p = inr spec
  <-> (PartitionData.size data = None
       \/ PartitionData.size data = Some (Partition.size p)
       \/ 2 <= storage_version)
      /\ (PartitionData.boot data = None
          \/ PartitionData.boot data = Some (partition_boot p))
      /\ (PartitionData.format data = None
          \/ PartitionData.format data = original_fstype p
          \/ PartitionData.wipe data <> None)
      /\ spec = PartitionSpec.mk (PartitionData.size data) (PartitionData.format data)
                  (match PartitionData.mount data with
                   | None | Some EmptyString => partition_mount p
                   | Some mount => Some mount
                   end)
                  (PartitionData.wipe data).
Proof.
  unfold edit_partition_spec, str_or.
  destruct data as [number size wipe mount format boot]. simpl.
  assert (Hsize : match size with
                  | None => false
                  | Some size => negb (size =? Partition.size p)
                  end && (storage_version <? 2) = false
                  <-> size = None \/ size = Some (Partition.size p)
                      \/ 2 <= storage_version).
  { destruct size as [size |]; simpl.
    - destruct (Z.eqb_spec size (Partition.size p)) as [-> | Hne]; simpl.
      + split; auto.
      + destruct (Z.ltb_spec storage_version 2); split; auto; try lia.
        intros [[=] | [[=] | ?]]; [done | lia].
    - split; auto. }
  assert (Hboot : match boot with
                  | None => false
                  | Some boot => negb (Bool.eqb boot (partition_boot p))
                  end = false
                  <-> boot = None \/ boot = Some (partition_boot p)).
  { destruct boot as [boot |]; simpl.
    - destruct (Bool.eqb boot (partition_boot p)) eqn:Heq; simpl.
      + apply Bool.eqb_prop in Heq as ->. split; auto.
      + split; [discriminate |]. intros [[=] | [= ->]].
        now rewrite Bool.eqb_reflx in Heq.
    - split; auto. }
  destruct (_ && (storage_version <? 2)) eqn:Hs.
  { split; [discriminate |]. intros (Hok & _). apply Hsize in Hok. discriminate. }
  destruct (match boot with None => false | Some _ => _ end) eqn:Hb.
  { split; [discriminate |]. intros (_ & Hok & _). apply Hboot in Hok. discriminate. }
  assert (Hs' := proj1 Hsize eq_refl). assert (Hb' := proj1 Hboot eq_refl).
  clear Hsize Hboot.
  assert (Hmount : match mount with
                   | Some "" | None => partition_mount p
                   | Some (String _ _) => mount
                   end
                   = match mount with
                     | Some "" | None => partition_mount p
                     | Some mount0 => Some mount0
                     end).
  { destruct mount as [[| a s] |]; reflexivity. }
  rewrite Hmount. clear Hmount.
  destruct format as [format |].
  - case_bool_decide as Horig; simpl.
    + split.
      * intros [= <-]. repeat split; auto.
      * intros (_ & _ & _ & ->). reflexivity.
    + case_bool_decide as Hwipe; simpl.
      * split; [discriminate |].
        intros (_ & _ & [[=] | [Hsame | Hw]] & _); done.
      * split.
        -- intros [= <-]. repeat split; auto.
        -- intros (_ & _ & _ & ->). reflexivity.
  - split.
    + intros [= <-]. repeat split; auto.
    + intros (_ & _ & _ & ->). reflexivity.
Qed.

(** [v2_edit_partition_POST] looks the partition up before it checks the
    request: for a disk without a partition of that number, or a request
    [edit_partition_spec] refuses, it raises ValueError and the controller is
    as before; otherwise the partition handed to [partition_disk_handler] is
    a partition of the named disk with the number asked for. *)
Theorem edit_partition_target (data : ModifyPartitionV2.t) (c : Controller.t)
    (disk : Device.t) :
  Model._one_id (ModifyPartitionV2.disk_id data) (Controller.model c) = Some disk ->
  let m := Controller.model c in
  let number := PartitionData.number (ModifyPartitionV2.partition data) in
  (exists msg, v2_edit_partition_POST data c = (inl (ValueError msg), c)
     /\ ((forall p, In p (Device.partitions disk) -> Partition.number p <> number)
         \/ exists p, get_partition disk number = inr p
                      /\ edit_partition_spec (ModifyPartitionV2.partition data) p
                         = inl (ValueError msg)))
  \/ (exists p spec,
        In p (Device.partitions disk) /\ Partition.number p = number
        /\ edit_partition_spec (ModifyPartitionV2.partition data) p = inr spec
        /\ Controller.model (snd (v2_edit_partition_POST data c))
           = snd (partition_disk_handler (ModifyPartitionV2.disk_id data) spec p m)).
Proof.
  intros Hone m number.
  unfold v2_edit_partition_POST, bind, gets, lift. simpl. rewrite Hone. simpl. fold m number.
  destruct (get_partition disk number) as [e | p] eqn:Hget.
  - left. apply get_partition_missing in Hget as [Hnone ->].
    eexists. split; [reflexivity |]. now left.
  - destruct (edit_partition_spec (ModifyPartitionV2.partition data) p)
      as [e | spec] eqn:Hspec.
    + left.
      assert (He : exists msg, e = ValueError msg).
      { revert Hspec. unfold edit_partition_spec.
        repeat match goal with
               | |- context [if ?b then _ else _] => destruct b
               | |- context [match ?o with Some _ => _ | None => _ end] => destruct o
               end; intros [=]; subst; eexists; reflexivity. }
      destruct He as [msg ->]. exists msg. split; [reflexivity |]. right.
      exists p. split; [reflexivity | done].
    + right. apply get_partition_found in Hget as [Hin Hnum]. exists p, spec.
      split; [done |]. split; [done |]. split; [exact Hspec |].
      unfold on_model. simpl. fold m.
      destruct (partition_disk_handler _ spec p m) as [[e | []] m'] eqn:Hh; simpl;
        [reflexivity |].
      now rewrite v2_GET_no_wait.
Qed.

End PartitionRequests.

(** ** The suggested install minimum *)

Lemma fold_left_max_spec (l : list Z) : forall x : Z,
  (fold_left Z.max l x = x \/ In (fold_left Z.max l x) l)
  /\ x <= fold_left Z.max l x
  /\ forall y, In y l -> y <= fold_left Z.max l x.
Proof.
  induction l as [|y l IH]; intros x; simpl.
  - split; [now left |]. split; [lia | intros y []].
  - destruct (IH (Z.max x y)) as (Hin & Hle & Hall). split; [| split].
    + destruct Hin as [Heq | Hin]; [| now right; right].
      rewrite Heq.
      destruct (Z.max_spec x y) as [[_ Hmax] | [_ Hmax]]; [right; left | left]; lia.
    + lia.
    + intros z [<- | Hz]; [lia | now apply Hall].
Qed.

Section InstallMinimum.
Context `{Collaborators}.

(** [calculate_suggested_install_min] changes nothing.  Without alignment
    data it raises the ValueError of [max] on an empty sequence; otherwise it
    hands [sizes.calculate_suggested_install_min] the source's size and the
    largest [part_align] of the alignment data. *)
Theorem install_min_largest_alignment (c : Controller.t) :
  let aligns := List.map snd (Model._partition_alignment_data (Controller.model c)) in
  (aligns = [] ->
   calculate_suggested_install_min c
   = (inl (ValueError "max() arg is an empty sequence"), c))
  /\ (aligns <> [] ->
      exists align,
        calculate_suggested_install_min c
        = (inr (sizes_calculate_suggested_install_min source_current_size align), c)
        /\ In align aligns
        /\ forall a, In a aligns -> a <= align).
Proof.
  intros aligns.
  unfold calculate_suggested_install_min, bind, gets, lift, ret. simpl. fold aligns.
  destruct aligns as [|x rest]; simpl.
  - split; [reflexivity | done].
  - split; [discriminate |]. intros _. exists (fold_left Z.max rest x).
    destruct (fold_left_max_spec rest x) as (Hin & Hle & Hall).
    split; [reflexivity |]. split.
    + destruct Hin as [-> | Hin]; [now left | now right].
    + intros a [<- | Ha]; [done | now apply Hall].
Qed.

End InstallMinimum.

(** ** Posting the configuration *)

Section Posting.
Context `{Collaborators} `{Requests}.

(** [v2_POST] answers what [v2_GET] would have answered just before, also
    while the probe is still running; what it changes is that the controller
    is configured, the base class has been told once and the udev monitor is
    no longer listened to.  The model is as it was, and a probe that comes
    back afterwards changes nothing. *)
Theorem v2_POST_marks_configured (c : Controller.t) :
  let c' := Controller.set_listening_udev false
              (Controller.set_calls (Controller.calls c ++ [CallSuperConfigured])
                 (Controller.set__configured true c)) in
  v2_POST c = (fst (v2_GET false c), c')
  /\ Controller.model c' = Controller.model c
  /\ forall restricted, snd (_probe_once restricted c') = c'.
Proof.
  intros c'. split; [| split].
  - unfold v2_POST, configured, stop_listening_udev, record_call, bind, modify. simpl.
    fold c'.
    pose proof (v2_GET_no_wait c') as Hsame.
    assert (Hfst : fst (v2_GET false c') = fst (v2_GET false c)).
    { unfold v2_GET, get_v2_storage_response, _probe_response,
        calculate_suggested_install_min, bind, gets, ret, lift. simpl.
      destruct (Controller.probe_task_done c); simpl; [| reflexivity].
      destruct (Controller._errors c !! true) as [[exc report] |]; [reflexivity |].
      destruct (py_max _); reflexivity. }
    destruct (v2_GET false c') as [r c'']. simpl in *. now subst.
  - reflexivity.
  - intros restricted. unfold _probe_once, bind, lift.
    destruct (get_storage _); reflexivity.
Qed.

End Posting.

(** ** Unattended installs, from the document to the model *)

Section Documents.
Context `{Collaborators} `{Requests}.

(** An install without a storage section.  Unattended, the document becomes
    the layout lvm, and converting it is, after a line in the log, a guided
    install on the disk that [disk_for_match] picks with the default match:
    reformat, with LVM and without a password.  Interactive, the document is
    empty and converting it does nothing. *)
Theorem autoinstall_without_storage_section (c : Controller.t) :
  let m := Controller.model c in
  (interactive = false ->
   let c0 := Controller.set_ai_data
               (AiData.mk (Some (Layout.mk (Some "lvm") None None)) None None None) c in
   (forall e, disk_for_match m (all_disks m) None = inl e ->
      (load_autoinstall_data None;; convert_autoinstall_config) c = (inl e, c0))
   /\ (forall disk, disk_for_match m (all_disks m) None = inr disk ->
         exists msg,
           (load_autoinstall_data None;; convert_autoinstall_config) c
           = (log_record INFO msg;;
              guided (GuidedChoiceV2.mk (GuidedStorageTargetReformat (Device.id disk))
                        true None)) c0))
  /\ (interactive = true ->
      (load_autoinstall_data None;; convert_autoinstall_config) c
      = (inr tt, Controller.set_ai_data (AiData.mk None None None None) c)).
Proof.
  intros m. split.
  - intros Hunattended c0. subst c0.
    unfold load_autoinstall_data, convert_autoinstall_config, run_autoinstall_guided,
      validate_layout_mode, log_record, bind, modify, gets, lift, ret.
    rewrite Hunattended. simpl. fold m.
    split.
    + intros e He. rewrite He. reflexivity.
    + intros disk Hdisk. rewrite Hdisk. eexists. reflexivity.
  - intros Hinteractive.
    unfold load_autoinstall_data. rewrite Hinteractive. reflexivity.
Qed.

(** The document [make_autoinstall] writes has the rendered actions under
    [config], the rendered swap if there is one, and neither a layout nor
    grub.  Loading it again therefore applies the actions to the model (never
    a guided layout) and, if that succeeds, sets the model's swap to the
    rendered one and the model's grub to nothing. *)
Theorem make_autoinstall_replay (c c' : Controller.t) (document : AiData.t) :
  make_autoinstall c = (inr document, c') ->
  c' = c
  /\ exists config,
       Rendered.storage (render (Controller.model c)) = Some (Some config)
       /\ document = AiData.mk None (Some config) None
                       (Rendered.swap (render (Controller.model c)))
       /\ forall c0 : Controller.t,
            let noted :=
              Controller.set_calls
                (Controller.calls c0 ++ [CallApplyAutoinstallConfig config])
                (Controller.set_ai_data document c0) in
            (load_autoinstall_data (Some document);; convert_autoinstall_config) c0
            = match apply_autoinstall_config config (Controller.model c0) with
              | (inl e, m1) => (inl e, Controller.set_model m1 noted)
              | (inr _, m1) =>
                  (inr tt,
                   Controller.set_model
                     (Model.set_swap (Rendered.swap (render (Controller.model c)))
                        (Model.set_grub None m1))
                     noted)
              end.
Proof.
  unfold make_autoinstall, bind, gets, raise, ret. simpl.
  destruct (Rendered.storage (render (Controller.model c))) as [[config |] |] eqn:Hr;
    intros [= <- <-].
  split; [reflexivity |]. exists config. split; [reflexivity |]. split; [reflexivity |].
  intros c0.
  unfold load_autoinstall_data, convert_autoinstall_config, record_call, on_model,
    modify_model, bind, modify, gets. simpl.
  destruct (apply_autoinstall_config config (Controller.model c0)) as [[e | []] m1];
    reflexivity.
Qed.

End Documents.

(** ** Files of a probe that could not be loaded *)

Section ProbeFiles.
Context `{Collaborators}.

(** A run of [_probe] in which both classes get their answer from the prober
    and the loader fails on the answer of the unrestricted class: the file of
    that class has been written and noted for apport all the same, the
    restricted class loads into the model as the failed load left it, both
    files are there in the end, and the exception of the failed load is kept
    under [False] if a report could be made. *)
Theorem probe_files_after_failed_load (c : Controller.t) (s1 s2 : Storage)
    (e : PyExc) (m1 m2 : Model.t) (r2 : PyExc + unit) :
  let timeout := if bool_decide (machine = "riscv64") then 60 else 15 in
  let fpath1 := path_join block_log_dir "probe-data.json" in
  let fpath2 := path_join block_log_dir "probe-data-restricted.json" in
  Controller._configured c = false ->
  wait_for false timeout = Completes ->
  wait_for true timeout = Completes ->
  get_storage (probe_types false) = inr s1 ->
  load_probe_data s1 (Controller.model c) = (inl e, m1) ->
  e <> CancelledError ->
  get_storage (probe_types true) = inr s2 ->
  load_probe_data s2 m1 = (r2, m2) ->
  let c' := snd (_probe c) in
  Controller.block_log c' = (fpath2, s2) :: (fpath1, s1) :: Controller.block_log c
  /\ Controller.apport_files c'
     = Controller.apport_files c
       ++ [("ProbeData", fpath1); ("ProbeDataRestricted", fpath2)]
  /\ Controller.model c' = m2
  /\ Controller.calls c' = Controller.calls c ++ [CallProbeOnce false; CallProbeOnce true]
  /\ Controller._errors c' !! false = kept BLOCK_PROBE_FAIL e.
Proof.
  intros timeout fpath1 fpath2 Hconf Hwait1 Hwait2 Hs1 Hload1 He Hs2 Hload2 c'.
  subst c'. set (c0 := Controller.set__errors ∅ c).
  assert (Hattempt1 :
    probe_attempt false c0
    = (inl e,
       Controller.set_model m1
         (Controller.set_apport_files
            (Controller.apport_files c ++ [("ProbeData", fpath1)])
            (Controller.set_block_log ((fpath1, s1) :: Controller.block_log c)
               (Controller.set_calls (Controller.calls c ++ [CallProbeOnce false])
                  c0))))).
  { unfold probe_attempt, record_call, bind, modify. simpl. fold timeout.
    rewrite Hwait1. unfold _probe_once, bind, lift. rewrite Hs1.
    unfold _probe_once_resume, bind, gets, modify, on_model. simpl.
    rewrite Hconf. simpl. rewrite Hload1. reflexivity. }
  set (c1 := Controller.set_model m1 _) in Hattempt1.
  assert (Hloop : _probe c
                  = _probe_loop [(true, DISK_PROBE_FAIL)]
                      (snd (probe_failed false BLOCK_PROBE_FAIL e c1))).
  { transitivity (_probe_loop [(false, BLOCK_PROBE_FAIL); (true, DISK_PROBE_FAIL)] c0);
      [reflexivity |].
    rewrite (_probe_loop_failed false BLOCK_PROBE_FAIL _ c0 e)
      by (try rewrite Hattempt1; done).
    rewrite Hattempt1. reflexivity. }
  rewrite Hloop. clear Hloop.
  pose proof (probe_failed_frame false BLOCK_PROBE_FAIL e c1)
    as (_ & Hcalls & Hconf2 & Hmodel & Happort & Hblock & Herrors).
  cbv zeta in *.
  set (c2 := snd (probe_failed false BLOCK_PROBE_FAIL e c1)) in *.
  assert (Hattempt2 :
    snd (probe_attempt true c2)
    = Controller.set_model m2
        (Controller.set_apport_files
           (Controller.apport_files c2 ++ [("ProbeDataRestricted", fpath2)])
           (Controller.set_block_log ((fpath2, s2) :: Controller.block_log c2)
              (Controller.set_calls (Controller.calls c2 ++ [CallProbeOnce true])
                 c2)))
    /\ fst (probe_attempt true c2) = r2).
  { unfold probe_attempt, record_call, bind, modify. simpl. fold timeout.
    rewrite Hwait2. unfold _probe_once, bind, lift. rewrite Hs2.
    unfold _probe_once_resume, bind, gets, modify, on_model. simpl.
    rewrite Hconf2. subst c1. simpl. rewrite Hconf. simpl.
    rewrite Hmodel. simpl. rewrite Hload2. split; reflexivity. }
  destruct Hattempt2 as [Hsnd Hfst].
  assert (Hfinal :
    let c3 := snd (_probe_loop [(true, DISK_PROBE_FAIL)] c2) in
    Controller.block_log c3 = (fpath2, s2) :: Controller.block_log c2
    /\ Controller.apport_files c3
       = Controller.apport_files c2 ++ [("ProbeDataRestricted", fpath2)]
    /\ Controller.model c3 = m2
    /\ Controller.calls c3 = Controller.calls c2 ++ [CallProbeOnce true]
    /\ Controller._errors c3 !! false = Controller._errors c2 !! false).
  { cbv zeta. rewrite _probe_loop_step.
    destruct (probe_attempt true c2) as [[exc | []] c3] eqn:Hrun; simpl in Hsnd, Hfst.
    - assert (Hfail :
        let c4 := snd (probe_failed true DISK_PROBE_FAIL exc c3) in
        Controller.block_log c4 = (fpath2, s2) :: Controller.block_log c2
        /\ Controller.apport_files c4
           = Controller.apport_files c2 ++ [("ProbeDataRestricted", fpath2)]
        /\ Controller.model c4 = m2
        /\ Controller.calls c4 = Controller.calls c2 ++ [CallProbeOnce true]
        /\ Controller._errors c4 !! false = Controller._errors c2 !! false).
      { pose proof (probe_failed_frame true DISK_PROBE_FAIL exc c3)
          as (_ & Hc4 & _ & Hm4 & Ha4 & Hb4 & He4).
        cbv zeta in *. rewrite Hc4, Hm4, Ha4, Hb4, He4. subst c3. simpl.
        repeat split.
        destruct (make_apport_report DISK_PROBE_FAIL _); [| reflexivity].
        now rewrite lookup_insert_ne. }
      destruct exc; simpl; try exact Hfail.
      subst c3. simpl. repeat split.
    - subst c3. simpl. repeat split. }
  cbv zeta in Hfinal. destruct Hfinal as (Hb3 & Ha3 & Hm3 & Hc3 & He3).
  rewrite Hb3, Ha3, Hm3, Hc3, He3, Hblock, Happort, Hcalls, Herrors.
  subst c1 c0. simpl.
  split; [reflexivity |]. split; [now rewrite <- app_assoc |].
  split; [reflexivity |]. split; [now rewrite <- app_assoc |].
  unfold kept. destruct (make_apport_report BLOCK_PROBE_FAIL _); simpl.
  - now rewrite lookup_insert_eq.
  - apply lookup_empty.
Qed.

End ProbeFiles.

(** ** The calls of a guided LVM install *)

Section GuidedLvm.
Context `{Collaborators}.

(** [guided_lvm] when the gap splits and both partitions can be created:
    it creates the partition for /boot in the first part of the gap, then a
    bare partition in the rest, then a volume group on that partition under
    the first default name that no group of the model holds, with the
    password of the options if there are any, and last a logical volume in
    that group, of the size the policy gives for the size of the group. *)
Theorem guided_lvm_calls (gap gap_boot : Gap.t) (gap_rest : option Gap.t)
    (lvm_options : option LvmOptions.t) (c : Controller.t)
    (boot_part part : Partition.t) (m1 m2 : Model.t) :
  let device := Gap.device gap in
  gap_split gap (get_bootfs_size (Gap.size gap)) = inr (gap_boot, gap_rest) ->
  create_partition device (Some gap_boot) (Some "ext4") (Some "/boot")
    (Controller.model c) = (inr boot_part, m1) ->
  create_partition device gap_rest None None m1 = (inr part, m2) ->
  exists j,
    let vg := VolGroup.mk (vg_name_at j) [part] (volgroup_size [part])
                (match lvm_options with
                 | Some o => if LvmOptions.encrypt o
                             then Some (LvmOptions.luks_options_password o) else None
                 | None => None
                 end) in
    let lv_size := sizes.lv_size_policy LVM_CHUNK_SIZE (volgroup_size [part]) in
    let grouped := Model.set_volgroups (Model.volgroups m2 ++ [vg]) m2 in
    ~ In (vg_name_at j) (volgroup_names m2)
    /\ (forall k, (k < j)%nat -> In (vg_name_at k) (volgroup_names m2))
    /\ Controller.calls (snd (guided_lvm gap lvm_options c))
       = Controller.calls c
         ++ [CallCreatePartition device (Some gap_boot) (Some "ext4") (Some "/boot");
             CallCreatePartition device gap_rest None None;
             CallCreateVolgroup (vg_name_at j);
             CallCreateLogicalVolume (vg_name_at j) lv_size]
    /\ fst (guided_lvm gap lvm_options c) = fst (create_logical_volume vg lv_size grouped)
    /\ Controller.model (snd (guided_lvm gap lvm_options c))
       = snd (create_logical_volume vg lv_size grouped).
Proof.
  intros device Hsplit Hboot Hrest. subst device.
  destruct (default_vg_name_spec m2) as (j & Hname & Hfree & Hbelow).
  exists j. cbv zeta. split; [done |]. split; [done |].
  set (c1 := Controller.set_model m1
               (Controller.set_calls
                  (Controller.calls c
                   ++ [CallCreatePartition (Gap.device gap) (Some gap_boot)
                         (Some "ext4") (Some "/boot")]) c)).
  set (c2 := Controller.set_model m2
               (Controller.set_calls
                  (Controller.calls c1
                   ++ [CallCreatePartition (Gap.device gap) gap_rest None None]) c1)).
  set (vg := VolGroup.mk (vg_name_at j) [part] (volgroup_size [part]) _).
  set (c3 := Controller.set_model
               (Model.set_volgroups (Model.volgroups m2 ++ [vg]) m2)
               (Controller.set_calls
                  (Controller.calls c2 ++ [CallCreateVolgroup (vg_name_at j)]) c2)).
  assert (Hc1 : self_create_partition (Gap.device gap) (Some gap_boot) (Some "ext4")
                  (Some "/boot") c = (inr boot_part, c1)).
  { unfold self_create_partition, record_call, on_model, bind, modify. simpl.
    now rewrite Hboot. }
  assert (Hc2 : self_create_partition (Gap.device gap) gap_rest None None c1
                = (inr part, c2)).
  { unfold self_create_partition, record_call, on_model, bind, modify. simpl.
    now rewrite Hrest. }
  assert (Hc3 : create_default_volgroup part lvm_options c2 = (inr vg, c3)).
  { unfold create_default_volgroup, bind, gets. simpl. rewrite Hname.
    unfold self_create_volgroup, record_call, bind, modify, gets, modify_model, ret.
    simpl. apply one_volgroup_None in Hfree. now rewrite Hfree. }
  assert (Hrun : guided_lvm gap lvm_options c
                 = self_create_logical_volume vg
                     (sizes.lv_size_policy LVM_CHUNK_SIZE (volgroup_size [part])) c3).
  { unfold guided_lvm, bind, lift. rewrite Hsplit, Hc1, Hc2, Hc3. reflexivity. }
  rewrite Hrun.
  unfold self_create_logical_volume, record_call, bind, modify, on_model. simpl.
  destruct (create_logical_volume _ _ _) as [r m3]. simpl.
  rewrite <- !app_assoc. simpl. repeat split.
Qed.

End GuidedLvm.

(** ** The udev monitor *)

Lemma drain_length (queue : list (string * string)) : forall log,
  length (drain queue log) = (length log + length queue)%nat.
Proof.
  induction queue as [|[action dev] rest IH]; intros log; simpl; [lia |].
  rewrite IH, length_app. simpl. lia.
Qed.

Lemma _udev_event_probe (settle_returncode : Z) (u : Udev.t) :
  let u' := _udev_event settle_returncode u in
  Udev.probe_running u' = Udev.probe_running u || (settle_returncode =? 0)
  /\ Udev.probe_starts u'
     = (Udev.probe_starts u
        + if negb (Udev.probe_running u) && (settle_returncode =? 0)%Z then 1 else 0)%nat.
Proof.
  unfold _udev_event, start_sync.
  destruct (settle_returncode =? 0); simpl.
  - destruct (Udev.probe_running u); simpl; split; auto; lia.
  - rewrite orb_false_r, andb_false_r. split; auto; lia.
Qed.

(** One udev event.  If udev has not settled, the monitor is no longer
    listened to, the events stay queued, no probe is started and exactly one
    timer is set, which after 100 ms listens again.  If udev has settled,
    every queued event is taken off the queue, each noted in the log and none
    looked at, and one probe is started unless one is running, which is then
    left to run. *)
Theorem _udev_event_outcomes (settle_returncode : Z) (u : Udev.t) :
  let u' := _udev_event settle_returncode u in
  (settle_returncode <> 0 ->
   Udev.listening u' = false
   /\ Udev.queue u' = Udev.queue u
   /\ Udev.timers u' = Udev.timers u ++ [(100, cb_start_listening_udev)]
   /\ Udev.probe_starts u' = Udev.probe_starts u
   /\ Udev.probe_running u' = Udev.probe_running u
   /\ Udev.listening (run_timer cb_start_listening_udev u') = true)
  /\ (settle_returncode = 0 ->
      Udev.listening u' = Udev.listening u
      /\ Udev.queue u' = []
      /\ Udev.timers u' = Udev.timers u
      /\ length (Udev.debug_log u')
         = (length (Udev.debug_log u) + length (Udev.queue u) + 1)%nat
      /\ Udev.probe_running u' = true
      /\ Udev.probe_starts u'
         = if Udev.probe_running u then Udev.probe_starts u
           else S (Udev.probe_starts u)).
Proof.
  cbv zeta. unfold _udev_event, start_sync. split.
  - intros Hne. apply Z.eqb_neq in Hne. rewrite Hne. simpl. repeat split.
  - intros ->. simpl.
    destruct (Udev.probe_running u); simpl;
      rewrite length_app, drain_length; simpl; repeat split; lia.
Qed.

(** However the events and the timers follow each other, a probe that is
    running is never started again, and a burst of events starts one probe at
    most: exactly one if no probe was running and some event found udev
    settled, none otherwise. *)
Theorem udev_burst_starts_one_probe (steps : list UdevStep) (u : Udev.t) :
  let u' := udev_run steps u in
  Udev.probe_running u' = Udev.probe_running u || existsb settled_event steps
  /\ Udev.probe_starts u'
     = (Udev.probe_starts u
        + if negb (Udev.probe_running u) && existsb settled_event steps
          then 1 else 0)%nat.
Proof.
  cbv zeta. revert u. induction steps as [|s steps IH]; intros u; simpl.
  - rewrite orb_false_r, andb_false_r. split; auto; lia.
  - destruct (IH (udev_step u s)) as [Hrun Hstarts]. unfold udev_run in *.
    rewrite Hrun, Hstarts. clear IH Hrun Hstarts.
    destruct s as [settle_returncode | cb]; simpl.
    + destruct (_udev_event_probe settle_returncode u) as [-> ->].
      destruct (Udev.probe_running u), (settle_returncode =? 0),
        (existsb settled_event steps); simpl; split; auto; lia.
    + destruct cb. simpl. split; auto.
Qed.

(** ** Guided requests *)

Section GuidedAnswers.
Context `{Collaborators}.

Lemma reformat_scenario_disk (install_min : Z) (m : Model.t) (s : Z)
    (disk_id : string) :
  In (s, GuidedStorageTargetReformat disk_id) (sorted_scenarios install_min m) ->
  exists disk, In disk (get_guided_disks true true m) /\ Device.id disk = disk_id.
Proof.
  intros Hin. unfold sorted_scenarios in Hin.
  apply (Permutation_in _ (list_sort_reverse_perm fst _)) in Hin.
  unfold candidate_scenarios in Hin.
  apply in_app_or in Hin as [Hin | Hin]; [| apply in_app_or in Hin as [Hin | Hin]].
  - unfold reformat_scenarios in Hin. apply in_flat_map in Hin as (disk & Hdisk & Hin).
    destruct (Device.size disk >=? install_min); [| destruct Hin].
    destruct Hin as [[= _ <-] | []]. now exists disk.
  - unfold use_gap_scenarios in Hin. apply in_flat_map in Hin as (disk & _ & Hin).
    destruct (length (Device.partitions disk) <? 1)%nat; [destruct Hin |].
    destruct (largest_gap m [Device.id disk]) as [gap |]; [| destruct Hin].
    destruct (Gap.size gap >=? install_min); [| destruct Hin].
    destruct Hin as [[=] | []].
  - unfold resize_scenarios in Hin. apply in_flat_map in Hin as (disk & _ & Hin).
    apply in_flat_map in Hin as (partition & _ & Hin).
    destruct (calculate_guided_resize _ _ _ _) as [vals |]; [| destruct Hin].
    destruct (can_be_boot_device m (Device.id disk) (Some partition) false);
      [| destruct Hin].
    destruct Hin as [[=] | []].
Qed.

(** [guided_GET] and [v2_guided_GET], asked of the same controller, leave
    the same controller and answer the same status; every disk that
    [v2_guided_GET] offers to reformat is among the disks [guided_GET] lists,
    each of which it hands out with the minimum size of twice the source plus
    1 GiB. *)
Theorem reformat_offers_are_guided_disks (wait : bool) (c c1 c2 : Controller.t)
    (v2 : GuidedStorageResponseV2.t) (legacy : GuidedStorageResponse.t) :
  v2_guided_GET wait c = (inr v2, c1) ->
  guided_GET wait c = (inr legacy, c2) ->
  c1 = c2
  /\ GuidedStorageResponseV2.status v2 = GuidedStorageResponse.status legacy
  /\ (forall disk min_size,
        In (disk, min_size) (GuidedStorageResponse.disks legacy) ->
        min_size = 2 * source_current_size + sizes.GiB)
  /\ forall disk_id,
       In (GuidedStorageTargetReformat disk_id) (GuidedStorageResponseV2.possible v2) ->
       exists disk min_size,
         In (disk, min_size) (GuidedStorageResponse.disks legacy)
         /\ Device.id disk = disk_id.
Proof.
  unfold v2_guided_GET, guided_GET, bind.
  destruct (_probe_response wait c) as [[exc | [[status error_report] |]] c0];
    [discriminate | |].
  - unfold ret. intros [= <- <-] [= <- <-]. simpl.
    split; [reflexivity |]. split; [reflexivity |]. split; [intros ? ? [] | intros ? []].
  - pose proof (calculate_suggested_install_min_reads c0) as Hmin.
    destruct (calculate_suggested_install_min c0) as [[exc | install_min] c0'];
      simpl in Hmin; subst c0'; [discriminate |].
    unfold gets, ret, full_probe_error, bind, gets, ret. simpl.
    intros [= <- <-] Hlegacy.
    assert (Hl : legacy = GuidedStorageResponse.mk DONE
                   (match Controller._errors c0 !! false with
                    | Some (_, report) => Some (ErrorReport.ref report)
                    | None => None
                    end)
                   (List.map (fun d => (d, 2 * source_current_size + Z.shiftl 1 30))
                      (get_guided_disks true true (Controller.model c0)))
                 /\ c2 = c0).
    { destruct (Controller._errors c0 !! false) as [[exc report] |];
        injection Hlegacy as <- <-; split; reflexivity. }
    destruct Hl as [-> ->]. simpl.
    split; [reflexivity |]. split; [reflexivity |]. split.
    + intros disk min_size Hin. apply in_map_iff in Hin as (d & [= <- <-] & _).
      reflexivity.
    + intros disk_id Hin. apply in_map_iff in Hin as ([s t] & Ht & Hin).
      simpl in Ht. subst t.
      apply reformat_scenario_disk in Hin as (disk & Hdisk & <-).
      exists disk, (2 * source_current_size + Z.shiftl 1 30). split; [| reflexivity].
      apply in_map_iff. exists disk. split; [reflexivity | done].
Qed.

(** [guided] writes the choice to the model before it applies the target.
    A Resize choice that is refused -- for a disk the model does not have,
    for a partition number the disk does not have, or for an aligned size
    above the size of the partition -- raises before any method of the
    manipulator is called, and yet the model has it as its guided
    configuration; this is what [v2_guided_POST] leaves behind, and a later
    [v2_guided_GET] reports it as configured. *)
Theorem rejected_choice_stays_configured (choice : GuidedChoiceV2.t)
    (c : Controller.t) (disk_id : string)
    (partition_number new_size minimum recommended maximum : Z) :
  GuidedChoiceV2.target choice
  = GuidedStorageTargetResize disk_id partition_number new_size
      minimum recommended maximum ->
  (forall disk p,
      Model._one_id disk_id (Controller.model c) = Some disk ->
      get_partition disk partition_number = inr p ->
      sizes.align_up new_size (Device.part_align disk) > Partition.size p) ->
  let c' := Controller.set_model
              (Model.set_guided_configuration (Some choice) (Controller.model c)) c in
  let e :=
    match Model._one_id disk_id (Controller.model c) with
    | None => AttributeError "'NoneType' object has no attribute 'partitions'"
    | Some disk =>
        match get_partition disk partition_number with
        | inl not_found => not_found
        | inr _ =>
            Exception_ ("Aligned requested size "
                        +:+ pretty (sizes.align_up new_size (Device.part_align disk))
                        +:+ " too large")
        end
    end in
  guided choice c = (inl e, c')
  /\ v2_guided_POST choice c = (inl e, c')
  /\ Controller.calls c' = Controller.calls c
  /\ forall resp,
       fst (v2_guided_GET false c') = inr resp ->
       GuidedStorageResponseV2.status resp = DONE ->
       GuidedStorageResponseV2.configured resp = Some choice.
Proof.
  intros Htarget Hrefused c' e.
  assert (Hguided : guided choice c = (inl e, c')).
  { unfold guided, modify_model, bind, modify, gets, raise. simpl.
    rewrite Htarget. simpl. unfold Model._one_id in *. simpl. subst e.
    destruct (List.find _ (Model.devices (Controller.model c))) as [disk |] eqn:Hdisk;
      [| reflexivity].
    unfold start_guided_resize, bind, lift.
    destruct (get_partition disk partition_number) as [not_found | p] eqn:Hp;
      [reflexivity |].
    specialize (Hrefused disk p eq_refl Hp).
    destruct (Z.gtb_spec (sizes.align_up new_size (Device.part_align disk))
                (Partition.size p)); [reflexivity | lia]. }
  split; [exact Hguided |]. split; [| split; [reflexivity |]].
  - unfold v2_guided_POST, bind. now rewrite Hguided.
  - intros resp. unfold v2_guided_GET, bind.
    destruct (_probe_response false c') as [[exc | [[status error_report] |]] c0] eqn:Hp;
      simpl; [discriminate | |].
    + intros [= <-]. simpl. intros ->.
      unfold _probe_response, bind, gets, ret in Hp. simpl in Hp.
      destruct (Controller.probe_task_done c); simpl in Hp; [| discriminate].
      destruct (Controller._errors c !! true) as [[exc report] |]; discriminate.
    + pose proof (_probe_response_no_wait c') as Hsame. rewrite Hp in Hsame.
      simpl in Hsame. subst c0.
      pose proof (calculate_suggested_install_min_reads c') as Hmin.
      destruct (calculate_suggested_install_min c') as [[exc | install_min] c0];
        simpl in Hmin; subst c0; [discriminate |].
      unfold gets, ret. simpl. intros [= <-] _. reflexivity.
Qed.

End GuidedAnswers.

(** * The manual network form *)

(** ** Strings *)

Lemma lstrip_incl (s : pystr) (ch : Z) : In ch (lstrip s) -> In ch s.
Proof.
  induction s as [|x s IH]; simpl; [done |].
  destruct (isspace x); [intros Hin; right; now apply IH | done].
Qed.

Lemma lstrip_length (s : pystr) : (length (lstrip s) <= length s)%nat.
Proof.
  induction s as [|x s IH]; simpl; [lia |].
  destruct (isspace x); simpl; lia.
Qed.

Lemma lstrip_head (s : pystr) :
  match lstrip s with
  | [] => True
  | ch :: _ => isspace ch = false
  end.
Proof.
  induction s as [|x s IH]; simpl; [done |].
  destruct (isspace x) eqn:Hx; [exact IH | exact Hx].
Qed.

Lemma lstrip_fixed (s : pystr) :
  match s with
  | [] => True
  | ch :: _ => isspace ch = false
  end -> lstrip s = s.
Proof. destruct s as [|x s]; simpl; [done |]. now intros ->. Qed.

Lemma rstrip_incl (s : pystr) (ch : Z) : In ch (rstrip s) -> In ch s.
Proof.
  unfold rstrip. intros Hin. apply in_rev in Hin. apply lstrip_incl in Hin.
  now apply in_rev in Hin.
Qed.

Lemma rstrip_length (s : pystr) : (length (rstrip s) <= length s)%nat.
Proof.
  unfold rstrip. rewrite length_rev.
  etransitivity; [apply lstrip_length |]. now rewrite length_rev.
Qed.

Lemma lstrip_suffix (s : pystr) : exists pre, s = pre ++ lstrip s.
Proof.
  induction s as [|x s [pre IH]]; simpl; [now exists [] |].
  destruct (isspace x); [| now exists []].
  exists (x :: pre). simpl. now f_equal.
Qed.

Lemma rstrip_prefix (s : pystr) : exists post, s = rstrip s ++ post.
Proof.
  unfold rstrip. destruct (lstrip_suffix (rev s)) as [pre Hpre].
  exists (rev pre). rewrite <- rev_app_distr, <- Hpre. now rewrite rev_involutive.
Qed.

(** Stripping on the right keeps a first character that is no space. *)
Lemma rstrip_head (s : pystr) :
  match s with
  | [] => True
  | ch :: _ => isspace ch = false
  end ->
  match rstrip s with
  | [] => True
  | ch :: _ => isspace ch = false
  end.
Proof.
  intros Hhead. destruct (rstrip_prefix s) as [post Hpost].
  destruct (rstrip s) as [|y r]; [done |].
  rewrite Hpost in Hhead. exact Hhead.
Qed.

Lemma rstrip_idem (s : pystr) : rstrip (rstrip s) = rstrip s.
Proof.
  unfold rstrip. rewrite rev_involutive. f_equal.
  apply lstrip_fixed, lstrip_head.
Qed.

Lemma strip_idem (s : pystr) : strip (strip s) = strip s.
Proof.
  unfold strip. rewrite (lstrip_fixed (rstrip (lstrip s))).
  - apply rstrip_idem.
  - apply rstrip_head, lstrip_head.
Qed.

Lemma strip_incl (s : pystr) (ch : Z) : In ch (strip s) -> In ch s.
Proof. unfold strip. intros Hin. now apply lstrip_incl, rstrip_incl. Qed.

(** A string that [strip] leaves alone is left alone by [lstrip] too. *)
Lemma strip_fixed_lstrip (s : pystr) : strip s = s -> lstrip s = s.
Proof.
  intros Hfix. destruct (lstrip_suffix s) as [pre Hpre].
  assert (Hlen : length (lstrip s) = length s).
  { pose proof (lstrip_length s). pose proof (rstrip_length (lstrip s)).
    unfold strip in Hfix. rewrite Hfix in *. lia. }
  rewrite Hpre in Hlen at 2. rewrite length_app in Hlen.
  destruct pre as [|x pre]; [now symmetry | simpl in Hlen; lia].
Qed.

Lemma strip_after_space (s : pystr) : strip s = s -> strip (32 :: s) = s.
Proof.
  intros Hfix. pose proof (strip_fixed_lstrip s Hfix) as Hleft.
  unfold strip in *. change (lstrip (32 :: s)) with (lstrip s).
  rewrite Hleft in *. exact Hfix.
Qed.

Lemma split_on_nonempty (sep : Z) (s : pystr) : split_on sep s <> [].
Proof.
  destruct s as [|x s]; simpl; [done |].
  destruct (x =? sep); [done |]. now destruct (split_on sep s).
Qed.

Lemma split_on_free (sep : Z) (s : pystr) :
  forall word, In word (split_on sep s) -> ~ In sep word.
Proof.
  induction s as [|x s IH]; simpl.
  - intros word [<- | []]. intros [].
  - destruct (Z.eqb_spec x sep) as [-> | Hne].
    + intros word [<- | Hin]; [intros [] | now apply IH].
    + destruct (split_on sep s) as [|w ws]; simpl.
      * intros word [<- | []]. intros [Heq | []]. done.
      * intros word [<- | Hin].
        -- intros [Heq | Hin]; [done |]. apply (IH w); [now left | done].
        -- apply IH. now right.
Qed.

Lemma split_on_word (sep : Z) (word rest : pystr) :
  ~ In sep word ->
  split_on sep (word ++ sep :: rest) = word :: split_on sep rest.
Proof.
  induction word as [|x word IH]; simpl; intros Hfree.
  - now rewrite Z.eqb_refl.
  - destruct (Z.eqb_spec x sep) as [-> | Hne]; [exfalso; apply Hfree; now left |].
    rewrite IH by (intros Hin; apply Hfree; now right). reflexivity.
Qed.

Lemma split_on_single (sep : Z) (word : pystr) :
  ~ In sep word -> split_on sep word = [word].
Proof.
  induction word as [|x word IH]; simpl; intros Hfree; [done |].
  destruct (Z.eqb_spec x sep) as [-> | Hne]; [exfalso; apply Hfree; now left |].
  rewrite IH by (intros Hin; apply Hfree; now right). reflexivity.
Qed.

(** What [split(',')] makes of [', '.join(items)]. *)
Lemma split_on_join (item : pystr) (items : list pystr) :
  (forall d, In d (item :: items) -> ~ In comma d) ->
  split_on comma (join (codes ", ") (item :: items))
  = item :: List.map (cons 32) items.
Proof.
  revert item. induction items as [|next items IH]; intros item Hfree.
  - simpl. apply split_on_single, Hfree. now left.
  - change (join (codes ", ") (item :: next :: items))
      with (item ++ comma :: 32 :: join (codes ", ") (next :: items)).
    rewrite split_on_word by (apply Hfree; now left).
    change (split_on comma (32 :: join (codes ", ") (next :: items)))
      with (match split_on comma (join (codes ", ") (next :: items)) with
            | [] => [[32]]
            | word :: words => (32 :: word) :: words
            end).
    rewrite IH by (intros d Hd; apply Hfree; now right).
    reflexivity.
Qed.

(** ** The fields *)

Lemma searchdomains_loop_spec (parts : list pystr) : forall domains,
  NetworkConfigForm.searchdomains_loop parts domains
  = domains ++ List.filter (fun d => negb (bool_decide (d = []))) (List.map strip parts).
Proof.
  induction parts as [|part parts IH]; intros domains; simpl.
  - now rewrite app_nil_r.
  - destruct (strip part) as [|x d] eqn:Hstrip; simpl.
    + apply IH.
    + rewrite IH, <- app_assoc. reflexivity.
Qed.

Lemma nameservers_loop_spec {address : Type} (ip_address : pystr -> PyExc + address)
    (parts : list pystr) : forall nameservers,
  NetworkConfigForm.nameservers_loop ip_address parts nameservers
  = match NetworkConfigForm.addresses_of ip_address
            (List.filter (fun d => negb (bool_decide (d = []))) (List.map strip parts)) with
    | inl exc => inl exc
    | inr l => inr (nameservers ++ l)
    end.
Proof.
  induction parts as [|part parts IH]; intros nameservers; simpl.
  - now rewrite app_nil_r.
  - destruct (strip part) as [|x d] eqn:Hstrip; simpl.
    + apply IH.
    + destruct (ip_address (x :: d)) as [exc | a]; [reflexivity |].
      rewrite IH. destruct (NetworkConfigForm.addresses_of _ _) as [exc | l];
        [reflexivity |].
      now rewrite <- app_assoc.
Qed.

Lemma clean_searchdomains_filter (value : pystr) :
  NetworkConfigForm.clean_searchdomains value
  = List.filter (fun d => negb (bool_decide (d = [])))
      (List.map strip (split_on comma value)).
Proof.
  unfold NetworkConfigForm.clean_searchdomains.
  now rewrite searchdomains_loop_spec.
Qed.

(** [clean_searchdomains] keeps, in the order of the field, the pieces
    between the commas that are more than whitespace, each without the
    whitespace around it: no domain it answers is empty, holds a comma, or
    begins or ends with whitespace. *)
Theorem clean_searchdomains_domains (value : pystr) :
  NetworkConfigForm.clean_searchdomains value
  = List.filter (fun d => negb (bool_decide (d = [])))
      (List.map strip (split_on comma value))
  /\ forall domain, In domain (NetworkConfigForm.clean_searchdomains value) ->
       domain <> [] /\ ~ In comma domain /\ strip domain = domain.
Proof.
  pose proof (clean_searchdomains_filter value) as Hspec.
  split; [exact Hspec |]. intros domain. rewrite Hspec, filter_In, in_map_iff.
  intros [(part & <- & Hpart) Hne]. split; [| split].
  - apply negb_true_iff, bool_decide_eq_false in Hne. exact Hne.
  - intros Hin. apply strip_incl in Hin. now apply (split_on_free comma value part).
  - apply strip_idem.
Qed.

(** Search domains that are shown in the form as [', '.join(domains)] and
    saved untouched come back as they were, provided each of them is what
    [clean_searchdomains] could have answered: not empty, without a comma and
    without whitespace around it. *)
Theorem searchdomains_round_trip (domains : list pystr) :
  (forall d, In d domains -> d <> [] /\ ~ In comma d /\ strip d = d) ->
  NetworkConfigForm.clean_searchdomains (NetworkConfigForm.initial_value domains)
  = domains.
Proof.
  intros Hclean.
  rewrite clean_searchdomains_filter.
  destruct domains as [|item items]; [reflexivity |].
  unfold NetworkConfigForm.initial_value.
  rewrite split_on_join by (intros d Hd; now apply Hclean).
  simpl List.map. rewrite List.map_map.
  assert (Hitem : strip item = item) by (apply Hclean; now left).
  assert (Hitems : List.map (fun d => strip (32 :: d)) items = items).
  { rewrite <- (List.map_id items) at 2. apply List.map_ext_in.
    intros d Hd. apply strip_after_space, Hclean. now right. }
  rewrite Hitem, Hitems. apply filter_all.
  intros d Hd. apply negb_true_iff, bool_decide_eq_false. now apply Hclean.
Qed.

(** [clean_nameservers] reads its field as [clean_searchdomains] reads its
    own: the name servers are the addresses of the pieces that
    [clean_searchdomains] would keep, in that order, and the first piece that
    is no address decides the error; pieces of whitespace are skipped, not
    refused. *)
Theorem clean_nameservers_of_domains {address : Type}
    (ip_address : pystr -> PyExc + address) (value : pystr) :
  NetworkConfigForm.clean_nameservers ip_address value
  = NetworkConfigForm.addresses_of ip_address
      (NetworkConfigForm.clean_searchdomains value).
Proof.
  rewrite clean_searchdomains_filter.
  unfold NetworkConfigForm.clean_nameservers.
  rewrite nameservers_loop_spec.
  now destruct (NetworkConfigForm.addresses_of _ _).
Qed.


(** ** The further properties on the example machine *)

Lemma unrestricted_failure_seen_witness :
  Controller.probe_task_done probed_after_unrestricted_failure = true
  /\ GET (H := example_machine) true probed_after_unrestricted_failure
     = (inr (StorageResponse.mk DONE
               (Some (ErrorReport.mk_ref BLOCK_PROBE_FAIL "crash")) (Some "{}")),
        probed_after_unrestricted_failure)
  /\ controller_apply_autoinstall_config (H := example_machine)
       (H0 := example_requests) probed_after_unrestricted_failure
     = (inl (Exception_ "probert failed"), probed_after_unrestricted_failure).
Proof.
  split; [reflexivity |].
  destruct (unrestricted_failure_seen (H := example_machine) (H0 := example_requests)
              true probed_after_unrestricted_failure
              (Exception_ "probert failed") (ErrorReport.mk BLOCK_PROBE_FAIL "crash")
              eq_refl eq_refl eq_refl)
    as (HGET & _ & _ & Happly).
  split; [exact HGET | exact Happly].
Defined.

Lemma apply_autoinstall_config_raises_kept_witness :
  Controller._errors controller_after_unrestricted_failure !! false
  = Some (Exception_ "probert failed", ErrorReport.mk BLOCK_PROBE_FAIL "crash")
  /\ controller_apply_autoinstall_config (H := example_machine)
       (H0 := example_requests) controller_after_unrestricted_failure
     = (inl (Exception_ "probert failed"), controller_after_unrestricted_failure).
Proof.
  split; [reflexivity |].
  exact (apply_autoinstall_config_raises_kept (H := example_machine)
           (H0 := example_requests) controller_after_unrestricted_failure
           (Exception_ "probert failed") (ErrorReport.mk BLOCK_PROBE_FAIL "crash")
           (or_introl eq_refl)).
Defined.

Lemma add_boot_partition_guards_witness :
  Model._one_id "sda" (Controller.model example_controller) = Some sda
  /\ v2_add_boot_partition_POST (H := example_machine) (H0 := example_requests)
       "sda" example_controller
     = (inl (ValueError "device already has bootloader partition"), example_controller).
Proof.
  split; [reflexivity |].
  destruct (add_boot_partition_guards (H := example_machine) (H0 := example_requests)
              "sda" example_controller sda eq_refl) as (Hrefused & _).
  exact (Hrefused eq_refl).
Defined.

Lemma delete_partition_target_witness :
  Model._one_id "sda" (Controller.model example_controller) = Some sda
  /\ exists p,
       In p (Device.partitions sda) /\ Partition.number p = 1
       /\ Controller.model
            (snd (v2_delete_partition_POST (H := example_machine)
                    (H0 := example_requests) first_of_sda example_controller))
          = snd (delete_partition (Requests := example_requests) "sda" p example_model).
Proof.
  split; [reflexivity |].
  destruct (delete_partition_target (H := example_machine) (H0 := example_requests)
              first_of_sda example_controller sda eq_refl)
    as [(Hnone & _) | (p & Hin & Hnum & Hmodel & _)].
  - exfalso. exact (Hnone sda_part1 (or_introl eq_refl) eq_refl).
  - exists p. split; [exact Hin |]. split; [exact Hnum | exact Hmodel].
Defined.

Lemma edit_partition_target_witness :
  Model._one_id "sda" (Controller.model example_controller) = Some sda
  /\ exists p spec,
       In p (Device.partitions sda)
       /\ edit_partition_spec (H0 := example_requests)
            (ModifyPartitionV2.partition first_of_sda) p = inr spec
       /\ Controller.model
            (snd (v2_edit_partition_POST (H := example_machine)
                    (H0 := example_requests) first_of_sda example_controller))
          = snd (partition_disk_handler (Requests := example_requests) "sda" spec p
                   example_model).
Proof.
  split; [reflexivity |].
  destruct (edit_partition_target (H := example_machine) (H0 := example_requests)
              first_of_sda example_controller sda eq_refl)
    as [(msg & Hrun & _) | (p & spec & Hin & _ & Hspec & Hmodel)].
  - exfalso. discriminate Hrun.
  - exists p, spec. split; [exact Hin |]. split; [exact Hspec | exact Hmodel].
Defined.

Lemma make_autoinstall_replay_witness :
  make_autoinstall (H0 := example_requests) example_controller
  = (inr (AiData.mk None (Some ["{type: disk, id: disk-sda}"]) None None),
     example_controller)
  /\ Model.grub
       (Controller.model
          (snd ((load_autoinstall_data (H0 := example_requests)
                   (Some (AiData.mk None (Some ["{type: disk, id: disk-sda}"]) None None));;
                 convert_autoinstall_config (H := example_machine))
                  (Controller.set_model (Model.set_grub (Some "{reorder_uefi: false}")
                                           example_model) example_controller))))
     = None.
Proof.
  split; [reflexivity |].
  destruct (make_autoinstall_replay (H := example_machine) (H0 := example_requests)
              example_controller example_controller
              (AiData.mk None (Some ["{type: disk, id: disk-sda}"]) None None) eq_refl)
    as (_ & config & _ & _ & Hreplay).
  rewrite (Hreplay (Controller.set_model (Model.set_grub (Some "{reorder_uefi: false}")
                                            example_model) example_controller)).
  reflexivity.
Defined.

Lemma probe_files_after_failed_load_witness :
  load_probe_data (Collaborators := half_loading_machine) {[ "filesystem" := "{}" ]}
    (Controller.model example_controller)
  = (inl (KeyError "blockdev"),
     Model.mk [] [] None [("gpt", MiB); ("msdos", MiB)] (Some {[ "filesystem" := "{}" ]})
       None None)
  /\ Controller.block_log (snd (_probe (H := half_loading_machine) example_controller))
     = [("/var/log/installer/block/probe-data-restricted.json", {[ "blockdev" := "{}" ]});
        ("/var/log/installer/block/probe-data.json", {[ "filesystem" := "{}" ]})]
  /\ Controller.model (snd (_probe (H := half_loading_machine) example_controller))
     = Model.mk [] [] None [("gpt", MiB); ("msdos", MiB)] (Some {[ "blockdev" := "{}" ]})
         None None.
Proof.
  split; [reflexivity |].
  destruct (probe_files_after_failed_load (H := half_loading_machine)
              example_controller {[ "filesystem" := "{}" ]} {[ "blockdev" := "{}" ]}
              (KeyError "blockdev")
              (Model.mk [] [] None [("gpt", MiB); ("msdos", MiB)]
                 (Some {[ "filesystem" := "{}" ]}) None None)
              (Model.mk [] [] None [("gpt", MiB); ("msdos", MiB)]
                 (Some {[ "blockdev" := "{}" ]}) None None)
              (inr tt)
              eq_refl eq_refl eq_refl eq_refl eq_refl ltac:(discriminate)
              eq_refl eq_refl)
    as (Hblock & _ & Hmodel & _).
  split; [exact Hblock | exact Hmodel].
Defined.

Lemma guided_lvm_calls_witness :
  gap_split (Collaborators := example_machine) sda_gap
    (get_bootfs_size (Collaborators := example_machine) (Gap.size sda_gap))
  = inr (Gap.mk "sda" (150 * sizes.GiB) sizes.GiB, None)
  /\ Controller.calls (snd (guided_lvm (H := example_machine) sda_gap None
                              example_controller))
     = [CallCreatePartition "sda" (Some (Gap.mk "sda" (150 * sizes.GiB) sizes.GiB))
          (Some "ext4") (Some "/boot");
        CallCreatePartition "sda" None None None;
        CallCreateVolgroup "ubuntu-vg";
        CallCreateLogicalVolume "ubuntu-vg" 0].
Proof.
  split; [reflexivity |].
  destruct (guided_lvm_calls (H := example_machine) sda_gap
              (Gap.mk "sda" (150 * sizes.GiB) sizes.GiB) None None example_controller
              (Partition.mk 2 (150 * sizes.GiB) sizes.GiB false 0)
              (Partition.mk 2 0 0 false 0) example_model example_model
              eq_refl eq_refl eq_refl)
    as (j & Hfree & Hbelow & Hcalls & _).
  rewrite Hcalls.
  destruct j as [| j]; [reflexivity |].
  exfalso. exact (Hbelow 0%nat ltac:(lia)).
Defined.

Lemma reformat_offers_are_guided_disks_witness :
  exists v2 legacy,
    v2_guided_GET (H := example_machine) false example_controller
    = (inr v2, example_controller)
    /\ guided_GET (H := example_machine) false example_controller
       = (inr legacy, example_controller)
    /\ In (GuidedStorageTargetReformat "sda") (GuidedStorageResponseV2.possible v2)
    /\ exists disk min_size,
         In (disk, min_size) (GuidedStorageResponse.disks legacy)
         /\ Device.id disk = "sda".
Proof.
  eexists. eexists. split; [reflexivity |]. split; [vm_compute; reflexivity |].
  split; [now left |].
  destruct (reformat_offers_are_guided_disks (H := example_machine) false
              example_controller example_controller example_controller _ _
              eq_refl eq_refl) as (_ & _ & _ & Hoffer).
  apply Hoffer. now left.
Defined.

Lemma rejected_choice_stays_configured_witness :
  get_partition sda 9 = inl (ValueError "Partition 9 on sda not found")
  /\ v2_guided_POST (H := example_machine) resize_ninth_of_sda example_controller
     = (inl (ValueError "Partition 9 on sda not found"),
        Controller.set_model
          (Model.set_guided_configuration (Some resize_ninth_of_sda) example_model)
          example_controller).
Proof.
  split; [reflexivity |].
  destruct (rejected_choice_stays_configured (H := example_machine)
              resize_ninth_of_sda example_controller "sda" 9 (50 * sizes.GiB)
              0 0 0 eq_refl) as (_ & Hpost & _).
  - intros disk p [= <-] Hp. vm_compute in Hp. discriminate Hp.
  - exact Hpost.
Defined.

Lemma searchdomains_round_trip_witness :
  NetworkConfigForm.clean_searchdomains
    (NetworkConfigForm.initial_value [codes "lan"; codes "example.com"])
  = [codes "lan"; codes "example.com"].
Proof.
  apply (searchdomains_round_trip [codes "lan"; codes "example.com"]).
  intros d [<- | [<- | []]]; (split; [discriminate | split; [| reflexivity]]);
    vm_compute; intuition discriminate.
Defined.
